(** * Option momentum alerts: the signal pipeline, the alert store and the
      check cycle of [app.py], [indicators.py] and [telegram_alerts.py].

    The Python sources are embedded shallowly:

    - a pandas float cell is a value of [float]: an exact rational with the
      IEEE special values (not-a-number, the two infinities, the sign of a
      zero).  Rounding, overflow and underflow of the cells are not
      represented; the one Python float the alert store compares, the
      seconds of a [timedelta], is rounded to binary64 ([to_double]);
    - a [Series] is the list of its cells, a [DataFrame] a row index and a
      dictionary of columns, DataFrame objects live in a heap of references
      (so that [df.copy()] and [df['x'] = ...] are what they are in Python);
    - functions that may raise return a [result]; functions with effects
      run in the monad [M] over the [World];
    - what the program takes from outside (candle provider, HTTP endpoint,
      clock, ISO-8601 rendering and parsing) is a field of [Env].

    Left out: the Streamlit page around [run_check], failures of the file
    system itself (a file that is there is read and written without error)
    and exceptions that are not below [Exception]. *)

From Stdlib Require Import ZArith QArith Qabs Qround Qpower Lqa String List Bool
  Lia.
From stdpp Require Import base gmap strings list fin_maps pretty.

#[local] Set Warnings "-register-all".
#[local] Open Scope Q_scope.

(* ===================================================================== *)
(** ** Floating-point cells *)
(* ===================================================================== *)

(** [Fin z q] is the finite value [q]; [z] is the sign bit of a zero and
    is only looked at when [q == 0]. *)
Inductive float : Type :=
| NaN : float
| Inf (neg : bool) : float
| Fin (negzero : bool) (q : Q) : float.

Definition fl (q : Q) : float := Fin false q.

Definition is_nan (x : float) : bool :=
  match x with NaN => true | _ => false end.

Definition is_inf (x : float) : bool :=
  match x with Inf _ => true | _ => false end.

Definition Qlt_bool (a b : Q) : bool := negb (Qle_bool b a).

Definition signbit (x : float) : bool :=
  match x with
  | NaN => false
  | Inf s => s
  | Fin z q => if Qeq_bool q 0 then z else Qlt_bool q 0
  end.

Definition fneg (x : float) : float :=
  match x with
  | NaN => NaN
  | Inf s => Inf (negb s)
  | Fin z q => Fin (negb z) (- q)
  end.

Definition fadd (x y : float) : float :=
  match x, y with
  | NaN, _ | _, NaN => NaN
  | Inf s, Inf t => if Bool.eqb s t then Inf s else NaN
  | Inf s, Fin _ _ => Inf s
  | Fin _ _, Inf t => Inf t
  | Fin z1 a, Fin z2 b =>
      Fin (Qeq_bool a 0 && Qeq_bool b 0 && z1 && z2) (a + b)
  end.

Definition fsub (x y : float) : float := fadd x (fneg y).

Definition fmul (x y : float) : float :=
  match x, y with
  | NaN, _ | _, NaN => NaN
  | Inf s, Inf t => Inf (xorb s t)
  | Inf s, Fin z q =>
      if Qeq_bool q 0 then NaN else Inf (xorb s (signbit y))
  | Fin z q, Inf t =>
      if Qeq_bool q 0 then NaN else Inf (xorb (signbit x) t)
  | Fin _ a, Fin _ b => Fin (xorb (signbit x) (signbit y)) (a * b)
  end.

Definition fdiv (x y : float) : float :=
  match x, y with
  | NaN, _ | _, NaN => NaN
  | Inf _, Inf _ => NaN
  | Inf s, Fin _ _ => Inf (xorb s (signbit y))
  | Fin _ _, Inf t => Fin (xorb (signbit x) t) 0
  | Fin _ a, Fin _ b =>
      if Qeq_bool b 0
      then (if Qeq_bool a 0 then NaN else Inf (xorb (signbit x) (signbit y)))
      else Fin (xorb (signbit x) (signbit y)) (a / b)
  end.

Definition fabs (x : float) : float :=
  match x with
  | NaN => NaN
  | Inf _ => Inf false
  | Fin _ q => Fin false (Qabs q)
  end.

(** Comparisons: an operand that is not a number is unordered, and every
    comparison with it is false. *)
Definition fcompare (x y : float) : option comparison :=
  match x, y with
  | NaN, _ | _, NaN => None
  | Inf s, Inf t =>
      Some (if Bool.eqb s t then Eq else if s then Lt else Gt)
  | Inf s, Fin _ _ => Some (if s then Lt else Gt)
  | Fin _ _, Inf t => Some (if t then Gt else Lt)
  | Fin _ a, Fin _ b => Some (a ?= b)
  end.

Definition flt (x y : float) : bool :=
  match fcompare x y with Some Lt => true | _ => false end.
Definition fle (x y : float) : bool :=
  match fcompare x y with Some Lt | Some Eq => true | _ => false end.
Definition fgt (x y : float) : bool := flt y x.
Definition fge (x y : float) : bool := fle y x.
Definition feqb (x y : float) : bool :=
  match fcompare x y with Some Eq => true | _ => false end.
Definition fneb (x y : float) : bool := negb (feqb x y).

(* ===================================================================== *)
(** ** pandas: the Series operations the indicators use *)
(* ===================================================================== *)

(** A float64 Series, by position.  Every Series of one frame shares the
    frame's index, so alignment is positional. *)
Definition zip_with_f (f : float -> float -> float) (xs ys : list float)
  : list float :=
  map (fun p => f (fst p) (snd p)) (combine xs ys).

(** [s.shift()] *)
Definition shift (xs : list float) : list float :=
  match xs with
  | [] => []
  | _ => NaN :: removelast xs
  end.

(** [s.diff()] *)
Definition diff (xs : list float) : list float :=
  zip_with_f fsub xs (shift xs).

(** [s.clip(lower=lo)]: cells below [lo] become [lo], a not-a-number
    stays. *)
Definition clip_lower (lo : float) (xs : list float) : list float :=
  map (fun x => if is_nan x || fge x lo then x else lo) xs.

(** [s.clip(upper=hi)] *)
Definition clip_upper (hi : float) (xs : list float) : list float :=
  map (fun x => if is_nan x || fle x hi then x else hi) xs.

(** [c * s] and [s * c] for a scalar [c] *)
Definition scale (c : float) (xs : list float) : list float :=
  map (fmul c) xs.

(** [s.abs()] *)
Definition series_abs (xs : list float) : list float := map fabs xs.

(** [a > b], cell by cell *)
Definition series_gt (xs ys : list float) : list bool :=
  map (fun p => fgt (fst p) (snd p)) (combine xs ys).

(** State of the exponentially weighted mean between two cells. *)
Record ewm_state := {
  weighted : float;
  old_wt : Q;
  nobs : nat
}.

Definition ewm_out (minp : nat) (st : ewm_state) : float :=
  if (minp <=? nobs st)%nat then weighted st else NaN.

(** What the window functions see of a cell: [_prep_values] turns an
    infinity into a not-a-number before the loop runs. *)
Definition prep_value (x : float) : float :=
  if is_inf x then NaN else x.

(** One turn of the loop of [ewm] for [adjust=False], [ignore_na=False]:
    [old_wt_factor = 1 - alpha], [new_wt = alpha]. *)
Definition ewm_step (alpha : Q) (st : ewm_state) (cur : float) : ewm_state :=
  let cur := prep_value cur in
  let is_observation := negb (is_nan cur) in
  let nobs' := (nobs st + (if is_observation then 1 else 0))%nat in
  if negb (is_nan (weighted st)) then
    let old_wt1 := old_wt st * (1 - alpha) in
    if is_observation then
      let w :=
        if fneb (weighted st) cur
        then fdiv (fadd (fmul (fl old_wt1) (weighted st)) (fmul (fl alpha) cur))
                  (fl (old_wt1 + alpha))
        else weighted st in
      {| weighted := w; old_wt := 1; nobs := nobs' |}
    else {| weighted := weighted st; old_wt := old_wt1; nobs := nobs' |}
  else if is_observation then
    {| weighted := cur; old_wt := old_wt st; nobs := nobs' |}
  else {| weighted := weighted st; old_wt := old_wt st; nobs := nobs' |}.

Fixpoint ewm_loop (alpha : Q) (minp : nat) (st : ewm_state)
  (xs : list float) : list float :=
  match xs with
  | [] => []
  | cur :: rest =>
      let st' := ewm_step alpha st cur in
      ewm_out minp st' :: ewm_loop alpha minp st' rest
  end.

(** [s.ewm(alpha=alpha, adjust=False).mean()]; [min_periods] is 0, which
    the implementation raises to 1.  pandas wants [0 < alpha <= 1]; the
    program calls it with spans 9 and 21 and lengths 5 and 14. *)
Definition ewm_mean (alpha : Q) (xs : list float) : list float :=
  match xs with
  | [] => []
  | x0 :: rest =>
      let x0 := prep_value x0 in
      let st := {| weighted := x0; old_wt := 1;
                   nobs := if is_nan x0 then 0 else 1 |} in
      ewm_out 1 st :: ewm_loop alpha 1 st rest
  end.

(** [s.rolling(n).mean()]: the mean of the last [n] cells; not a number
    until [n] cells are there and whenever one of them is not a number
    (an infinity counts as one).  The mean of a window of numbers is the
    exact one: the running sum pandas keeps, with its rounding and its
    overflow, is not represented, and no property below states the
    value of such a mean. *)
Definition fsum (xs : list float) : float := fold_left fadd xs (fl 0).

Definition window_mean (n : nat) (win : list float) : float :=
  if (length win <? n)%nat then NaN
  else if existsb (fun x => is_nan x || is_inf x) win then NaN
  else fdiv (fsum win) (fl (inject_Z (Z.of_nat n))).

Fixpoint rolling_loop (n : nat) (seen : list float) (xs : list float)
  : list float :=
  match xs with
  | [] => []
  | x :: rest =>
      let seen' := seen ++ [x] in
      let win := skipn (length seen' - n) seen' in
      window_mean n win :: rolling_loop n seen' rest
  end.

Definition rolling_mean (n : nat) (xs : list float) : list float :=
  rolling_loop n [] xs.

(** [pd.concat([a, b, c], axis=1).max(axis=1)]: the largest cell of each
    row, cells that are not a number skipped. *)
Definition nanmax (x y : float) : float :=
  if is_nan x then y else if is_nan y then x else if fgt y x then y else x.

Fixpoint row_max3 (a b c : list float) : list float :=
  match a, b, c with
  | x :: a', y :: b', z :: c' => nanmax (nanmax x y) z :: row_max3 a' b' c'
  | _, _, _ => []
  end.

(* ===================================================================== *)
(** ** indicators.py *)
(* ===================================================================== *)

(** [series.ewm(span=length, adjust=False).mean()]: a span [n] is
    [alpha = 2 / (n + 1)]. *)
Definition ema (series : list float) (length : Z) : list float :=
  ewm_mean (2 / (inject_Z length + 1)) series.

Definition rsi (series : list float) (length : Z) : list float :=
  let delta := diff series in
  let up := clip_lower (fl 0) delta in
  let down := scale (fl (-1)) (clip_upper (fl 0) delta) in
  let ma_up := ewm_mean (1 / inject_Z length) up in
  let ma_down := ewm_mean (1 / inject_Z length) down in
  let rs := zip_with_f fdiv ma_up ma_down in
  map (fun r => fsub (fl 100) (fdiv (fl 100) (fadd (fl 1) r))) rs.

Definition volume_spike (volume_series : list float) (lookback : nat)
  (multiplier : Q) : list bool :=
  let baseline := rolling_mean lookback volume_series in
  series_gt volume_series (scale (fl multiplier) baseline).

(* ===================================================================== *)
(** ** Exceptions and results *)
(* ===================================================================== *)

(** Classes below [Exception]; [str(e)] is the message. *)
Inductive exn_class : Type :=
| KeyError | TypeError | ValueError | IndexError | RuntimeError
| OSError | RequestException.

Record exn := Exn { exn_cls : exn_class; exn_msg : string }.

Definition str_exn (e : exn) : string := exn_msg e.

Inductive result (A : Type) : Type :=
| Ok (a : A)
| Raise (e : exn).
Arguments Ok {A} a.
Arguments Raise {A} e.

#[export] Instance result_ret : MRet result := fun A a => Ok a.
#[export] Instance result_bind : MBind result := fun A B f r =>
  match r with
  | Ok a => f a
  | Raise e => Raise e
  end.

(* ===================================================================== *)
(** ** DataFrames *)
(* ===================================================================== *)

Inductive Series : Type :=
| Floats (xs : list float)
| Bools (bs : list bool).

Inductive cell : Type :=
| CFloat (x : float)
| CBool (b : bool).

Definition series_cell (i : nat) (s : Series) : option cell :=
  match s with
  | Floats xs => CFloat <$> xs !! i
  | Bools bs => CBool <$> bs !! i
  end.

(** The row labels (rendered, as [str] gives them) and the columns. *)
Record DataFrame := {
  index : list string;
  columns : gmap string Series
}.

(** A row taken out of a frame: [row.name] and the cells by column. *)
Record Row := {
  name : string;
  cells : gmap string cell
}.

(** [df.iloc[i]], [i] counted from the end when negative. *)
Definition iloc (df : DataFrame) (i : Z) : result Row :=
  let n := Z.of_nat (length (index df)) in
  let pos := (if i <? 0 then n + i else i)%Z in
  if ((pos <? 0) || (n <=? pos))%Z
  then Raise (Exn IndexError "single positional indexer is out-of-bounds")
  else
    let k := Z.to_nat pos in
    match index df !! k with
    | Some label =>
        Ok {| name := label; cells := omap (series_cell k) (columns df) |}
    | None =>
        Raise (Exn IndexError "single positional indexer is out-of-bounds")
    end.

(** [row[key]] *)
Definition row_get (r : Row) (key : string) : result cell :=
  match cells r !! key with
  | Some c => Ok c
  | None => Raise (Exn KeyError key)
  end.

(** A column read for arithmetic.  The columns the program computes on
    are float columns; a boolean column in their place is not
    represented further than by a [TypeError] (pandas raises on some
    operations over booleans, as the subtractions of [atr], and computes
    on others), and no property below reads one. *)
Definition numeric (s : Series) : result (list float) :=
  match s with
  | Floats xs => Ok xs
  | Bools _ => Raise (Exn TypeError "boolean column in arithmetic")
  end.

(** Python compares a [bool] with a number as 1 or 0. *)
Definition as_float (c : cell) : float :=
  match c with
  | CFloat x => x
  | CBool b => if b then fl 1 else fl 0
  end.

Definition cell_gt (a b : cell) : bool := fgt (as_float a) (as_float b).
Definition cell_le (a b : cell) : bool := fle (as_float a) (as_float b).
Definition cell_eq (a b : cell) : bool := feqb (as_float a) (as_float b).

(* ===================================================================== *)
(** ** JSON documents and the alert store *)
(* ===================================================================== *)

Inductive json : Type :=
| JNull
| JBool (b : bool)
| JNum (z : Z)
| JStr (s : string)
| JArr (l : list json)
| JObj (m : gmap string json).

(** The text of [alerts_sent.json], through what [json.load] makes of it:
    an exception, or a document. *)
Inductive file : Type :=
| Unparsable
| Doc (v : json).

(** A [datetime]: the wall-clock reading in microseconds and, when the
    value is aware, its offset from UTC in microseconds. *)
Record datetime := {
  wall : Z;
  tzinfo : option Z
}.

(* ===================================================================== *)
(** ** The world and the monad of effects *)
(* ===================================================================== *)

Definition loc := nat.

(** What the program did to the outside. *)
Inductive event : Type :=
| EvFetch (symbol : string)
| EvPost (url : string) (chat_id : string) (text : string)
| EvSleep
| EvPrint (msg : string)
| EvStError (msg : string)
| EvWrite (f : file).

Record World := {
  heap : gmap loc DataFrame;
  alerts_file : option file;
  ticks : nat;
  trace : list event
}.

Definition M (A : Type) : Type := World -> result A * World.

#[export] Instance M_ret : MRet M := fun A a w => (Ok a, w).
#[export] Instance M_bind : MBind M := fun A B f m w =>
  match m w with
  | (Ok a, w') => f a w'
  | (Raise e, w') => (Raise e, w')
  end.

Definition raise {A} (e : exn) : M A := fun w => (Raise e, w).

Definition lift {A} (r : result A) : M A := fun w => (r, w).

(** [try: body  except Exception as e: handler(e)] *)
Definition try_except {A} (body : M A) (handler : exn -> M A) : M A :=
  fun w =>
    match body w with
    | (Ok a, w') => (Ok a, w')
    | (Raise e, w') => handler e w'
    end.

Definition emit (ev : event) : M unit := fun w =>
  (Ok tt, {| heap := heap w; alerts_file := alerts_file w;
             ticks := ticks w; trace := trace w ++ [ev] |}).

(** The world after one more interaction with the outside. *)
Definition ticked (w : World) : World :=
  {| heap := heap w; alerts_file := alerts_file w;
     ticks := S (ticks w); trace := trace w |}.

Definition tick : M nat := fun w => (Ok (ticks w), ticked w).

Definition set_heap (h : gmap loc DataFrame) (w : World) : World :=
  {| heap := h; alerts_file := alerts_file w;
     ticks := ticks w; trace := trace w |}.

Definition dangling : exn := Exn RuntimeError "dangling reference".

Definition deref (l : loc) : M DataFrame := fun w =>
  match heap w !! l with
  | Some df => (Ok df, w)
  | None => (Raise dangling, w)
  end.

(** A new DataFrame object. *)
Definition alloc (df : DataFrame) : M loc := fun w =>
  let l := fresh (dom (heap w)) in
  (Ok l, set_heap (<[l := df]> (heap w)) w).

(** [df.copy()] *)
Definition df_copy (l : loc) : M loc :=
  df ← deref l; alloc df.

(** [len(df)] *)
Definition df_len (l : loc) : M nat :=
  df ← deref l; mret (length (index df)).

(** [df[key]] read as a numeric Series *)
Definition getcol (l : loc) (key : string) : M (list float) :=
  df ← deref l;
  match columns df !! key with
  | Some s => lift (numeric s)
  | None => raise (Exn KeyError key)
  end.

(** [df[key] = s], in place *)
Definition store (l : loc) (df : DataFrame) : M unit := fun w =>
  (Ok tt, set_heap (<[l := df]> (heap w)) w).

Definition setcol (l : loc) (key : string) (s : Series) : M unit :=
  df ← deref l;
  store l {| index := index df; columns := <[key := s]> (columns df) |}.

(** [df.iloc[i]] *)
Definition df_iloc (l : loc) (i : Z) : M Row :=
  df ← deref l; lift (iloc df i).

(* ===================================================================== *)
(** ** indicators.py, the functions over a frame *)
(* ===================================================================== *)

Definition atr (df : loc) (length : Z) : M (list float) :=
  high ← getcol df "high";
  low ← getcol df "low";
  let high_low := zip_with_f fsub high low in
  high ← getcol df "high";
  close ← getcol df "close";
  let high_close := series_abs (zip_with_f fsub high (shift close)) in
  low ← getcol df "low";
  close ← getcol df "close";
  let low_close := series_abs (zip_with_f fsub low (shift close)) in
  let tr := row_max3 high_low high_close low_close in
  mret (ewm_mean (1 / inject_Z length) tr).

Definition compute_all (df : loc) : M loc :=
  df ← df_copy df;
  close ← getcol df "close";
  setcol df "ema9" (Floats (ema close 9));;
  close ← getcol df "close";
  setcol df "ema21" (Floats (ema close 21));;
  close ← getcol df "close";
  setcol df "rsi5" (Floats (rsi close 5));;
  atr14 ← atr df 14;
  setcol df "atr14" (Floats atr14);;
  atr14 ← getcol df "atr14";
  setcol df "atr14_ma" (Floats (rolling_mean 14 atr14));;
  atr14 ← getcol df "atr14";
  atr14_ma ← getcol df "atr14_ma";
  setcol df "atr_spike" (Bools (series_gt atr14 (scale (fl 1.2) atr14_ma)));;
  volume ← getcol df "volume";
  setcol df "vol_spike" (Bools (volume_spike volume 10 1.5));;
  mret df.

(* ===================================================================== *)
(** ** app.py: the signal *)
(* ===================================================================== *)

(** Values of the report dictionary. *)
Inductive pyval : Type :=
| PBool (b : bool)
| PFloat (x : float)
| PStr (s : string).

(** The five conditions of [detect_momentum_signal], read off the last two
    rows.  [a and b] evaluates [b] only when [a] is true. *)
Record Conditions := {
  c_ema_cross : bool;
  c_rsi_burst : bool;
  c_vol_spike : bool;
  c_atr_spike : bool;
  c_price_above_emas : bool
}.

Definition conditions (last prev : Row) : result Conditions :=
  ema_cross ←
    (a ← row_get last "ema9"; b ← row_get last "ema21";
     if cell_gt a b
     then c ← row_get prev "ema9"; d ← row_get prev "ema21";
          mret (cell_le c d)
     else mret false);
  rsi_burst ← (r ← row_get last "rsi5"; mret (cell_gt r (CFloat (fl 55))));
  vol_spike ← (v ← row_get last "vol_spike"; mret (cell_eq v (CBool true)));
  atr_spike ← (v ← row_get last "atr_spike"; mret (cell_eq v (CBool true)));
  price_above_emas ←
    (c ← row_get last "close"; a ← row_get last "ema9";
     if cell_gt c a
     then c ← row_get last "close"; b ← row_get last "ema21";
          mret (cell_gt c b)
     else mret false);
  mret {| c_ema_cross := ema_cross; c_rsi_burst := rsi_burst;
          c_vol_spike := vol_spike; c_atr_spike := atr_spike;
          c_price_above_emas := price_above_emas |}.

Definition signal_of (c : Conditions) : bool :=
  (c_ema_cross c || c_price_above_emas c)
  && c_rsi_burst c && c_vol_spike c && c_atr_spike c.

Definition report (c : Conditions) (last : Row) : result (gmap string pyval) :=
  rsi5 ← row_get last "rsi5";
  close ← row_get last "close";
  mret (<["signal" := PBool (signal_of c)]>
        (<["ema_cross" := PBool (c_ema_cross c)]>
        (<["rsi5" := PFloat (as_float rsi5)]>
        (<["vol_spike" := PBool (c_vol_spike c)]>
        (<["atr_spike" := PBool (c_atr_spike c)]>
        (<["close" := PFloat (as_float close)]>
        (<["time" := PStr (name last)]> ∅))))))).

Definition detect_momentum_signal (df : option loc)
  : M (gmap string pyval) :=
  match df with
  | None => mret ∅
  | Some df =>
      n ← df_len df;
      if (n <? 30)%nat then mret ∅
      else
        df ← compute_all df;
        last ← df_iloc df (-1);
        prev ← df_iloc df (-2);
        c ← lift (conditions last prev);
        lift (report c last)
  end.

(* ===================================================================== *)
(** ** The environment and the configuration *)
(* ===================================================================== *)

(** What [requests.post] does: a response with its status code, or an
    exception. *)
Inductive post_outcome : Type :=
| Response (status_code : Z)
| PostRaises (e : exn).

(** The outside of the program.  The first argument of [provider],
    [http_post] and [utcnow] is the number of the interaction, so that two
    calls need not agree.
    - [provider]: the body of [fetch_candles], a placeholder for the data
      provider: a frame, [None], or an exception;
    - [http_post url chat_id text]: [requests.post] to the Telegram API;
    - [utcnow]: the UTC clock, in microseconds;
    - [isoformat], [fromisoformat]: the methods of [datetime];
    - [alert_text]: the rendering of the f-string of the alert. *)
Record Env := {
  provider : nat -> string -> result (option DataFrame);
  http_post : nat -> string -> string -> string -> post_outcome;
  utcnow : nat -> Z;
  isoformat : datetime -> string;
  fromisoformat : string -> option datetime;
  alert_text : string -> list pyval -> string
}.

(** [config.json] and the two inputs of the page. *)
Record Config := {
  telegram_bot_token : option string;
  telegram_chat_id : option string;
  symbols : list string;
  alert_minutes_lockout : Z
}.

(* ===================================================================== *)
(** ** telegram_alerts.py *)
(* ===================================================================== *)

(** [not s] for an optional string: [None] and the empty string. *)
Definition falsy (s : option string) : bool :=
  match s with
  | None => true
  | Some s => if decide (s = ""%string) then true else false
  end.

Definition send_telegram_message (env : Env)
  (bot_token chat_id : option string) (text : string) : M bool :=
  if falsy bot_token || falsy chat_id
  then raise (Exn ValueError "Provide bot_token and chat_id in config.")
  else
    let token := default ""%string bot_token in
    let chat := default ""%string chat_id in
    let url := ("https://api.telegram.org/bot" ++ token
                ++ "/sendMessage")%string in
    try_except
      (n ← tick;
       emit (EvPost url chat text);;
       match http_post env n url chat text with
       | PostRaises e => raise e
       | Response status_code =>
           if (status_code =? 200)%Z then mret true
           else emit EvSleep;; mret false
       end)
      (fun e => emit (EvPrint ("Telegram send error: " ++ str_exn e));;
                mret false).

(* ===================================================================== *)
(** ** app.py: the alert store *)
(* ===================================================================== *)

(** [os.path.exists(ALERTS_FILE)] and the [open(..., "r")] after it. *)
Definition read_alerts : M (option file) := fun w => (Ok (alerts_file w), w).

(** [open(ALERTS_FILE, "w")] and [json.dump(data, f)]. *)
Definition write_alerts (data : json) : M unit := fun w =>
  (Ok tt, {| heap := heap w; alerts_file := Some (Doc data);
             ticks := ticks w; trace := trace w ++ [EvWrite (Doc data)] |}).

Definition json_load (f : file) : result json :=
  match f with
  | Unparsable => Raise (Exn ValueError "JSONDecodeError")
  | Doc v => Ok v
  end.

(** [data[key] = v] *)
Definition json_setitem (data : json) (key : string) (v : json)
  : result json :=
  match data with
  | JObj m => Ok (JObj (<[key := v]> m))
  | _ => Raise (Exn TypeError "object does not support item assignment")
  end.

(** [key in data] *)
Definition json_contains (data : json) (key : string) : result bool :=
  match data with
  | JObj m => Ok (bool_decide (is_Some (m !! key)))
  | JArr l =>
      Ok (existsb (fun v => match v with
                            | JStr s => if decide (s = key) then true else false
                            | _ => false
                            end) l)
  | JStr s => Ok (bool_decide (is_Some (String.index 0 key s)))
  | _ => Raise (Exn TypeError "argument is not iterable")
  end.

(** [data[key]] *)
Definition json_getitem (data : json) (key : string) : result json :=
  match data with
  | JObj m =>
      match m !! key with
      | Some v => Ok v
      | None => Raise (Exn KeyError key)
      end
  | _ => Raise (Exn TypeError "indices must be integers")
  end.

(** [datetime.fromisoformat(v)] *)
Definition py_fromisoformat (env : Env) (v : json) : result datetime :=
  match v with
  | JStr s =>
      match fromisoformat env s with
      | Some d => Ok d
      | None => Raise (Exn ValueError "Invalid isoformat string")
      end
  | _ => Raise (Exn TypeError "fromisoformat: argument must be str")
  end.

(** [d.replace(tzinfo=timezone.utc)] *)
Definition replace_utc (d : datetime) : datetime :=
  {| wall := wall d; tzinfo := Some 0%Z |}.

(** [datetime.now(timezone.utc)] *)
Definition now_utc (env : Env) : M datetime :=
  n ← tick; mret {| wall := utcnow env n; tzinfo := Some 0%Z |}.

(** [a - b], a [timedelta] in microseconds. *)
Definition dt_sub (a b : datetime) : result Z :=
  match tzinfo a, tzinfo b with
  | Some oa, Some ob => Ok ((wall a - oa) - (wall b - ob))%Z
  | None, None => Ok (wall a - wall b)%Z
  | _, _ =>
      Raise (Exn TypeError
               "can't subtract offset-naive and offset-aware datetimes")
  end.

(** [timedelta.total_seconds()] is a Python float: the quotient of two
    integers, rounded to the nearest binary64 value, ties to even.  The
    exponent range is not represented (no overflow, no subnormals): the
    seconds of a [timedelta] are far inside it. *)

(** For [0 < q], the [k] with [2^k <= q < 2^(k+1)]. *)
Definition floor_log2 (q : Q) : Z :=
  let k := (Z.log2 (Qnum q) - Z.log2 (Zpos (Qden q)))%Z in
  if Qle_bool (2 ^ k)%Q q then k else (k - 1)%Z.

Definition round_half_even (x : Q) : Z :=
  let f := Qfloor x in
  match (x - inject_Z f ?= 1 # 2)%Q with
  | Lt => f
  | Gt => (f + 1)%Z
  | Eq => if Z.even f then f else (f + 1)%Z
  end.

(** The binary64 value of an exact quotient: 53 significant bits. *)
Definition to_double (q : Q) : Q :=
  if Qeq_bool q 0 then 0
  else
    let e := (floor_log2 (Qabs q) - 52)%Z in
    inject_Z (round_half_even (q / 2 ^ e)) * 2 ^ e.

(** [td.total_seconds()], for [td] in microseconds *)
Definition total_seconds (td : Z) : Q := to_double (inject_Z td / 1000000).

Definition persist_alert (symbol ts : string) : M unit :=
  f ← read_alerts;
  let data :=
    match f with
    | Some f =>
        match json_load f with
        | Ok v => v
        | Raise _ => JObj ∅
        end
    | None => JObj ∅
    end in
  data ← lift (json_setitem data symbol (JStr ts));
  write_alerts data.

Definition was_alert_sent_recent (env : Env) (symbol : string) (minutes : Z)
  : M bool :=
  f ← read_alerts;
  match f with
  | None => mret false
  | Some f =>
      match json_load f with
      | Raise _ => mret false
      | Ok data =>
          present ← lift (json_contains data symbol);
          if negb present then mret false
          else
            v ← lift (json_getitem data symbol);
            last_ts ← lift (py_fromisoformat env v);
            now ← now_utc env;
            diff ← lift (dt_sub now (replace_utc last_ts));
            mret (Qle_bool (total_seconds diff) (inject_Z (minutes * 60)))
      end
  end.

(* ===================================================================== *)
(** ** app.py: the check cycle *)
(* ===================================================================== *)

(** [fetch_candles] is shipped as a placeholder ("Replace with your real
    data provider code"): its body is the [provider] of the environment.
    The body in the repository is the provider [shipped_provider]: in
    demo mode the frame of random candles [synthetic] builds, or the
    exception building it raised; a [RuntimeError] otherwise. *)
Definition shipped_provider (demo_mode : bool)
  (synthetic : nat -> result DataFrame)
  : nat -> string -> result (option DataFrame) :=
  fun n _ =>
    if demo_mode then df ← synthetic n; Ok (Some df)
    else Raise (Exn RuntimeError
                  "fetch_candles: You must implement the data fetch logic for your provider. Set demo_mode true in config.json to test UI.").

Definition fetch_candles (env : Env) (symbol : string) : M (option loc) :=
  n ← tick;
  emit (EvFetch symbol);;
  match provider env n symbol with
  | Ok (Some df) => l ← alloc df; mret (Some l)
  | Ok None => mret None
  | Raise e => raise e
  end.

(** [d[key]] on a report *)
Definition dict_get (d : gmap string pyval) (key : string) : result pyval :=
  match d !! key with
  | Some v => Ok v
  | None => Raise (Exn KeyError key)
  end.

(** Truth value of [sig.get("signal", False)]. *)
Definition truthy (v : pyval) : bool :=
  match v with
  | PBool b => b
  | PFloat x => negb (feqb x (fl 0))
  | PStr s => if decide (s = ""%string) then false else true
  end.

Definition compose_message (env : Env) (symbol : string)
  (sig : gmap string pyval) : result string :=
  close ← dict_get sig "close";
  time ← dict_get sig "time";
  rsi5 ← dict_get sig "rsi5";
  ema_cross ← dict_get sig "ema_cross";
  vol_spike ← dict_get sig "vol_spike";
  atr_spike ← dict_get sig "atr_spike";
  mret (alert_text env symbol
          [close; time; rsi5; ema_cross; vol_spike; atr_spike]).

(** The part of the loop body after [results.append(sig)]. *)
Definition alert_if_fresh (env : Env) (cfg : Config) (symbol : string)
  (sig : gmap string pyval) : M unit :=
  if truthy (default (PBool false) (sig !! "signal")) then
    recent ← was_alert_sent_recent env symbol (alert_minutes_lockout cfg);
    if negb recent then
      msg ← lift (compose_message env symbol sig);
      sent ← try_except
               (send_telegram_message env (telegram_bot_token cfg)
                  (telegram_chat_id cfg) msg)
               (fun e =>
                  emit (EvStError ("Telegram send error for " ++ symbol
                                   ++ ": " ++ str_exn e));;
                  mret false);
      if sent : bool then
        now ← now_utc env;
        persist_alert symbol (isoformat env now)
      else mret tt
    else mret tt
  else mret tt.

(** One turn of the loop of [run_check]. *)
Definition check_symbol (env : Env) (cfg : Config) (symbol : string)
  (results : list (gmap string pyval)) : M (list (gmap string pyval)) :=
  fetched ← try_except
              (df ← fetch_candles env symbol; mret (inl df))
              (fun e => mret (inr e));
  match fetched with
  | inr e =>
      mret (results ++ [<["symbol" := PStr symbol]>
                        (<["error" := PStr (str_exn e)]> ∅)])
  | inl df =>
      sig ← detect_momentum_signal df;
      let sig := <["symbol" := PStr symbol]> sig in
      let results := results ++ [sig] in
      alert_if_fresh env cfg symbol sig;;
      mret results
  end.

Fixpoint run_loop (env : Env) (cfg : Config) (syms : list string)
  (results : list (gmap string pyval)) : M (list (gmap string pyval)) :=
  match syms with
  | [] => mret results
  | symbol :: rest =>
      results ← check_symbol env cfg symbol results;
      run_loop env cfg rest results
  end.

Definition run_check (env : Env) (cfg : Config)
  : M (list (gmap string pyval)) :=
  run_loop env cfg (symbols cfg) [].

(* ===================================================================== *)
(** ** Descriptions used in the statements *)
(* ===================================================================== *)

(** A candle frame: the columns the pipeline reads are numeric and as long
    as the index. *)
Definition numeric_column (df : DataFrame) (key : string) : bool :=
  match columns df !! key with
  | Some (Floats xs) => (length xs =? length (index df))%nat
  | _ => false
  end.

Definition candle_frame (df : DataFrame) : bool :=
  forallb (numeric_column df) ["high"; "low"; "close"; "volume"]%string.

Definition floats (df : DataFrame) (key : string) : list float :=
  match columns df !! key with
  | Some (Floats xs) => xs
  | _ => []
  end.

Definition with_col (key : string) (s : Series) (df : DataFrame)
  : DataFrame :=
  {| index := index df; columns := <[key := s]> (columns df) |}.

(** The Series [atr] returns on a frame. *)
Definition atr_series (df : DataFrame) (length : Z) : list float :=
  let high := floats df "high" in
  let low := floats df "low" in
  let close := floats df "close" in
  ewm_mean (1 / inject_Z length)
    (row_max3 (zip_with_f fsub high low)
       (series_abs (zip_with_f fsub high (shift close)))
       (series_abs (zip_with_f fsub low (shift close)))).

(** The frame [compute_all] leaves at its new reference (lemma
    [compute_all_frame]). *)
Definition indicator_frame (df : DataFrame) : DataFrame :=
  let close := floats df "close" in
  let atr14 := atr_series df 14 in
  let atr14_ma := rolling_mean 14 atr14 in
  with_col "vol_spike" (Bools (volume_spike (floats df "volume") 10 1.5))
    (with_col "atr_spike"
       (Bools (series_gt atr14 (scale (fl 1.2) atr14_ma)))
       (with_col "atr14_ma" (Floats atr14_ma)
          (with_col "atr14" (Floats atr14)
             (with_col "rsi5" (Floats (rsi close 5))
                (with_col "ema21" (Floats (ema close 21))
                   (with_col "ema9" (Floats (ema close 9)) df)))))).

(** The two smoothed averages inside [rsi]. *)
Definition rsi_ma_up (series : list float) (length : Z) : list float :=
  ewm_mean (1 / inject_Z length) (clip_lower (fl 0) (diff series)).

Definition rsi_ma_down (series : list float) (length : Z) : list float :=
  ewm_mean (1 / inject_Z length)
    (scale (fl (-1)) (clip_upper (fl 0) (diff series))).

(** A cell holds the number [v]. *)
Definition has_value (x : float) (v : Q) : Prop :=
  match x with
  | Fin _ q => q == v
  | _ => False
  end.

Definition within (lo hi : Q) (x : float) : Prop :=
  match x with
  | Fin _ q => lo <= q /\ q <= hi
  | _ => False
  end.

(** A cell above zero, plus infinity included. *)
Definition is_positive (x : float) : Prop :=
  match x with
  | NaN => False
  | Inf s => s = false
  | Fin _ q => 0 < q
  end.

Definition is_zero (x : float) : Prop :=
  match x with
  | Fin _ q => q == 0
  | _ => False
  end.

(** Closing prices that rise from every bar to the next. *)
Definition rising (qs : list Q) : Prop :=
  forall i a b, qs !! i = Some a -> qs !! S i = Some b -> a < b.

(** The store holds a mapping, or nothing that parses. *)
Definition store_mapping (f : option file) : gmap string json :=
  match f with
  | Some (Doc (JObj m)) => m
  | _ => ∅
  end.

Definition mapping_store (f : option file) : bool :=
  match f with
  | None | Some Unparsable | Some (Doc (JObj _)) => true
  | _ => false
  end.

(** What [detect_momentum_signal] reads on a row. *)
Record Readings := {
  r_ema9 : float;
  r_ema21 : float;
  r_rsi5 : float;
  r_close : float;
  r_vol_spike : bool;
  r_atr_spike : bool
}.

Definition reads (r : Row) (x : Readings) : Prop :=
  cells r !! "ema9" = Some (CFloat (r_ema9 x)) /\
  cells r !! "ema21" = Some (CFloat (r_ema21 x)) /\
  cells r !! "rsi5" = Some (CFloat (r_rsi5 x)) /\
  cells r !! "close" = Some (CFloat (r_close x)) /\
  cells r !! "vol_spike" = Some (CBool (r_vol_spike x)) /\
  cells r !! "atr_spike" = Some (CBool (r_atr_spike x)).

(** The row of a frame at position [k]. *)
Definition row_at (df : DataFrame) (k : nat) (label : string) : Row :=
  {| name := label; cells := omap (series_cell k) (columns df) |}.

(** The cells of a row of the indicator frame are the cells of the
    indicator Series at that position. *)
Definition readings_at (df : DataFrame) (k : nat) (x : Readings) : Prop :=
  ema (floats df "close") 9 !! k = Some (r_ema9 x) /\
  ema (floats df "close") 21 !! k = Some (r_ema21 x) /\
  rsi (floats df "close") 5 !! k = Some (r_rsi5 x) /\
  floats df "close" !! k = Some (r_close x) /\
  volume_spike (floats df "volume") 10 1.5 !! k = Some (r_vol_spike x) /\
  series_gt (atr_series df 14)
    (scale (fl 1.2) (rolling_mean 14 (atr_series df 14))) !! k
  = Some (r_atr_spike x).


(** The five conditions, from what is read on the last and on the previous
    row (lemma [conditions_of_reads]). *)
Definition conditions_from (x y : Readings) : Conditions :=
  {| c_ema_cross :=
       fgt (r_ema9 x) (r_ema21 x) && fle (r_ema9 y) (r_ema21 y);
     c_rsi_burst := fgt (r_rsi5 x) (fl 55);
     c_vol_spike := r_vol_spike x;
     c_atr_spike := r_atr_spike x;
     c_price_above_emas :=
       fgt (r_close x) (r_ema9 x) && fgt (r_close x) (r_ema21 x) |}.

(** A computation that leaves the objects at the references in [P] as they
    are. *)
Definition keeps (P : loc -> Prop) {A} (m : M A) : Prop :=
  forall w l, P l -> heap (snd (m w)) !! l = heap w !! l.

(** ** Frames and worlds to run the program on *)

Definition bars (n : nat) (flat final : Z) : Series :=
  Floats (map (fun z => fl (inject_Z z)) (repeat flat n ++ [final])).

Definition bar_labels (n : nat) : list string :=
  map (fun k => ("bar " ++ pretty k)%string) (seq 0 n).

(** 29 quiet bars and a last bar that breaks out on volume and range. *)
Definition breakout : DataFrame :=
  {| index := bar_labels 30;
     columns := <["open" := bars 29 100 100]>
               (<["high" := bars 29 101 112]>
               (<["low" := bars 29 99 100]>
               (<["close" := bars 29 100 110]>
               (<["volume" := bars 29 100 300]> ∅)))) |}.

(** The same bars, the last one as quiet as the others. *)
Definition quiet : DataFrame :=
  {| index := bar_labels 30;
     columns := <["open" := bars 29 100 100]>
               (<["high" := bars 29 101 101]>
               (<["low" := bars 29 99 99]>
               (<["close" := bars 29 100 100]>
               (<["volume" := bars 29 100 100]> ∅)))) |}.

Definition three_bars : DataFrame :=
  {| index := bar_labels 3;
     columns := <["open" := bars 2 100 100]>
               (<["high" := bars 2 101 112]>
               (<["low" := bars 2 99 100]>
               (<["close" := bars 2 100 110]>
               (<["volume" := bars 2 100 300]> ∅)))) |}.

Definition world_of (frames : list DataFrame) (store : option file) : World :=
  {| heap := list_to_map (zip (seq 0 (length frames)) frames);
     alerts_file := store; ticks := 0; trace := [] |}.

(** A computation that, when it returns, returns [a]. *)
Definition yields {A} (a : A) (m : M A) : Prop :=
  forall w, match fst (m w) with Ok x => x = a | Raise _ => True end.

(** Not a number, or not negative. *)
Definition nonneg_or_nan (x : float) : Prop :=
  match x with
  | NaN => True
  | Inf s => s = false
  | Fin _ q => 0 <= q
  end.

(** A finite cell above zero. *)
Definition pos_fin (x : float) : Prop :=
  match x with
  | Fin _ q => 0 < q
  | _ => False
  end.

(** The state of the weighted mean after a first cell that is not a
    number, and the down-move of a bar that did not fall: [-1 * 0]. *)
Definition ewm_unseeded : ewm_state :=
  {| weighted := NaN; old_wt := 1; nobs := 0 |}.

Definition no_down_move : float := fmul (fl (-1)) (fl 0).

(** The files written, in order, among the events of a trace. *)
Definition writes (tr : list event) : list file :=
  omap (fun ev => match ev with EvWrite f => Some f | _ => None end) tr.

(** The delivery attempts among the events of a trace. *)
Definition posts (tr : list event) : list (string * string * string) :=
  omap (fun ev => match ev with
                  | EvPost url chat text => Some (url, chat, text)
                  | _ => None
                  end) tr.

(** The URL [send_telegram_message] posts to. *)
Definition send_url (bot_token : option string) : string :=
  ("https://api.telegram.org/bot" ++ default ""%string bot_token
   ++ "/sendMessage")%string.

(** Delivery succeeded: a response with status 200. *)
Definition delivered (o : post_outcome) : bool :=
  match o with
  | Response status_code => (status_code =? 200)%Z
  | PostRaises _ => false
  end.


(** ** An environment to run the program in *)

Definition iso_table : list (Z * string) :=
  [ (1700000000000000, "2023-11-14T22:13:20+00:00");
    (1700001800000000, "2023-11-14T22:43:20+00:00");
    (1700001800000001, "2023-11-14T22:43:20.000001+00:00") ]%Z%string.

(** The provider hands out [frame] for every symbol, the endpoint answers
    with [status], and the clock stands at [now]. *)
Definition demo_env (frame : DataFrame) (status : Z) (now : Z) : Env :=
  {| provider := fun _ _ => Ok (Some frame);
     http_post := fun _ _ _ _ => Response status;
     utcnow := fun _ => now;
     isoformat := fun d =>
       match find (fun p => (fst p =? wall d)%Z) iso_table with
       | Some p => snd p
       | None => ""%string
       end;
     fromisoformat := fun s =>
       (fun p => {| wall := fst p; tzinfo := Some 0%Z |})
         <$> find (fun p => bool_decide (snd p = s)) iso_table;
     alert_text := fun symbol _ => symbol |}.

(** [env] with another provider. *)
Definition with_provider (p : nat -> string -> result (option DataFrame))
  (env : Env) : Env :=
  {| provider := p; http_post := http_post env; utcnow := utcnow env;
     isoformat := isoformat env; fromisoformat := fromisoformat env;
     alert_text := alert_text env |}.

Definition demo_cfg (syms : list string) : Config :=
  {| telegram_bot_token := Some "123456:token"%string;
     telegram_chat_id := Some "42"%string;
     symbols := syms;
     alert_minutes_lockout := 30 |}.

(** A computation that leaves the component [f] of the world as it is. *)
Definition preserves {X A} (f : World -> X) (m : M A) : Prop :=
  forall w, f (snd (m w)) = f w.

(** The entry [run_check] appends for the frame [breakout] under the
    symbol NIFTY. *)
Definition breakout_report : gmap string pyval :=
  <["symbol" := PStr "NIFTY"]>
  (<["signal" := PBool true]>
  (<["ema_cross" := PBool true]>
  (<["rsi5" := PFloat (fl 100)]>
  (<["vol_spike" := PBool true]>
  (<["atr_spike" := PBool true]>
  (<["close" := PFloat (fl 110)]>
  (<["time" := PStr "bar 29"]> ∅))))))).

(** A store whose record for NIFTY is a number, not an ISO string. *)
Definition epoch_store : option file :=
  Some (Doc (JObj {[ "NIFTY"%string := JNum 1700000000 ]})).

(** A store every record of which [datetime.fromisoformat] reads. *)
Definition clean_store (env : Env) (f : option file) : Prop :=
  match f with
  | None | Some Unparsable => True
  | Some (Doc (JObj m)) =>
      forall k v, m !! k = Some v ->
                  exists s ts, v = JStr s /\ fromisoformat env s = Some ts
  | Some (Doc _) => False
  end.

(** The entry of a symbol whose candles could not be fetched. *)
Definition error_entry (symbol : string) (e : exn) : gmap string pyval :=
  <["symbol" := PStr symbol]> (<["error" := PStr (str_exn e)]> ∅).

(** [sent] is [True]: the call returned, and returned [True]. *)
Definition returned_true (r : result bool) : bool :=
  match r with
  | Ok true => true
  | _ => false
  end.

(* ===================================================================== *)
(** ** Further descriptions: indicators *)
(* ===================================================================== *)

(** An indicator without look-ahead: on the first [k] cells of a series
    it gives its first [k] cells on the whole series. *)
Definition causal {B} (f : list float -> list B) : Prop :=
  forall k xs, f (take k xs) = take k (f xs).

(** The first [k] rows of a frame. *)
Definition head_series (k : nat) (s : Series) : Series :=
  match s with
  | Floats xs => Floats (take k xs)
  | Bools bs => Bools (take k bs)
  end.

Definition head_rows (k : nat) (df : DataFrame) : DataFrame :=
  {| index := take k (index df);
     columns := head_series k <$> columns df |}.

(** Closing prices that fall from every bar to the next. *)
Definition falling (qs : list Q) : Prop :=
  forall i a b, qs !! i = Some a -> qs !! S i = Some b -> b < a.

(** The number of cells of a column. *)
Definition column_length (s : Series) : nat :=
  match s with
  | Floats xs => length xs
  | Bools bs => length bs
  end.

(** The columns [compute_all] writes. *)
Definition indicator_columns : list string :=
  ["ema9"; "ema21"; "rsi5"; "atr14"; "atr14_ma"; "atr_spike"; "vol_spike"]%string.

(** A finite cell below zero. *)
Definition neg_fin (x : float) : Prop :=
  match x with
  | Fin _ q => q < 0
  | _ => False
  end.

(** No bar's high is below its low. *)
Definition ordered_bars (df : DataFrame) : bool :=
  forallb (fun p => negb (flt (fst p) (snd p)))
    (combine (floats df "high") (floats df "low")).

(** The symbols fetched, in order, among the events of a trace. *)
Definition fetched (tr : list event) : list string :=
  omap (fun ev => match ev with EvFetch s => Some s | _ => None end) tr.

(** What the part of a turn after the report adds to the trace, for the
    report [sig]: nothing that posts or writes; or, first, the delivery
    attempt of the message composed from [sig], and after it no other
    attempt and at most one write of the store. *)
Definition alert_events (env : Env) (cfg : Config) (symbol : string)
  (sig : gmap string pyval) (extra : list event) : Prop :=
  fetched extra = [] /\
  ((posts extra = [] /\ writes extra = []) \/
   exists msg tail,
     compose_message env symbol sig = Ok msg /\
     extra = EvPost (send_url (telegram_bot_token cfg))
               (default ""%string (telegram_chat_id cfg)) msg :: tail /\
     posts tail = [] /\ (length (writes tail) <= 1)%nat).

(** One turn of the loop: the fetch of the symbol, then the alert part
    for some report. *)
Definition turn_events (env : Env) (cfg : Config) (symbol : string)
  (extra : list event) : Prop :=
  exists sig rest,
    extra = EvFetch symbol :: rest /\ alert_events env cfg symbol sig rest.

(** One cycle over the symbols [syms]: the turns of the symbols, one
    after the other in list order, up to where the cycle stopped. *)
Definition cycle_events (env : Env) (cfg : Config) (syms : list string)
  (extra : list event) : Prop :=
  exists turns,
    extra = concat turns /\
    (length turns <= length syms)%nat /\
    Forall2 (turn_events env cfg) (take (length turns) syms) turns.

(* ===================================================================== *)
(** ** app.py: the synthetic candles of demo mode *)
(* ===================================================================== *)

(** What one call of [fetch_candles] in demo mode takes from outside:
    what [pd.date_range(end=pd.Timestamp.now(), periods=limit,
    freq="5T")] does, which is the labels of the rows, or the
    [ValueError] of a pandas that no longer reads the alias ["5T"]; and
    the random draws, cell by cell: [np.random.randn(limit)] and the
    four [np.random.rand(limit)] in the order the frame's columns are
    built. *)
Record Draws := {
  date_range : result (nat -> string);
  randn : nat -> Q;
  rand_high : nat -> Q;
  rand_low : nat -> Q;
  rand_close : nat -> Q;
  rand_volume : nat -> Q
}.

Definition draw (f : nat -> Q) (limit : nat) : list Q :=
  map f (seq 0 limit).

(** [a.cumsum()] *)
Fixpoint cumsum_from (acc : Q) (xs : list Q) : list Q :=
  match xs with
  | [] => []
  | x :: xs' => (acc + x) :: cumsum_from (acc + x) xs'
  end.

Definition cumsum (xs : list Q) : list Q := cumsum_from 0 xs.

(** [a.astype(int)]: truncation toward zero. *)
Definition astype_int (q : Q) : Z := Z.quot (Qnum q) (Zpos (Qden q)).

(** [price = 100 + np.cumsum(np.random.randn(limit).cumsum() * 0.1)] *)
Definition demo_price (d : Draws) (limit : nat) : list Q :=
  map (fun s => 100 + s)
    (cumsum (map (fun s => s * 0.1) (cumsum (draw (randn d) limit)))).

(** The frame [fetch_candles] builds in demo mode over the labels
    [stamp]; prices are the exact sums, as everywhere. *)
Definition demo_candles (d : Draws) (stamp : nat -> string) (limit : nat)
  : DataFrame :=
  let price := demo_price d limit in
  let col (qs : list Q) := Floats (map fl qs) in
  {| index := map stamp (seq 0 limit);
     columns :=
       <["open" := col price]>
       (<["high" := col (zip_with Qplus price
                           (map (fun u => u * 1.5)
                              (draw (rand_high d) limit)))]>
       (<["low" := col (zip_with Qminus price
                          (map (fun u => u * 1.5)
                             (draw (rand_low d) limit)))]>
       (<["close" := col (zip_with Qplus price
                            (map (fun u => u - 0.5)
                               (draw (rand_close d) limit)))]>
       (<["volume" := col (map (fun u => inject_Z (astype_int (u * 50 + 10)))
                             (draw (rand_volume d) limit))]> ∅)))) |}.

(** The demo branch of [fetch_candles]: the index first, then the
    frame. *)
Definition demo_fetch (d : Draws) (limit : nat) : result DataFrame :=
  stamp ← date_range d;
  Ok (demo_candles d stamp limit).

(** Every [np.random.rand] draw is in the half-open unit interval. *)
Definition unit_draws (d : Draws) : Prop :=
  forall i, (0 <= rand_high d i /\ rand_high d i < 1) /\
            (0 <= rand_low d i /\ rand_low d i < 1) /\
            (0 <= rand_close d i /\ rand_close d i < 1) /\
            (0 <= rand_volume d i /\ rand_volume d i < 1).

(** Draws to run the demo on. *)
Definition half_draws : Draws :=
  {| date_range := Ok (fun i => pretty i);
     randn := fun i => if Nat.even i then 1 else -1;
     rand_high := fun _ => 1 # 2;
     rand_low := fun _ => 1 # 4;
     rand_close := fun _ => 3 # 4;
     rand_volume := fun i => if Nat.even i then 1 # 2 else 9 # 10 |}.

(** The same draws under a pandas that rejects the frequency alias. *)
Definition invalid_frequency : exn :=
  Exn ValueError "Invalid frequency: 5T".

Definition rejected_draws : Draws :=
  {| date_range := Raise invalid_frequency;
     randn := randn half_draws;
     rand_high := rand_high half_draws;
     rand_low := rand_low half_draws;
     rand_close := rand_close half_draws;
     rand_volume := rand_volume half_draws |}.
(* ===================================================================== *)
(** * Properties *)
(* ===================================================================== *)

(** ** The monad *)

Lemma bind_ok {A B} (m : M A) (f : A -> M B) w a w' :
  m w = (Ok a, w') -> (m ≫= f) w = f a w'.
Proof. intros H. unfold mbind, M_bind. by rewrite H. Qed.

Lemma bind_raise {A B} (m : M A) (f : A -> M B) w e w' :
  m w = (Raise e, w') -> (m ≫= f) w = (Raise e, w').
Proof. intros H. unfold mbind, M_bind. by rewrite H. Qed.

Lemma set_heap_heap h w : heap (set_heap h w) = h.
Proof. reflexivity. Qed.

Lemma set_heap_twice h h' w : set_heap h' (set_heap h w) = set_heap h' w.
Proof. reflexivity. Qed.

Lemma deref_ok l df w : heap w !! l = Some df -> deref l w = (Ok df, w).
Proof. intros H. unfold deref. by rewrite H. Qed.

Lemma getcol_ok l key df xs w :
  heap w !! l = Some df ->
  columns df !! key = Some (Floats xs) ->
  getcol l key w = (Ok xs, w).
Proof.
  intros Hl Hc. unfold getcol.
  rewrite (bind_ok _ _ _ _ _ (deref_ok _ _ _ Hl)). by rewrite Hc.
Qed.

Lemma setcol_ok l key s df w :
  heap w !! l = Some df ->
  setcol l key s w = (Ok tt, set_heap (<[l := with_col key s df]> (heap w)) w).
Proof.
  intros Hl. unfold setcol.
  by rewrite (bind_ok _ _ _ _ _ (deref_ok _ _ _ Hl)).
Qed.

Lemma candle_column df key :
  candle_frame df = true ->
  key ∈ ["high"; "low"; "close"; "volume"]%string ->
  columns df !! key = Some (Floats (floats df key)) /\
  length (floats df key) = length (index df).
Proof.
  unfold candle_frame. rewrite forallb_forall. intros H Hk.
  apply list_elem_of_In in Hk. specialize (H _ Hk).
  unfold numeric_column, floats in *.
  destruct (columns df !! key) as [[xs|bs]|]; try discriminate.
  split; [done|]. by apply Nat.eqb_eq.
Qed.

(** ** [compute_all] *)

Ltac in_list := apply list_elem_of_In; simpl; tauto.
Ltac not_in_list :=
  let H := fresh in
  intros H%list_elem_of_In; simpl in H; intuition discriminate.

Lemma alloc_fresh w :
  heap w !! fresh (dom (heap w)) = None.
Proof. apply not_elem_of_dom, is_fresh. Qed.

Lemma atr_ok l df w :
  heap w !! l = Some df ->
  candle_frame df = true ->
  atr l 14 w = (Ok (atr_series df 14), w).
Proof.
  intros Hl Hc. unfold atr.
  destruct (candle_column df "high" Hc ltac:(in_list)) as [Hh _].
  destruct (candle_column df "low" Hc ltac:(in_list)) as [Hlo _].
  destruct (candle_column df "close" Hc ltac:(in_list)) as [Hcl _].
  repeat first
    [ rewrite (bind_ok _ _ _ _ _ (getcol_ok _ _ _ _ _ Hl Hh))
    | rewrite (bind_ok _ _ _ _ _ (getcol_ok _ _ _ _ _ Hl Hlo))
    | rewrite (bind_ok _ _ _ _ _ (getcol_ok _ _ _ _ _ Hl Hcl)) ].
  reflexivity.
Qed.

Lemma candle_with_col key s df :
  key ∉ ["high"; "low"; "close"; "volume"]%string ->
  candle_frame df = true -> candle_frame (with_col key s df) = true.
Proof.
  intros Hk. unfold candle_frame. rewrite !forallb_forall.
  intros H k Hin. specialize (H k Hin). unfold numeric_column in *. simpl.
  rewrite lookup_insert_ne; [done|].
  intros ->. apply Hk. by apply list_elem_of_In.
Qed.

Lemma floats_with_col key key' s df :
  key ≠ key' -> floats (with_col key s df) key' = floats df key'.
Proof. intros H. unfold floats. simpl. by rewrite lookup_insert_ne. Qed.

Lemma df_copy_ok l df w :
  heap w !! l = Some df ->
  df_copy l w
  = (Ok (fresh (dom (heap w))),
     set_heap (<[fresh (dom (heap w)) := df]> (heap w)) w).
Proof.
  intros Hl. unfold df_copy.
  by rewrite (bind_ok _ _ _ _ _ (deref_ok _ _ _ Hl)).
Qed.

Lemma columns_with_col key s df :
  columns (with_col key s df) = <[key := s]> (columns df).
Proof. reflexivity. Qed.

(** One [df[key]] read, one [df[key] = s] write, on the frame at the top of
    the heap. *)
Ltac read_column Hc :=
  erewrite bind_ok;
  [| eapply getcol_ok;
     [ rewrite set_heap_heap; apply lookup_insert_eq
     | rewrite ?columns_with_col;
       first [ apply lookup_insert_eq
             | rewrite ?lookup_insert_ne by done;
               first [ apply lookup_insert_eq
                     | apply (candle_column _ _ Hc); in_list ] ] ] ].

Ltac write_column :=
  erewrite bind_ok;
  [| eapply setcol_ok; rewrite set_heap_heap; apply lookup_insert_eq ];
  rewrite set_heap_heap, set_heap_twice, insert_insert_eq.

Lemma compute_all_frame l df w :
  heap w !! l = Some df ->
  candle_frame df = true ->
  compute_all l w
  = (Ok (fresh (dom (heap w))),
     set_heap (<[fresh (dom (heap w)) := indicator_frame df]> (heap w)) w).
Proof.
  intros Hl Hc. unfold compute_all.
  rewrite (bind_ok _ _ _ _ _ (df_copy_ok _ _ _ Hl)).
  set (l' := fresh (dom (heap w))).
  read_column Hc. write_column.
  read_column Hc. write_column.
  read_column Hc. write_column.
  erewrite bind_ok;
    [| eapply atr_ok;
       [ rewrite set_heap_heap; apply lookup_insert_eq
       | repeat (apply candle_with_col; [not_in_list|]); exact Hc ] ].
  write_column.
  read_column Hc. write_column.
  read_column Hc. read_column Hc. write_column.
  read_column Hc. write_column.
  unfold indicator_frame, atr_series.
  rewrite !floats_with_col by done. reflexivity.
Qed.

(** ** Lengths: every indicator has one cell per row *)

Lemma length_zip_with_f f xs ys :
  length (zip_with_f f xs ys) = Nat.min (length xs) (length ys).
Proof. unfold zip_with_f. by rewrite length_map, length_combine. Qed.

Lemma length_shift xs : length (shift xs) = length xs.
Proof.
  destruct xs as [|x xs]; [done|]. unfold shift.
  change (length (NaN :: removelast (x :: xs))) with
    (S (length (removelast (x :: xs)))).
  rewrite removelast_firstn_len, length_firstn. simpl. lia.
Qed.

Lemma length_diff xs : length (diff xs) = length xs.
Proof. unfold diff. rewrite length_zip_with_f, length_shift. lia. Qed.

Lemma length_ewm_loop alpha minp st xs :
  length (ewm_loop alpha minp st xs) = length xs.
Proof. revert st. induction xs as [|x xs IH]; intros st; simpl; [done|]. by rewrite IH. Qed.

Lemma length_ewm_mean alpha xs : length (ewm_mean alpha xs) = length xs.
Proof. destruct xs; simpl; [done|]. by rewrite length_ewm_loop. Qed.

Lemma length_ema xs n : length (ema xs n) = length xs.
Proof. apply length_ewm_mean. Qed.

Lemma length_rsi xs n : length (rsi xs n) = length xs.
Proof.
  unfold rsi, clip_lower, clip_upper, scale.
  rewrite length_map, length_zip_with_f, !length_ewm_mean, !length_map,
    length_diff. lia.
Qed.

Lemma length_rolling_loop n seen xs :
  length (rolling_loop n seen xs) = length xs.
Proof. revert seen. induction xs as [|x xs IH]; intros seen; simpl; [done|]. by rewrite IH. Qed.

Lemma length_rolling_mean n xs : length (rolling_mean n xs) = length xs.
Proof. apply length_rolling_loop. Qed.

Lemma length_row_max3 a b c :
  length (row_max3 a b c)
  = Nat.min (length a) (Nat.min (length b) (length c)).
Proof.
  revert b c. induction a as [|x a IH]; intros [|y b] [|z c]; simpl; try done.
  by rewrite IH.
Qed.

Lemma length_series_gt xs ys :
  length (series_gt xs ys) = Nat.min (length xs) (length ys).
Proof. unfold series_gt. by rewrite length_map, length_combine. Qed.

Lemma length_volume_spike xs n m : length (volume_spike xs n m) = length xs.
Proof.
  unfold volume_spike, scale.
  rewrite length_series_gt, length_map, length_rolling_mean. lia.
Qed.

Lemma length_atr_series df n :
  candle_frame df = true ->
  length (atr_series df n) = length (index df).
Proof.
  intros Hc.
  destruct (candle_column df "high" Hc ltac:(in_list)) as [_ Hh].
  destruct (candle_column df "low" Hc ltac:(in_list)) as [_ Hl].
  destruct (candle_column df "close" Hc ltac:(in_list)) as [_ Hcl].
  unfold atr_series, series_abs.
  rewrite length_ewm_mean, length_row_max3, !length_map, !length_zip_with_f,
    length_shift. lia.
Qed.

(** ** Rows of the indicator frame *)

Lemma iloc_from_end df (j : nat) label :
  (0 < j)%nat -> (j <= length (index df))%nat ->
  index df !! (length (index df) - j)%nat = Some label ->
  iloc df (- Z.of_nat j) = Ok (row_at df (length (index df) - j) label).
Proof.
  intros Hj Hn Hlab. unfold iloc.
  destruct (Z.ltb_spec (- Z.of_nat j) 0) as [_|]; [|lia].
  destruct (Z.ltb_spec (Z.of_nat (length (index df)) + - Z.of_nat j) 0);
    [lia|].
  destruct (Z.leb_spec (Z.of_nat (length (index df)))
              (Z.of_nat (length (index df)) + - Z.of_nat j)); [lia|].
  simpl.
  replace (Z.to_nat (Z.of_nat (length (index df)) + - Z.of_nat j))
    with (length (index df) - j)%nat by lia.
  by rewrite Hlab.
Qed.

Lemma row_float df k label key xs :
  columns df !! key = Some (Floats xs) ->
  (k < length xs)%nat ->
  exists x, xs !! k = Some x /\
            cells (row_at df k label) !! key = Some (CFloat x).
Proof.
  intros Hc Hk. destruct (lookup_lt_is_Some_2 xs k Hk) as [x Hx].
  exists x. split; [done|]. simpl. rewrite lookup_omap, Hc. simpl.
  by rewrite Hx.
Qed.

Lemma row_bool df k label key bs :
  columns df !! key = Some (Bools bs) ->
  (k < length bs)%nat ->
  exists b, bs !! k = Some b /\
            cells (row_at df k label) !! key = Some (CBool b).
Proof.
  intros Hc Hk. destruct (lookup_lt_is_Some_2 bs k Hk) as [b Hb].
  exists b. split; [done|]. simpl. rewrite lookup_omap, Hc. simpl.
  by rewrite Hb.
Qed.

Lemma indicator_row df k label :
  candle_frame df = true ->
  (k < length (index df))%nat ->
  exists x, readings_at df k x /\
            reads (row_at (indicator_frame df) k label) x.
Proof.
  intros Hc Hk.
  destruct (candle_column df "close" Hc ltac:(in_list)) as [Hcl Hlc].
  destruct (candle_column df "volume" Hc ltac:(in_list)) as [_ Hlv].
  pose proof (length_atr_series df 14 Hc) as Hla.
  destruct (row_float (indicator_frame df) k label "ema9"
              (ema (floats df "close") 9)) as (e9 & He9 & Re9).
  { unfold indicator_frame. rewrite !columns_with_col.
    rewrite !lookup_insert_ne by done. apply lookup_insert_eq. }
  { rewrite length_ema. lia. }
  destruct (row_float (indicator_frame df) k label "ema21"
              (ema (floats df "close") 21)) as (e21 & He21 & Re21).
  { unfold indicator_frame. rewrite !columns_with_col.
    rewrite !lookup_insert_ne by done. apply lookup_insert_eq. }
  { rewrite length_ema. lia. }
  destruct (row_float (indicator_frame df) k label "rsi5"
              (rsi (floats df "close") 5)) as (r5 & Hr5 & Rr5).
  { unfold indicator_frame. rewrite !columns_with_col.
    rewrite !lookup_insert_ne by done. apply lookup_insert_eq. }
  { rewrite length_rsi. lia. }
  destruct (row_float (indicator_frame df) k label "close"
              (floats df "close")) as (c & Hcv & Rc).
  { unfold indicator_frame. rewrite !columns_with_col.
    rewrite !lookup_insert_ne by done. exact Hcl. }
  { lia. }
  destruct (row_bool (indicator_frame df) k label "vol_spike"
              (volume_spike (floats df "volume") 10 1.5))
    as (vs & Hvs & Rvs).
  { unfold indicator_frame. rewrite !columns_with_col.
    apply lookup_insert_eq. }
  { rewrite length_volume_spike. lia. }
  destruct (row_bool (indicator_frame df) k label "atr_spike"
              (series_gt (atr_series df 14)
                 (scale (fl 1.2) (rolling_mean 14 (atr_series df 14)))))
    as (sp & Hsp & Rsp).
  { unfold indicator_frame. rewrite !columns_with_col.
    rewrite !lookup_insert_ne by done. apply lookup_insert_eq. }
  { unfold scale.
    rewrite length_series_gt, length_map, length_rolling_mean. lia. }
  exists {| r_ema9 := e9; r_ema21 := e21; r_rsi5 := r5; r_close := c;
            r_vol_spike := vs; r_atr_spike := sp |}.
  split; repeat split; assumption.
Qed.

(** ** [detect_momentum_signal] on a candle frame *)

Lemma row_get_ok r key c : cells r !! key = Some c -> row_get r key = Ok c.
Proof. intros H. unfold row_get. by rewrite H. Qed.

Lemma cell_eq_true b : cell_eq (CBool b) (CBool true) = b.
Proof. by destruct b. Qed.

Lemma conditions_of_reads last prev x y :
  reads last x -> reads prev y ->
  conditions last prev = Ok (conditions_from x y).
Proof.
  intros (L1 & L2 & L3 & L4 & L5 & L6) (P1 & P2 & _).
  unfold conditions, conditions_from.
  rewrite (row_get_ok _ _ _ L1), (row_get_ok _ _ _ L2),
    (row_get_ok _ _ _ L3), (row_get_ok _ _ _ L4), (row_get_ok _ _ _ L5),
    (row_get_ok _ _ _ L6), (row_get_ok _ _ _ P1), (row_get_ok _ _ _ P2).
  unfold mbind, mret, result_bind, result_ret, cell_gt, cell_le. simpl.
  rewrite !cell_eq_true.
  destruct (fgt (r_ema9 x) (r_ema21 x)), (fgt (r_close x) (r_ema9 x));
    reflexivity.
Qed.

Lemma report_ok c last x :
  reads last x ->
  report c last
  = Ok (<["signal" := PBool (signal_of c)]>
       (<["ema_cross" := PBool (c_ema_cross c)]>
       (<["rsi5" := PFloat (r_rsi5 x)]>
       (<["vol_spike" := PBool (c_vol_spike c)]>
       (<["atr_spike" := PBool (c_atr_spike c)]>
       (<["close" := PFloat (r_close x)]>
       (<["time" := PStr (name last)]> ∅))))))).
Proof.
  intros (_ & _ & L3 & L4 & _). unfold report.
  by rewrite (row_get_ok _ _ _ L3), (row_get_ok _ _ _ L4).
Qed.

Lemma df_len_ok l df w :
  heap w !! l = Some df -> df_len l w = (Ok (length (index df)), w).
Proof.
  intros Hl. unfold df_len.
  by rewrite (bind_ok _ _ _ _ _ (deref_ok _ _ _ Hl)).
Qed.

Lemma df_iloc_ok l df i r w :
  heap w !! l = Some df -> iloc df i = Ok r -> df_iloc l i w = (Ok r, w).
Proof.
  intros Hl Hi. unfold df_iloc.
  rewrite (bind_ok _ _ _ _ _ (deref_ok _ _ _ Hl)). unfold lift.
  by rewrite Hi.
Qed.

(** The whole run on a candle frame of 30 rows or more. *)
Lemma detect_run w l df :
  heap w !! l = Some df ->
  candle_frame df = true ->
  (30 <= length (index df))%nat ->
  let n := length (index df) in
  let l' := fresh (dom (heap w)) in
  let frame := indicator_frame df in
  let w' := set_heap (<[l' := frame]> (heap w)) w in
  exists tl tp x y,
    index df !! (n - 1)%nat = Some tl /\
    index df !! (n - 2)%nat = Some tp /\
    readings_at df (n - 1) x /\ readings_at df (n - 2) y /\
    reads (row_at frame (n - 1) tl) x /\
    reads (row_at frame (n - 2) tp) y /\
    compute_all l w = (Ok l', w') /\
    iloc frame (-1) = Ok (row_at frame (n - 1) tl) /\
    iloc frame (-2) = Ok (row_at frame (n - 2) tp) /\
    detect_momentum_signal (Some l) w
    = (Ok (<["signal" := PBool (signal_of (conditions_from x y))]>
          (<["ema_cross" := PBool (c_ema_cross (conditions_from x y))]>
          (<["rsi5" := PFloat (r_rsi5 x)]>
          (<["vol_spike" := PBool (r_vol_spike x)]>
          (<["atr_spike" := PBool (r_atr_spike x)]>
          (<["close" := PFloat (r_close x)]>
          (<["time" := PStr tl]> ∅))))))), w').
Proof.
  intros Hl Hc Hn n l' frame w'.
  destruct (lookup_lt_is_Some_2 (index df) (n - 1)) as [tl Htl];
    [subst n; lia|].
  destruct (lookup_lt_is_Some_2 (index df) (n - 2)) as [tp Htp];
    [subst n; lia|].
  destruct (indicator_row df (n - 1) tl Hc) as (x & Hx & Rx);
    [subst n; lia|].
  destruct (indicator_row df (n - 2) tp Hc) as (y & Hy & Ry);
    [subst n; lia|].
  assert (I1 : iloc frame (-1) = Ok (row_at frame (n - 1) tl)).
  { apply (iloc_from_end frame 1 tl); simpl; [lia | lia | exact Htl]. }
  assert (I2 : iloc frame (-2) = Ok (row_at frame (n - 2) tp)).
  { apply (iloc_from_end frame 2 tp); simpl; [lia | lia | exact Htp]. }
  exists tl, tp, x, y. repeat (split; [assumption|]).
  split; [by apply compute_all_frame|]. split; [done|]. split; [done|].
  unfold detect_momentum_signal.
  rewrite (bind_ok _ _ _ _ _ (df_len_ok _ _ _ Hl)).
  destruct (Nat.ltb_spec (length (index df)) 30) as [|_]; [lia|].
  rewrite (bind_ok _ _ _ _ _ (compute_all_frame _ _ _ Hl Hc)).
  fold l' frame w'.
  assert (Hw' : heap w' !! l' = Some frame) by apply lookup_insert_eq.
  rewrite (bind_ok _ _ _ _ _ (df_iloc_ok _ _ _ _ _ Hw' I1)).
  rewrite (bind_ok _ _ _ _ _ (df_iloc_ok _ _ _ _ _ Hw' I2)).
  subst frame.
  unfold lift at 1. unfold mbind at 1, M_bind.
  rewrite (conditions_of_reads _ _ _ _ Rx Ry).
  unfold lift. by rewrite (report_ok _ _ _ Rx).
Qed.

(** ** Frame: what a computation writes *)

Lemma keeps_ret P {A} (a : A) : keeps P (mret a : M A).
Proof. by intros w l _. Qed.

Lemma keeps_raise P {A} e : keeps P (raise e : M A).
Proof. by intros w l _. Qed.

Lemma keeps_lift P {A} (r : result A) : keeps P (lift r).
Proof. by intros w l _. Qed.

Lemma keeps_bind P {A B} (m : M A) (f : A -> M B) :
  keeps P m -> (forall a, keeps P (f a)) -> keeps P (m ≫= f).
Proof.
  intros Hm Hf w l Hl. unfold mbind, M_bind.
  specialize (Hm w l Hl). destruct (m w) as [[a|e] w1]; simpl in *; [|done].
  by rewrite (Hf a w1 l Hl).
Qed.

Lemma keeps_deref P l : keeps P (deref l).
Proof. intros w l0 _. unfold deref. by destruct (heap w !! l). Qed.

Lemma keeps_getcol P l key : keeps P (getcol l key).
Proof.
  apply keeps_bind; [apply keeps_deref|]. intros df.
  destruct (columns df !! key); [apply keeps_lift | apply keeps_raise].
Qed.

Lemma keeps_setcol (P : loc -> Prop) l key s :
  (forall l0, P l0 -> l0 <> l) -> keeps P (setcol l key s).
Proof.
  intros Hne. apply keeps_bind; [apply keeps_deref|]. intros df w l0 Hl0.
  simpl. apply lookup_insert_ne. intros ->. by eapply Hne.
Qed.

Lemma keeps_df_len P l : keeps P (df_len l).
Proof.
  apply keeps_bind; [apply keeps_deref|]. intros df. apply keeps_ret.
Qed.

Lemma keeps_df_iloc P l i : keeps P (df_iloc l i).
Proof.
  apply keeps_bind; [apply keeps_deref|]. intros df. apply keeps_lift.
Qed.

Lemma keeps_atr P l n : keeps P (atr l n).
Proof.
  unfold atr.
  repeat (apply keeps_bind; [apply keeps_getcol|]; intros ?).
  apply keeps_ret.
Qed.

(** [compute_all] writes to its copy only: every object that was there
    before the call is as it was. *)
Lemma compute_all_keeps l0 w l :
  l ∈ dom (heap w) -> heap (snd (compute_all l0 w)) !! l = heap w !! l.
Proof.
  intros Hdom. unfold compute_all, df_copy.
  unfold mbind at 1, M_bind at 1. unfold mbind at 1, M_bind at 1.
  unfold deref at 1. destruct (heap w !! l0) as [df|]; [|done].
  unfold alloc. set (l' := fresh (dom (heap w))).
  assert (Hne : l <> l').
  { intros ->. by apply (is_fresh (dom (heap w))). }
  match goal with
  | |- heap (snd (?k ?w1)) !! _ = _ =>
      assert (K : keeps (fun x => x <> l') k)
  end.
  { repeat first
      [ apply keeps_ret
      | apply keeps_bind;
        [ first [ apply keeps_getcol | apply keeps_atr
                | by apply keeps_setcol ] | intros ? ] ]. }
  rewrite (K _ l Hne). simpl. by apply lookup_insert_ne.
Qed.

Lemma detect_keeps df_ref w l :
  l ∈ dom (heap w) ->
  heap (snd (detect_momentum_signal df_ref w)) !! l = heap w !! l.
Proof.
  intros Hdom. destruct df_ref as [l0|]; [|done].
  unfold detect_momentum_signal.
  unfold mbind at 1, M_bind at 1.
  pose proof (keeps_df_len (fun _ => True) l0 w l I) as Hlen.
  destruct (df_len l0 w) as [[n|e] w1] eqn:E; simpl in Hlen; [|done].
  assert (w1 = w) as ->.
  { unfold df_len, mbind, M_bind, deref in E.
    destruct (heap w !! l0); by inversion E. }
  destruct (n <? 30)%nat; [done|].
  unfold mbind at 1, M_bind at 1.
  pose proof (compute_all_keeps l0 w l Hdom) as Hca.
  destruct (compute_all l0 w) as [[l'|e] w2]; simpl in Hca; [|done].
  rewrite <- Hca.
  match goal with
  | |- heap (snd (?k ?w2)) !! _ = _ =>
      assert (K : keeps (fun _ => True) k)
  end.
  { apply keeps_bind; [apply keeps_df_iloc|]. intros last.
    apply keeps_bind; [apply keeps_df_iloc|]. intros prev.
    apply keeps_bind; [apply keeps_lift|]. intros c. apply keeps_lift. }
  by apply K.
Qed.

(** ** The signal: claims C1, C2, C3 and C10 *)

(** C1.  On a candle frame of 30 rows or more, the report's [signal] is
    true exactly when, on the last row of the frame [compute_all] built,
    ([ema9 > ema21] and, on the row before, [ema9 <= ema21]) or ([close >
    ema9] and [close > ema21]), and [rsi5 > 55], and [vol_spike], and
    [atr_spike]. *)
Theorem detect_signal_iff (w : World) (l : loc) (df : DataFrame) :
  heap w !! l = Some df ->
  candle_frame df = true ->
  (30 <= length (index df))%nat ->
  exists l' w' frame last prev x y rep b,
    compute_all l w = (Ok l', w') /\
    heap w' !! l' = Some frame /\
    iloc frame (-1) = Ok last /\ iloc frame (-2) = Ok prev /\
    reads last x /\ reads prev y /\
    detect_momentum_signal (Some l) w = (Ok rep, w') /\
    rep !! "signal" = Some (PBool b) /\
    (b = true <->
     ((fgt (r_ema9 x) (r_ema21 x) = true /\
       fle (r_ema9 y) (r_ema21 y) = true) \/
      (fgt (r_close x) (r_ema9 x) = true /\
       fgt (r_close x) (r_ema21 x) = true)) /\
     fgt (r_rsi5 x) (fl 55) = true /\
     r_vol_spike x = true /\
     r_atr_spike x = true).
Proof.
  intros Hl Hc Hn.
  destruct (detect_run w l df Hl Hc Hn)
    as (tl & tp & x & y & _ & _ & _ & _ & Rx & Ry & Hca & I1 & I2 & Hd).
  eexists _, _, _, _, _, x, y, _, (signal_of (conditions_from x y)).
  split; [exact Hca|]. split; [apply lookup_insert_eq|].
  split; [exact I1|]. split; [exact I2|].
  split; [exact Rx|]. split; [exact Ry|]. split; [exact Hd|].
  split; [apply lookup_insert_eq|].
  unfold signal_of, conditions_from. simpl.
  rewrite !andb_true_iff, orb_true_iff, !andb_true_iff. tauto.
Qed.

Lemma detect_signal_iff_witness :
  exists l' w' frame last prev x y rep b,
    compute_all 0%nat (world_of [breakout] None) = (Ok l', w') /\
    heap w' !! l' = Some frame /\
    iloc frame (-1) = Ok last /\ iloc frame (-2) = Ok prev /\
    reads last x /\ reads prev y /\
    detect_momentum_signal (Some 0%nat) (world_of [breakout] None)
    = (Ok rep, w') /\
    rep !! "signal" = Some (PBool b) /\
    (b = true <->
     ((fgt (r_ema9 x) (r_ema21 x) = true /\
       fle (r_ema9 y) (r_ema21 y) = true) \/
      (fgt (r_close x) (r_ema9 x) = true /\
       fgt (r_close x) (r_ema21 x) = true)) /\
     fgt (r_rsi5 x) (fl 55) = true /\
     r_vol_spike x = true /\
     r_atr_spike x = true).
Proof.
  apply (detect_signal_iff (world_of [breakout] None) 0%nat breakout).
  - reflexivity.
  - reflexivity.
  - vm_compute. lia.
Defined.

(** C2.  Without a frame, or with a frame of fewer than 30 rows, the
    result is the empty dictionary and nothing is raised.  With a candle
    frame of 30 rows or more the result is the report of the last bar,
    whatever [signal] is: [rsi5], [vol_spike], [atr_spike] and [close] are
    the cells of the last row of the frame [compute_all] built, [close]
    being the caller's last close; [ema_cross] and [signal] are the
    conditions on its last two rows; the label of the caller's last row
    stands under [time]; and the report holds nothing else. *)
Theorem detect_empty_or_report (w : World) :
  detect_momentum_signal None w = (Ok ∅, w) /\
  (forall l df,
     heap w !! l = Some df -> (length (index df) < 30)%nat ->
     detect_momentum_signal (Some l) w = (Ok ∅, w)) /\
  (forall l df,
     heap w !! l = Some df -> candle_frame df = true ->
     (30 <= length (index df))%nat ->
     exists l' w' frame last_row prev_row x y,
       compute_all l w = (Ok l', w') /\
       heap w' !! l' = Some frame /\
       iloc frame (-1) = Ok last_row /\ iloc frame (-2) = Ok prev_row /\
       reads last_row x /\ reads prev_row y /\
       last (index df) = Some (name last_row) /\
       floats df "close" !! (length (index df) - 1)%nat
       = Some (r_close x) /\
       detect_momentum_signal (Some l) w
       = (Ok (<["signal" := PBool (signal_of (conditions_from x y))]>
             (<["ema_cross" := PBool (fgt (r_ema9 x) (r_ema21 x)
                                      && fle (r_ema9 y) (r_ema21 y))]>
             (<["rsi5" := PFloat (r_rsi5 x)]>
             (<["vol_spike" := PBool (r_vol_spike x)]>
             (<["atr_spike" := PBool (r_atr_spike x)]>
             (<["close" := PFloat (r_close x)]>
             (<["time" := PStr (name last_row)]> ∅))))))), w')).
Proof.
  split; [reflexivity|]. split.
  - intros l df Hl Hn. unfold detect_momentum_signal.
    rewrite (bind_ok _ _ _ _ _ (df_len_ok _ _ _ Hl)).
    destruct (Nat.ltb_spec (length (index df)) 30); [done | lia].
  - intros l df Hl Hc Hn.
    destruct (detect_run w l df Hl Hc Hn)
      as (tl & tp & x & y & Htl & _ & Hx & _ & Rx & Ry & Hca & I1 & I2 & Hd).
    eexists _, _, _, _, _, x, y.
    split; [exact Hca|]. split; [apply lookup_insert_eq|].
    split; [exact I1|]. split; [exact I2|].
    split; [exact Rx|]. split; [exact Ry|].
    split; [|split; [apply Hx | exact Hd]].
    rewrite last_lookup.
    replace (Nat.pred (length (index df))) with (length (index df) - 1)%nat
      by lia.
    exact Htl.
Qed.

Lemma detect_empty_or_report_witness :
  detect_momentum_signal (Some 1%nat) (world_of [quiet; three_bars] None)
  = (Ok ∅, world_of [quiet; three_bars] None) /\
  exists l' w' frame last_row prev_row x y,
    compute_all 0%nat (world_of [quiet; three_bars] None) = (Ok l', w') /\
    heap w' !! l' = Some frame /\
    iloc frame (-1) = Ok last_row /\ iloc frame (-2) = Ok prev_row /\
    reads last_row x /\ reads prev_row y /\
    last (index quiet) = Some (name last_row) /\
    floats quiet "close" !! (length (index quiet) - 1)%nat
    = Some (r_close x) /\
    detect_momentum_signal (Some 0%nat) (world_of [quiet; three_bars] None)
    = (Ok (<["signal" := PBool (signal_of (conditions_from x y))]>
          (<["ema_cross" := PBool (fgt (r_ema9 x) (r_ema21 x)
                                   && fle (r_ema9 y) (r_ema21 y))]>
          (<["rsi5" := PFloat (r_rsi5 x)]>
          (<["vol_spike" := PBool (r_vol_spike x)]>
          (<["atr_spike" := PBool (r_atr_spike x)]>
          (<["close" := PFloat (r_close x)]>
          (<["time" := PStr (name last_row)]> ∅))))))), w').
Proof.
  destruct (detect_empty_or_report (world_of [quiet; three_bars] None))
    as (_ & Hshort & Hfull).
  split.
  - apply (Hshort 1%nat three_bars); [reflexivity | vm_compute; lia].
  - apply (Hfull 0%nat quiet); [reflexivity | reflexivity | vm_compute; lia].
Defined.

Lemma is_nan_true x : is_nan x = true -> x = NaN.
Proof. by destruct x. Qed.

Lemma fgt_nan_l x : fgt NaN x = false.
Proof. by destruct x. Qed.

Lemma fgt_nan_r x : fgt x NaN = false.
Proof. by destruct x. Qed.

Lemma fle_nan_l x : fle NaN x = false.
Proof. by destruct x. Qed.

Lemma fle_nan_r x : fle x NaN = false.
Proof. by destruct x. Qed.

Lemma fmul_nan_r x : fmul x NaN = NaN.
Proof. by destruct x. Qed.

Lemma series_gt_lookup xs ys k b :
  series_gt xs ys !! k = Some b ->
  exists x y, xs !! k = Some x /\ ys !! k = Some y /\ b = fgt x y.
Proof.
  unfold series_gt. rewrite list_lookup_fmap.
  destruct (combine xs ys !! k) as [[x y]|] eqn:E; [|done].
  intros [= <-]. exists x, y.
  change (combine xs ys) with (zip xs ys) in E.
  apply lookup_zip_with_Some in E as (x' & y' & [= -> ->] & Hx & Hy).
  done.
Qed.

(** A spike flag is false where its baseline is not a number. *)
Lemma spike_nan_false xs c base k b :
  series_gt xs (scale c base) !! k = Some b ->
  xs !! k = Some NaN \/ base !! k = Some NaN -> b = false.
Proof.
  intros H Hnan. apply series_gt_lookup in H as (x & y & Hx & Hy & ->).
  unfold scale in Hy. rewrite list_lookup_fmap in Hy.
  destruct Hnan as [Hn|Hn].
  - rewrite Hn in Hx. injection Hx as <-. apply fgt_nan_l.
  - rewrite Hn in Hy. simpl in Hy. injection Hy as <-.
    rewrite fmul_nan_r. apply fgt_nan_r.
Qed.

(** C3.  On a candle frame of 30 rows or more [detect_momentum_signal]
    returns (it does not raise), and a value it reads that is not a number
    makes every condition that reads it false: [ema9] or [ema21] of the
    last row ([ema_cross], [price_above_emas], and with them [signal]),
    [ema9] or [ema21] of the row before ([ema_cross]), [rsi5] ([rsi_burst]
    and [signal]), [close] ([price_above_emas]), the ATR or its rolling
    baseline ([atr_spike] and [signal]), the rolling baseline of the volume
    ([vol_spike] and [signal]). *)
Theorem nan_reads_false (w : World) (l : loc) (df : DataFrame) :
  heap w !! l = Some df ->
  candle_frame df = true ->
  (30 <= length (index df))%nat ->
  exists l' w' frame last prev x y c rep,
    compute_all l w = (Ok l', w') /\
    heap w' !! l' = Some frame /\
    iloc frame (-1) = Ok last /\ iloc frame (-2) = Ok prev /\
    reads last x /\ reads prev y /\
    conditions last prev = Ok c /\
    detect_momentum_signal (Some l) w = (Ok rep, w') /\
    rep !! "signal" = Some (PBool (signal_of c)) /\
    rep !! "ema_cross" = Some (PBool (c_ema_cross c)) /\
    rep !! "vol_spike" = Some (PBool (c_vol_spike c)) /\
    rep !! "atr_spike" = Some (PBool (c_atr_spike c)) /\
    (is_nan (r_ema9 x) = true \/ is_nan (r_ema21 x) = true ->
     c_ema_cross c = false /\ c_price_above_emas c = false /\
     signal_of c = false) /\
    (is_nan (r_ema9 y) = true \/ is_nan (r_ema21 y) = true ->
     c_ema_cross c = false) /\
    (is_nan (r_rsi5 x) = true ->
     c_rsi_burst c = false /\ signal_of c = false) /\
    (is_nan (r_close x) = true -> c_price_above_emas c = false) /\
    (forall a m,
       columns frame !! "atr14" = Some (Floats a) ->
       columns frame !! "atr14_ma" = Some (Floats m) ->
       a !! (length (index df) - 1)%nat = Some NaN \/
       m !! (length (index df) - 1)%nat = Some NaN ->
       c_atr_spike c = false /\ signal_of c = false) /\
    (forall volume,
       columns df !! "volume" = Some (Floats volume) ->
       rolling_mean 10 volume !! (length (index df) - 1)%nat = Some NaN ->
       c_vol_spike c = false /\ signal_of c = false).
Proof.
  intros Hl Hc Hn.
  destruct (detect_run w l df Hl Hc Hn)
    as (tl & tp & x & y & _ & _ & Hx & _ & Rx & Ry & Hca & I1 & I2 & Hd).
  destruct Hx as (_ & _ & _ & _ & Hvs & Has).
  eexists _, _, _, _, _, x, y, (conditions_from x y), _.
  split; [exact Hca|]. split; [apply lookup_insert_eq|].
  split; [exact I1|]. split; [exact I2|].
  split; [exact Rx|]. split; [exact Ry|].
  split; [by apply conditions_of_reads|]. split; [exact Hd|].
  repeat (split; [by simplify_map_eq|]).
  unfold signal_of, conditions_from. simpl.
  split; [|split; [|split; [|split; [|split]]]].
  - intros [H|H]; apply is_nan_true in H; rewrite H;
      rewrite ?fgt_nan_l, ?fgt_nan_r, ?andb_false_r; done.
  - intros [H|H]; apply is_nan_true in H; rewrite H;
      rewrite ?fle_nan_l, ?fle_nan_r, ?andb_false_r; done.
  - intros H. apply is_nan_true in H. rewrite H, fgt_nan_l.
    by rewrite andb_false_r.
  - intros H. apply is_nan_true in H. rewrite H, fgt_nan_l. done.
  - intros a m Ha Hm Hnan. unfold indicator_frame, with_col in Ha, Hm.
    simpl in Ha, Hm.
    rewrite !lookup_insert_ne, lookup_insert_eq in Ha by done.
    rewrite !lookup_insert_ne, lookup_insert_eq in Hm by done.
    injection Ha as <-. injection Hm as <-.
    rewrite (spike_nan_false _ _ _ _ _ Has Hnan).
    by rewrite andb_false_r.
  - intros volume Hv Hnan.
    unfold floats in Hvs. rewrite Hv in Hvs. unfold volume_spike in Hvs.
    rewrite (spike_nan_false _ _ _ _ _ Hvs (or_intror Hnan)).
    by rewrite andb_false_r.
Qed.

Lemma nan_reads_false_witness :
  exists rep w',
    detect_momentum_signal (Some 0%nat) (world_of [quiet] None)
    = (Ok rep, w') /\
    rep !! "signal" = Some (PBool false).
Proof.
  destruct (nan_reads_false (world_of [quiet] None) 0%nat quiet)
    as (l' & w' & frame & last & prev & x & y & c & rep & Hca & Hfr & I1
        & _ & Rx & _ & _ & Hd & Hs & _ & _ & _ & _ & _ & Hrsi & _).
  - reflexivity.
  - reflexivity.
  - vm_compute. lia.
  - exists rep, w'. split; [exact Hd|]. rewrite Hs.
    assert (Hnan : is_nan (r_rsi5 x) = true).
    { destruct Rx as (_ & _ & R & _).
      vm_compute in Hca. injection Hca as <- <-.
      vm_compute in Hfr. injection Hfr as <-.
      vm_compute in I1. injection I1 as <-.
      vm_compute in R. vm_compute. injection R as <-. reflexivity. }
    destruct (Hrsi Hnan) as [_ ->]. reflexivity.
Defined.

(** ** The caller's frame: claim C10 *)

Lemma yields_ret {A} (a : A) : yields a (mret a : M A).
Proof. by intros w. Qed.

Lemma yields_bind {A B} (b : B) (m : M A) (f : A -> M B) :
  (forall a, yields b (f a)) -> yields b (m ≫= f).
Proof.
  intros Hf w. unfold mbind, M_bind.
  destruct (m w) as [[a|e] w1]; [apply Hf | done].
Qed.

Lemma compute_all_new l0 w l' w' :
  compute_all l0 w = (Ok l', w') -> l' = fresh (dom (heap w)).
Proof.
  unfold compute_all, df_copy.
  unfold mbind at 1, M_bind at 1. unfold mbind at 1, M_bind at 1.
  unfold deref at 1. destruct (heap w !! l0) as [df|]; [|done].
  unfold alloc.
  match goal with
  | |- ?k ?w1 = _ -> _ =>
      assert (K : yields (fresh (dom (heap w))) k)
  end.
  { repeat first [ apply yields_ret | apply yields_bind; intros ? ]. }
  intros E. specialize (K (set_heap (<[fresh (dom (heap w)):=df]> (heap w)) w)).
  rewrite E in K. exact K.
Qed.

(** C10.  A DataFrame object that is in the heap when
    [detect_momentum_signal] is called, the caller's among them, is the
    same frame afterwards, index and columns: [compute_all] works on the
    new object [df.copy()] made, which is none of them, and leaves the
    others as they are. *)
Theorem detect_leaves_caller_frame (w : World) (df_ref : option loc)
  (l : loc) (df : DataFrame) :
  heap w !! l = Some df ->
  heap (snd (detect_momentum_signal df_ref w)) !! l = Some df /\
  (forall l0, heap (snd (compute_all l0 w)) !! l = Some df) /\
  (forall l0 l' w', compute_all l0 w = (Ok l', w') -> l' <> l).
Proof.
  intros Hl.
  assert (Hdom : l ∈ dom (heap w)) by (apply elem_of_dom; eauto).
  split; [|split].
  - by rewrite detect_keeps.
  - intros l0. by rewrite compute_all_keeps.
  - intros l0 l' w' E. apply compute_all_new in E as ->.
    intros Heq. apply (is_fresh (dom (heap w))). by rewrite Heq.
Qed.

Lemma detect_leaves_caller_frame_witness :
  heap (snd (detect_momentum_signal (Some 0%nat)
               (world_of [breakout] None))) !! 0%nat = Some breakout /\
  (forall l0, heap (snd (compute_all l0 (world_of [breakout] None))) !! 0%nat
              = Some breakout) /\
  (forall l0 l' w',
     compute_all l0 (world_of [breakout] None) = (Ok l', w') -> l' <> 0%nat).
Proof.
  apply (detect_leaves_caller_frame (world_of [breakout] None) (Some 0%nat)
           0%nat breakout).
  reflexivity.
Defined.

(** ** Arithmetic of cells *)

Lemma Qlt_bool_false a b : b <= a -> Qlt_bool a b = false.
Proof.
  intros H. unfold Qlt_bool. apply negb_false_iff. by apply Qle_bool_iff.
Qed.

Lemma Qlt_bool_true a b : a < b -> Qlt_bool a b = true.
Proof.
  intros H. unfold Qlt_bool. apply negb_true_iff.
  destruct (Qle_bool b a) eqn:E; [|done].
  apply Qle_bool_iff in E. lra.
Qed.

Lemma Qeq_bool_false a b : ~ a == b -> Qeq_bool a b = false.
Proof.
  intros H. destruct (Qeq_bool a b) eqn:E; [|done].
  apply Qeq_bool_iff in E. done.
Qed.

Lemma Qeq_bool_true a b : a == b -> Qeq_bool a b = true.
Proof. apply Qeq_bool_iff. Qed.

Lemma signbit_nonneg z q : 0 < q -> signbit (Fin z q) = false.
Proof.
  intros H. unfold signbit. rewrite Qeq_bool_false by lra.
  apply Qlt_bool_false. lra.
Qed.

Lemma fmul_nonneg c x :
  0 <= c -> nonneg_or_nan x -> nonneg_or_nan (fmul (fl c) x).
Proof.
  intros Hc Hx. destruct x as [|s|z q]; simpl in *; [done| |].
  - destruct (Qeq_bool c 0) eqn:E; [done|]. simpl. subst s.
    rewrite Qlt_bool_false by done. done.
  - nra.
Qed.

Lemma fadd_nonneg x y :
  nonneg_or_nan x -> nonneg_or_nan y -> nonneg_or_nan (fadd x y).
Proof.
  destruct x as [|s|z q], y as [|t|z' q']; simpl; try done.
  - intros -> ->. done.
  - intros. lra.
Qed.

Lemma fdiv_nonneg x d :
  0 < d -> nonneg_or_nan x -> nonneg_or_nan (fdiv x (fl d)).
Proof.
  intros Hd Hx. destruct x as [|s|z q]; simpl in *; [done| |].
  - subst s. rewrite Qeq_bool_false by lra.
    by rewrite Qlt_bool_false by lra.
  - rewrite Qeq_bool_false by lra. simpl.
    apply Qle_shift_div_l; [done|]. lra.
Qed.

(** ** The exponentially weighted mean keeps what its steps keep *)

Lemma ewm_loop_forall alpha minp (I : ewm_state -> Prop)
  (P O : float -> Prop) :
  (forall st x, I st -> P x ->
     I (ewm_step alpha st x) /\ O (ewm_out minp (ewm_step alpha st x))) ->
  forall xs st, I st -> Forall P xs -> Forall O (ewm_loop alpha minp st xs).
Proof.
  intros Hstep. induction xs as [|x xs IH]; intros st HI HP; simpl.
  - constructor.
  - inversion HP as [|? ? Hx Hxs]; subst.
    destruct (Hstep st x HI Hx) as [HI' HO].
    constructor; [exact HO | by apply IH].
Qed.

Lemma ewm_step_nonneg alpha st x :
  0 < alpha -> alpha <= 1 ->
  nonneg_or_nan (weighted st) /\ 0 <= old_wt st ->
  nonneg_or_nan x ->
  (nonneg_or_nan (weighted (ewm_step alpha st x)) /\
   0 <= old_wt (ewm_step alpha st x)) /\
  nonneg_or_nan (ewm_out 1 (ewm_step alpha st x)).
Proof.
  intros Ha0 Ha1 [Hw Ho] Hx.
  assert (H1 : 0 <= old_wt st * (1 - alpha)) by nra.
  assert (G : nonneg_or_nan (weighted (ewm_step alpha st x)) /\
              0 <= old_wt (ewm_step alpha st x)).
  { unfold ewm_step.
    assert (Hp : nonneg_or_nan (prep_value x)) by (by destruct x).
    cbv zeta. clear Hx. revert Hp. generalize (prep_value x).
    clear x. intros x Hx.
    destruct (is_nan (weighted st)), (is_nan x); simpl; try done.
    split; [|lra].
    destruct (fneb (weighted st) x); [|done].
    apply fdiv_nonneg; [lra|].
    apply fadd_nonneg; apply fmul_nonneg; (done || lra). }
  split; [exact G|]. unfold ewm_out.
  destruct (1 <=? nobs (ewm_step alpha st x))%nat; [apply G | done].
Qed.

Lemma ewm_mean_nonneg alpha xs :
  0 < alpha -> alpha <= 1 ->
  Forall nonneg_or_nan xs -> Forall nonneg_or_nan (ewm_mean alpha xs).
Proof.
  intros Ha0 Ha1 HP. destruct xs as [|x0 xs]; simpl; [constructor|].
  inversion HP as [|? ? Hx0 Hxs]; subst.
  assert (Hp : nonneg_or_nan (prep_value x0)) by (by destruct x0).
  constructor.
  - unfold ewm_out. simpl. by destruct (is_nan (prep_value x0)).
  - apply (ewm_loop_forall alpha 1
             (fun st => nonneg_or_nan (weighted st) /\ 0 <= old_wt st)
             nonneg_or_nan nonneg_or_nan).
    + intros st x HI Hx. by apply ewm_step_nonneg.
    + simpl. split; [done | lra].
    + done.
Qed.

Lemma alpha_bounds (n : Z) :
  (1 <= n)%Z -> 0 < 1 / inject_Z n /\ 1 / inject_Z n <= 1.
Proof.
  intros Hn.
  assert (H : 1 <= inject_Z n).
  { change 1 with (inject_Z 1). by rewrite <- Zle_Qle. }
  split.
  - apply Qlt_shift_div_l; lra.
  - apply Qle_shift_div_r; lra.
Qed.

(** ** The up-moves and the down-moves are not negative *)

Lemma clip_lower_nonneg xs : Forall nonneg_or_nan (clip_lower (fl 0) xs).
Proof.
  unfold clip_lower. apply Forall_fmap, Forall_true. intros x.
  unfold compose. destruct x as [|s|z q]; simpl; [done| |].
  - destruct s; cbn; [apply Qle_refl | done].
  - cbv [fge fle fcompare fl is_nan orb].
    destruct (0 ?= q) eqn:E; cbn [nonneg_or_nan]; try apply Qle_refl.
    + apply Qeq_alt in E. lra.
    + apply Qlt_alt in E. lra.
Qed.

Lemma down_moves_nonneg xs :
  Forall nonneg_or_nan (scale (fl (-1)) (clip_upper (fl 0) xs)).
Proof.
  unfold scale, clip_upper. rewrite map_map.
  apply Forall_fmap, Forall_true. intros x. unfold compose.
  destruct x as [|s|z q]; simpl; [done| |].
  - destruct s; cbn; [done | discriminate].
  - cbv [fle fcompare fl is_nan orb].
    destruct (q ?= 0) eqn:E; cbn [nonneg_or_nan fmul];
      try apply Qle_refl.
    + apply Qeq_alt in E. lra.
    + apply Qlt_alt in E. lra.
Qed.

(** ** RSI: claim C8 *)

Lemma zip_with_f_lookup f xs ys i :
  zip_with_f f xs ys !! i
  = match xs !! i, ys !! i with
    | Some x, Some y => Some (f x y)
    | _, _ => None
    end.
Proof.
  unfold zip_with_f. rewrite list_lookup_fmap.
  change (combine xs ys) with (zip xs ys).
  destruct (zip xs ys !! i) as [[x y]|] eqn:E.
  - apply lookup_zip_with_Some in E as (x' & y' & [= -> ->] & -> & ->).
    done.
  - apply lookup_zip_with_None in E as [E|E]; rewrite E; [done|].
    by destruct (xs !! i).
Qed.

Lemma rsi_lookup series n i :
  rsi series n !! i
  = match rsi_ma_up series n !! i, rsi_ma_down series n !! i with
    | Some u, Some d =>
        Some (fsub (fl 100) (fdiv (fl 100) (fadd (fl 1) (fdiv u d))))
    | _, _ => None
    end.
Proof.
  unfold rsi, rsi_ma_up, rsi_ma_down.
  rewrite list_lookup_fmap, zip_with_f_lookup.
  destruct (_ !! i) as [u|]; [|done]. by destruct (_ !! i).
Qed.

(** The cell of [rsi] from the two smoothed averages, when it is a
    number. *)
Lemma rsi_cell_within u d :
  nonneg_or_nan u -> nonneg_or_nan d ->
  is_nan (fsub (fl 100) (fdiv (fl 100) (fadd (fl 1) (fdiv u d)))) = false ->
  within 0 100 (fsub (fl 100) (fdiv (fl 100) (fadd (fl 1) (fdiv u d)))).
Proof.
  intros Hu Hd.
  destruct u as [|s|z a], d as [|t|z' b]; simpl in Hu, Hd;
    try (cbn; discriminate).
  - (* inf / finite *)
    subst s. cbn. destruct (xorb false (signbit (Fin z' b))); cbn; intros _;
      split; discriminate.
  - (* finite / inf *)
    subst t. cbn. intros _. split; discriminate.
  - (* finite / finite *)
    cbv [fdiv fl]. destruct (Qeq_bool b 0) eqn:Eb.
    + destruct (Qeq_bool a 0) eqn:Ea; [cbn; discriminate|].
      destruct (xorb (signbit (Fin z a)) (signbit (Fin z' b))); cbn;
        intros _; split; discriminate.
    + set (s := xorb (signbit (Fin z a)) (signbit (Fin z' b))).
      assert (Hb : 0 < b).
      { destruct (Qeq_dec b 0) as [E|E]; [|lra].
        apply Qeq_bool_iff in E. congruence. }
      assert (Hr : 0 <= a / b) by (apply Qle_shift_div_l; lra).
      cbv [fadd].
      assert (Ht : ~ 1 + a / b == 0) by lra.
      rewrite (Qeq_bool_false _ _ Ht).
      cbv [fsub fneg fadd within]. intros _.
      assert (H0 : 0 <= 100 / (1 + a / b)) by (apply Qle_shift_div_l; lra).
      assert (H1 : 100 / (1 + a / b) <= 100)
        by (apply Qle_shift_div_r; nra).
      split; lra.
Qed.

Lemma rsi_within series n i r :
  (1 <= n)%Z ->
  rsi series n !! i = Some r -> is_nan r = false -> within 0 100 r.
Proof.
  intros Hn Hr Hnan. rewrite rsi_lookup in Hr.
  destruct (alpha_bounds n Hn) as [Ha0 Ha1].
  destruct (rsi_ma_up series n !! i) as [u|] eqn:Eu; [|done].
  destruct (rsi_ma_down series n !! i) as [d|] eqn:Ed; [|done].
  injection Hr as <-.
  apply rsi_cell_within; [| |exact Hnan].
  - apply (proj1 (Forall_lookup _ _)
             (ewm_mean_nonneg _ _ Ha0 Ha1 (clip_lower_nonneg (diff series)))
             i u Eu).
  - apply (proj1 (Forall_lookup _ _)
             (ewm_mean_nonneg _ _ Ha0 Ha1 (down_moves_nonneg (diff series)))
             i d Ed).
Qed.

(** No down-move left and an up-move: the quotient is infinite and the
    cell is 100. *)
Lemma rsi_cell_saturates u d :
  is_positive u -> is_zero d ->
  has_value (fsub (fl 100) (fdiv (fl 100) (fadd (fl 1) (fdiv u d)))) 100.
Proof.
  intros Hu Hd.
  destruct d as [| |z' b]; simpl in Hd; try done.
  destruct u as [|s|z a]; simpl in Hu; try done.
  cbv [fdiv]. rewrite (Qeq_bool_true _ _ Hd).
  rewrite Qeq_bool_false by lra.
  destruct (xorb (signbit (Fin z a)) (signbit (Fin z' b))); cbn;
    reflexivity.
Qed.

(** *** A rising series *)

Lemma diff_cons x0 xs :
  diff (Fin false x0 :: xs)
  = NaN :: zip_with_f fsub xs (removelast (Fin false x0 :: xs)).
Proof. reflexivity. Qed.

Lemma rising_tail q0 q1 rest : rising (q0 :: q1 :: rest) -> rising (q1 :: rest).
Proof. intros H i a b Ha Hb. exact (H (S i) a b Ha Hb). Qed.

Lemma rising_deltas q0 rest :
  rising (q0 :: rest) ->
  Forall pos_fin
    (zip_with_f fsub (map fl rest) (removelast (map fl (q0 :: rest)))).
Proof.
  revert q0. induction rest as [|q1 rest IH]; intros q0 Hr.
  - constructor.
  - change (removelast (map fl (q0 :: q1 :: rest)))
      with (fl q0 :: removelast (map fl (q1 :: rest))).
    change (zip_with_f fsub (map fl (q1 :: rest))
              (fl q0 :: removelast (map fl (q1 :: rest))))
      with (fsub (fl q1) (fl q0)
            :: zip_with_f fsub (map fl rest)
                 (removelast (map fl (q1 :: rest)))).
    constructor.
    + simpl. pose proof (Hr 0%nat q0 q1 eq_refl eq_refl). lra.
    + apply IH. by eapply rising_tail.
Qed.

Lemma clip_lower_pos xs :
  Forall pos_fin xs -> clip_lower (fl 0) xs = xs.
Proof.
  induction 1 as [|x xs Hx _ IH]; [done|].
  unfold clip_lower in *. simpl. rewrite IH. f_equal.
  destruct x as [| |z q]; try done. simpl in Hx.
  cbv [fge fle fcompare fl is_nan orb].
  assert (E : (0 ?= q) = Lt) by (by apply Qlt_alt). by rewrite E.
Qed.

Lemma down_moves_pos xs :
  Forall pos_fin xs ->
  Forall (fun x => x = no_down_move)
    (scale (fl (-1)) (clip_upper (fl 0) xs)).
Proof.
  intros H. unfold scale, clip_upper. rewrite map_map.
  apply Forall_fmap. eapply Forall_impl; [exact H|].
  intros x Hx. unfold compose. destruct x as [| |z q]; try done.
  simpl in Hx. cbv [fle fcompare fl is_nan orb].
  assert (E : (q ?= 0) = Gt) by (by apply Qgt_alt). by rewrite E.
Qed.

Lemma ewm_mean_unseeded alpha ys :
  ewm_mean alpha (NaN :: ys) = NaN :: ewm_loop alpha 1 ewm_unseeded ys.
Proof. reflexivity. Qed.

Lemma ewm_loop_pos alpha ys :
  0 < alpha -> alpha <= 1 ->
  Forall pos_fin ys -> Forall pos_fin (ewm_loop alpha 1 ewm_unseeded ys).
Proof.
  intros Ha0 Ha1.
  apply (ewm_loop_forall alpha 1
           (fun st => st = ewm_unseeded \/
                      (pos_fin (weighted st) /\ old_wt st = 1
                       /\ (1 <= nobs st)%nat))
           pos_fin pos_fin); [|by left].
  intros st x HI Hx. destruct x as [| |z q]; try done. simpl in Hx.
  assert (G : pos_fin (weighted (ewm_step alpha st (Fin z q))) /\
              old_wt (ewm_step alpha st (Fin z q)) = 1 /\
              (1 <= nobs (ewm_step alpha st (Fin z q)))%nat).
  { destruct HI as [->|(Hw & Ho & Hn)].
    - cbn. split; [done|]. split; [done|lia].
    - destruct st as [[| |zw qw] o k]; simpl in Hw, Ho, Hn; try done.
      subst o. unfold ewm_step.
      cbn [prep_value is_inf weighted old_wt nobs is_nan negb].
      split; [|split; [done|lia]].
      destruct (fneb (Fin zw qw) (Fin z q)); [|done].
      cbv [fl fmul fadd fdiv].
      assert (Hs : ~ 1 * (1 - alpha) + alpha == 0) by lra.
      rewrite (Qeq_bool_false _ _ Hs). cbn [weighted pos_fin].
      apply Qlt_shift_div_l; [lra|]. nra. }
  split; [right; exact G|].
  unfold ewm_out. destruct G as (Hw & _ & Hn).
  destruct (Nat.leb_spec 1 (nobs (ewm_step alpha st (Fin z q)))); [done|lia].
Qed.

Lemma ewm_loop_no_down alpha ys :
  Forall (fun x => x = no_down_move) ys ->
  Forall (fun x => x = no_down_move) (ewm_loop alpha 1 ewm_unseeded ys).
Proof.
  apply (ewm_loop_forall alpha 1
           (fun st => st = ewm_unseeded \/
                      (weighted st = no_down_move /\ (1 <= nobs st)%nat))
           (fun x => x = no_down_move) (fun x => x = no_down_move));
    [|by left].
  intros st x HI ->.
  assert (G : weighted (ewm_step alpha st no_down_move) = no_down_move /\
              (1 <= nobs (ewm_step alpha st no_down_move))%nat).
  { destruct HI as [->|(Hw & Hn)].
    - cbn. split; [done|lia].
    - unfold ewm_step.
      change (prep_value no_down_move) with no_down_move.
      cbv zeta. rewrite Hw. cbn. split; [done|lia]. }
  split; [right; exact G|].
  unfold ewm_out. destruct G as (Hw & Hn).
  destruct (Nat.leb_spec 1 (nobs (ewm_step alpha st no_down_move)));
    [done|lia].
Qed.

Lemma rsi_rising qs n i :
  (1 <= n)%Z -> rising qs -> (1 <= i < length qs)%nat ->
  exists r, rsi (map fl qs) n !! i = Some r /\ has_value r 100.
Proof.
  intros Hn Hr [Hi1 Hi2]. destruct (alpha_bounds n Hn) as [Ha0 Ha1].
  destruct qs as [|q0 rest]; [simpl in Hi2; lia|].
  destruct i as [|j]; [lia|]. simpl in Hi2.
  pose proof (rising_deltas q0 rest Hr) as Hd.
  set (ds := zip_with_f fsub (map fl rest) (removelast (map fl (q0 :: rest))))
    in *.
  assert (Hlen : length ds = length rest).
  { subst ds. rewrite length_zip_with_f.
    change (map fl (q0 :: rest)) with (fl q0 :: map fl rest).
    rewrite removelast_firstn_len, length_firstn. simpl.
    rewrite !length_map. lia. }
  assert (Hdiff : diff (map fl (q0 :: rest)) = NaN :: ds) by reflexivity.
  rewrite rsi_lookup. unfold rsi_ma_up, rsi_ma_down. rewrite Hdiff.
  change (clip_lower (fl 0) (NaN :: ds)) with (NaN :: clip_lower (fl 0) ds).
  change (scale (fl (-1)) (clip_upper (fl 0) (NaN :: ds)))
    with (NaN :: scale (fl (-1)) (clip_upper (fl 0) ds)).
  rewrite (clip_lower_pos _ Hd), !ewm_mean_unseeded. simpl.
  pose proof (ewm_loop_pos _ _ Ha0 Ha1 Hd) as Hup.
  pose proof (ewm_loop_no_down (1 / inject_Z n) _ (down_moves_pos _ Hd))
    as Hdown.
  destruct (lookup_lt_is_Some_2 (ewm_loop (1 / inject_Z n) 1 ewm_unseeded ds) j)
    as [u Hu]; [rewrite length_ewm_loop; lia|].
  destruct (lookup_lt_is_Some_2
              (ewm_loop (1 / inject_Z n) 1 ewm_unseeded
                 (scale (fl (-1)) (clip_upper (fl 0) ds))) j)
    as [d Hdd].
  { unfold scale, clip_upper. rewrite length_ewm_loop, !length_map. lia. }
  rewrite Hu, Hdd. eexists. split; [reflexivity|].
  apply rsi_cell_saturates.
  - pose proof (proj1 (Forall_lookup _ _) Hup j u Hu) as P.
    by destruct u.
  - rewrite (proj1 (Forall_lookup _ _) Hdown j d Hdd). cbn. reflexivity.
Qed.

(** C8.  For every close series and every length of one or more (the
    pipeline uses 5): a cell of [rsi] that is a number lies between 0 and
    100; where the smoothed down-move is zero and the smoothed up-move is
    above zero the cell is 100, the division by zero giving an infinite
    quotient and no error; and on closes that rise from each bar to the
    next, every cell after the first is 100. *)
Theorem rsi_bounded_and_saturates (series : list float) (n : Z) :
  (1 <= n)%Z ->
  (forall i r,
     rsi series n !! i = Some r -> is_nan r = false -> within 0 100 r) /\
  (forall i u d,
     rsi_ma_up series n !! i = Some u ->
     rsi_ma_down series n !! i = Some d ->
     is_positive u -> is_zero d ->
     exists r, rsi series n !! i = Some r /\ has_value r 100) /\
  (forall qs i,
     series = map fl qs -> rising qs -> (1 <= i < length qs)%nat ->
     exists r, rsi series n !! i = Some r /\ has_value r 100).
Proof.
  intros Hn. split; [|split].
  - intros i r. by apply rsi_within.
  - intros i u d Hu Hd Pu Zd. rewrite rsi_lookup, Hu, Hd.
    eexists. split; [reflexivity|]. by apply rsi_cell_saturates.
  - intros qs i -> Hr Hi. by apply rsi_rising.
Qed.

Lemma rsi_bounded_and_saturates_witness :
  (forall i r,
     rsi (map fl [1; 2; 3; 4]) 5 !! i = Some r ->
     is_nan r = false -> within 0 100 r) /\
  (exists r, rsi (map fl [1; 2; 3; 4]) 5 !! 2%nat = Some r /\
             has_value r 100).
Proof.
  destruct (rsi_bounded_and_saturates (map fl [1; 2; 3; 4]) 5)
    as (Hrange & _ & Hrise).
  - lia.
  - split; [exact Hrange|].
    apply (Hrise [1; 2; 3; 4] 2%nat eq_refl).
    + intros i a b Ha Hb.
      destruct i as [|[|[|[|i]]]]; simpl in Ha, Hb;
        try discriminate; injection Ha as <-; injection Hb as <-;
        reflexivity.
    + simpl. lia.
Defined.

(** ** Delivery: claim C9 *)

Lemma writes_app tr tr' : writes (tr ++ tr') = writes tr ++ writes tr'.
Proof. apply omap_app. Qed.

Lemma posts_app tr tr' : posts (tr ++ tr') = posts tr ++ posts tr'.
Proof. apply omap_app. Qed.

(** Every run of [send_telegram_message]. *)
Lemma send_cases env bot_token chat_id text w :
  (falsy bot_token || falsy chat_id = true /\
   send_telegram_message env bot_token chat_id text w
   = (Raise (Exn ValueError "Provide bot_token and chat_id in config."), w))
  \/
  (falsy bot_token || falsy chat_id = false /\
   exists extra,
     send_telegram_message env bot_token chat_id text w
     = (Ok (delivered (http_post env (ticks w) (send_url bot_token)
                         (default ""%string chat_id) text)),
        {| heap := heap w; alerts_file := alerts_file w;
           ticks := S (ticks w);
           trace := (trace w ++ [EvPost (send_url bot_token)
                                   (default ""%string chat_id) text])
                    ++ extra |}) /\
     writes extra = [] /\ posts extra = []).
Proof.
  unfold send_telegram_message.
  destruct (falsy bot_token || falsy chat_id) eqn:E; [by left|].
  right. split; [done|]. fold (send_url bot_token).
  unfold try_except, mbind, M_bind, tick, emit, raise, delivered. simpl.
  destruct (http_post env (ticks w) (send_url bot_token)
              (default ""%string chat_id) text) as [code|e]; simpl.
  - destruct (code =? 200)%Z; simpl.
    + exists []. by rewrite app_nil_r.
    + by exists [EvSleep].
  - by exists [EvPrint ("Telegram send error: " ++ str_exn e)].
Qed.

(** C9.  [send_telegram_message] raises exactly when the bot token or the
    chat id is missing or empty, and then the world is as it was: nothing
    was posted.  With both present it returns, having posted once: [True]
    when the response has status 200, [False] for any other status and
    when the post raised. *)
Theorem send_telegram_message_contract (env : Env)
  (bot_token chat_id : option string) (text : string) (w : World) :
  let run := send_telegram_message env bot_token chat_id text w in
  let outcome := http_post env (ticks w) (send_url bot_token)
                   (default ""%string chat_id) text in
  ((exists e, fst run = Raise e) <->
   falsy bot_token || falsy chat_id = true) /\
  (falsy bot_token || falsy chat_id = true ->
   run = (Raise (Exn ValueError "Provide bot_token and chat_id in config."),
          w)) /\
  (falsy bot_token || falsy chat_id = false ->
   exists b,
     fst run = Ok b /\
     (b = true <-> outcome = Response 200) /\
     (b = false <-> outcome <> Response 200) /\
     posts (trace (snd run))
     = posts (trace w)
       ++ [(send_url bot_token, default ""%string chat_id, text)] /\
     alerts_file (snd run) = alerts_file w).
Proof.
  intros run outcome. subst run outcome.
  destruct (send_cases env bot_token chat_id text w)
    as [[Hm Hr]|(Hm & extra & Hr & Hw & Hp)]; rewrite Hr, Hm.
  - split; [|split]; [|done|done]. split; [done|]. intros _. by eexists.
  - split; [|split]; [|done|].
    + split; [|done]. by intros [e He].
    + intros _. eexists. split; [reflexivity|]. simpl.
      rewrite !posts_app, Hp, app_nil_r. simpl.
      destruct (http_post env (ticks w) (send_url bot_token)
                  (default ""%string chat_id) text) as [code|e]; simpl.
      * destruct (Z.eqb_spec code 200) as [->|Hne].
        -- repeat split; (done || by intros []).
        -- repeat split; try done; intros H; congruence.
      * repeat split; (done || by intros []).
Qed.

Lemma send_telegram_message_contract_witness :
  fst (send_telegram_message (demo_env quiet 200 1700000000000000)
         (Some "123456:token"%string) (Some "42"%string) "text"
         (world_of [] None)) = Ok true /\
  fst (send_telegram_message (demo_env quiet 500 1700000000000000)
         (Some "123456:token"%string) (Some "42"%string) "text"
         (world_of [] None)) = Ok false /\
  send_telegram_message (demo_env quiet 200 1700000000000000)
    (Some "123456:token"%string) (Some ""%string) "text" (world_of [] None)
  = (Raise (Exn ValueError "Provide bot_token and chat_id in config."),
     world_of [] None).
Proof.
  split; [|split].
  - destruct (send_telegram_message_contract
                (demo_env quiet 200 1700000000000000)
                (Some "123456:token"%string) (Some "42"%string) "text"
                (world_of [] None)) as (_ & _ & H).
    destruct (H eq_refl) as (b & Hb & Ht & _). rewrite Hb. f_equal.
    by apply Ht.
  - destruct (send_telegram_message_contract
                (demo_env quiet 500 1700000000000000)
                (Some "123456:token"%string) (Some "42"%string) "text"
                (world_of [] None)) as (_ & _ & H).
    destruct (H eq_refl) as (b & Hb & _ & Hf & _). rewrite Hb. f_equal.
    by apply Hf.
  - by apply (send_telegram_message_contract
                (demo_env quiet 200 1700000000000000)
                (Some "123456:token"%string) (Some ""%string) "text"
                (world_of [] None)).
Defined.

(** ** The alert store: claims C5 and C6 *)

(** ** Rounding to a Python float *)

Lemma round_half_even_le (x : Q) (K : Z) :
  x <= inject_Z K -> (round_half_even x <= K)%Z.
Proof.
  intros Hx. unfold round_half_even.
  pose proof (Qfloor_le x) as Hlo.
  assert (Hf : (Qfloor x <= K)%Z).
  { rewrite Zle_Qle. lra. }
  destruct (x - inject_Z (Qfloor x) ?= 1 # 2) eqn:E; [|exact Hf|].
  - apply Qeq_alt in E. destruct (Z.even (Qfloor x)); [exact Hf|].
    destruct (Z.eq_dec (Qfloor x) K) as [Heq|Hne]; [|lia].
    rewrite Heq in E. lra.
  - apply Qgt_alt in E.
    destruct (Z.eq_dec (Qfloor x) K) as [Heq|Hne]; [|lia].
    rewrite Heq in E. lra.
Qed.

Lemma round_half_even_ge (x : Q) (K : Z) :
  inject_Z K <= x -> (K <= round_half_even x)%Z.
Proof.
  intros Hx. unfold round_half_even.
  assert (Hf : (K <= Qfloor x)%Z).
  { rewrite <- (Qfloor_Z K). by apply Qfloor_resp_le. }
  destruct (x - inject_Z (Qfloor x) ?= 1 # 2); [|lia|lia].
  destruct (Z.even (Qfloor x)); lia.
Qed.

Lemma round_half_even_above (x : Q) (K : Z) :
  inject_Z K + (1 # 2) < x -> (K + 1 <= round_half_even x)%Z.
Proof.
  intros Hx. unfold round_half_even.
  assert (Hf : (K <= Qfloor x)%Z).
  { rewrite <- (Qfloor_Z K). apply Qfloor_resp_le. lra. }
  destruct (Z.eq_dec (Qfloor x) K) as [Heq|Hne].
  - rewrite Heq.
    assert (E : (x - inject_Z K ?= 1 # 2) = Gt) by (apply Qgt_alt; lra).
    rewrite E. lia.
  - destruct (x - inject_Z (Qfloor x) ?= 1 # 2); [|lia|lia].
    destruct (Z.even (Qfloor x)); lia.
Qed.

Lemma two_power_pos (k : Z) : 0 < 2 ^ k.
Proof. by apply Qpower_0_lt. Qed.

(** A power of two with an exponent that is not positive divides one. *)
Lemma two_power_neg (e : Z) :
  (e <= 0)%Z -> 2 ^ e * inject_Z (2 ^ (- e)) == 1.
Proof.
  intros He. rewrite (Zpower_Qpower 2 (- e)) by lia.
  change (inject_Z 2) with 2.
  rewrite <- Qpower_plus by done.
  replace (e + - e)%Z with 0%Z by lia. reflexivity.
Qed.

Lemma floor_log2_lower (q : Q) : 0 < q -> 2 ^ floor_log2 q <= q.
Proof.
  intros Hq. unfold floor_log2.
  destruct (Qle_bool (2 ^ (Z.log2 (Qnum q) - Z.log2 (Zpos (Qden q)))) q)
    eqn:E; [by apply Qle_bool_iff|]. clear E.
  destruct q as [n d]. cbn [Qnum Qden].
  assert (Hn : (0 < n)%Z).
  { unfold Qlt in Hq. cbn [Qnum Qden] in Hq. lia. }
  pose proof (Z.log2_spec n Hn) as [Hlo _].
  pose proof (Z.log2_spec (Zpos d) ltac:(done)) as [_ Hhi].
  pose proof (Z.log2_nonneg n) as Hn0.
  pose proof (Z.log2_nonneg (Zpos d)) as Hd0.
  set (a := Z.log2 n) in *. set (b := Z.log2 (Zpos d)) in *.
  replace (Z.succ b) with (b + 1)%Z in Hhi by lia.
  assert (Ea : inject_Z (2 ^ a) == 2 ^ a) by (by apply Zpower_Qpower).
  assert (Eb : inject_Z (2 ^ (b + 1)) == 2 ^ (b + 1))
    by (apply Zpower_Qpower; lia).
  assert (Ek : 2 ^ (a - b - 1) * 2 ^ (b + 1) == 2 ^ a).
  { rewrite <- Qpower_plus by done.
    replace (a - b - 1 + (b + 1))%Z with a by lia. reflexivity. }
  pose proof (two_power_pos (a - b - 1)) as Hk.
  pose proof (two_power_pos (b + 1)) as Hb.
  assert (Hlo' : 2 ^ a <= inject_Z n) by (by rewrite <- Ea, <- Zle_Qle).
  assert (Hhi' : inject_Z (Zpos d) < 2 ^ (b + 1))
    by (by rewrite <- Eb, <- Zlt_Qlt).
  rewrite (Qmake_Qdiv n d). apply Qle_shift_div_l; [done|].
  apply Qle_trans with (2 ^ (a - b - 1) * 2 ^ (b + 1)).
  - apply Qmult_le_l; [done|]. by apply Qlt_le_weak.
  - by rewrite Ek.
Qed.

Lemma to_double_cases (q : Q) :
  (q == 0 /\ to_double q = 0) \/
  (~ q == 0 /\
   exists e, 2 ^ (52 + e) <= Qabs q /\
             to_double q = inject_Z (round_half_even (q / 2 ^ e)) * 2 ^ e).
Proof.
  unfold to_double. destruct (Qeq_bool q 0) eqn:E.
  - left. split; [by apply Qeq_bool_iff | done].
  - right. assert (Hq : ~ q == 0) by (by apply Qeq_bool_neq).
    split; [done|]. eexists. split; [|reflexivity].
    replace (52 + (floor_log2 (Qabs q) - 52))%Z
      with (floor_log2 (Qabs q)) by lia.
    apply floor_log2_lower.
    pose proof (Qabs_nonneg q) as H. apply Qle_lteq in H as [H|H]; [done|].
    exfalso. apply Hq. revert H. apply Qabs_case; intros; lra.
Qed.

Lemma div_two_power (q : Q) (e : Z) :
  (e <= 0)%Z -> q / 2 ^ e == q * inject_Z (2 ^ (- e)).
Proof.
  intros He. pose proof (two_power_neg e He) as H.
  pose proof (two_power_pos e) as Hp.
  assert (Hinv : / 2 ^ e == inject_Z (2 ^ (- e))).
  { apply (Qmult_inj_l _ _ (2 ^ e)); [lra|].
    rewrite Qmult_inv_r by lra. by rewrite H. }
  unfold Qdiv. by rewrite Hinv.
Qed.

Lemma two_power_split (a e : Z) : 2 ^ (a + e) == 2 ^ a * 2 ^ e.
Proof. by apply Qpower_plus. Qed.

Lemma two_power_ge_1 (e : Z) : (0 <= e)%Z -> 1 <= 2 ^ e.
Proof.
  intros He. change 1 with (2 ^ 0). by apply Qpower_le_compat_l.
Qed.

(** Below [2^34] an integer bound is kept by the rounding. *)
Lemma to_double_le_int (q : Q) (N : Z) :
  (- 17179869184 < N < 17179869184)%Z ->
  q <= inject_Z N -> to_double q <= inject_Z N.
Proof.
  intros HN Hq.
  assert (HNq : - 17179869184 < inject_Z N /\ inject_Z N < 17179869184).
  { split.
    - change (- 17179869184) with (inject_Z (- 17179869184)).
      rewrite <- Zlt_Qlt. lia.
    - change 17179869184 with (inject_Z 17179869184).
      rewrite <- Zlt_Qlt. lia. }
  destruct (to_double_cases q) as [[H0 ->]|(Hne & e & Hlo & ->)]; [lra|].
  pose proof (two_power_pos e) as Hp.
  destruct (Z.le_gt_cases e 0) as [He|He].
  - set (s := (2 ^ (- e))%Z).
    assert (Hs : 2 ^ e * inject_Z s == 1) by (by apply two_power_neg).
    assert (Hs0 : 0 < inject_Z s).
    { change 0 with (inject_Z 0). rewrite <- Zlt_Qlt.
      subst s. apply Z.pow_pos_nonneg; lia. }
    assert (Hx : q / 2 ^ e <= inject_Z (N * s)).
    { rewrite div_two_power by done. fold s. rewrite inject_Z_mult.
      apply Qmult_le_compat_r; [exact Hq | lra]. }
    apply round_half_even_le in Hx. rewrite Zle_Qle, inject_Z_mult in Hx.
    set (r := inject_Z (round_half_even (q / 2 ^ e))) in *.
    set (p := 2 ^ e) in *. set (t := inject_Z s) in *.
    clearbody r p t. nra.
  - assert (H53 : 2 ^ 52 * 2 ^ e <= Qabs q).
    { by rewrite <- two_power_split. }
    assert (H1 : 1 <= 2 ^ e) by (apply two_power_ge_1; lia).
    change (2 ^ 52) with 4503599627370496 in H53.
    assert (Hx : q / 2 ^ e <= inject_Z (- 4503599627370496)).
    { apply Qle_shift_div_r; [done|].
      change (inject_Z (- 4503599627370496)) with (- 4503599627370496).
      set (p := 2 ^ e) in *. clearbody p.
      revert H53. apply Qabs_case; intros; nra. }
    apply round_half_even_le in Hx. rewrite Zle_Qle in Hx.
    change (inject_Z (- 4503599627370496)) with (- 4503599627370496) in Hx.
    set (r := inject_Z (round_half_even (q / 2 ^ e))) in *.
    set (p := 2 ^ e) in *. clearbody r p. nra.
Qed.

(** Below [2^34] a microsecond past an integer bound survives the
    rounding: the double next to the bound is less than a microsecond
    away. *)
Lemma to_double_gt_int (q : Q) (N : Z) :
  (- 17179869184 < N < 17179869184)%Z ->
  inject_Z N + (1 # 1000000) <= q -> inject_Z N < to_double q.
Proof.
  intros HN Hq.
  assert (HNq : - 17179869184 < inject_Z N /\ inject_Z N < 17179869184).
  { split.
    - change (- 17179869184) with (inject_Z (- 17179869184)).
      rewrite <- Zlt_Qlt. lia.
    - change 17179869184 with (inject_Z 17179869184).
      rewrite <- Zlt_Qlt. lia. }
  destruct (to_double_cases q) as [[H0 ->]|(Hne & e & Hlo & ->)]; [lra|].
  pose proof (two_power_pos e) as Hp.
  destruct (Z.le_gt_cases e (- 19)) as [He|He].
  - set (s := (2 ^ (- e))%Z).
    assert (Hs : 2 ^ e * inject_Z s == 1) by (apply two_power_neg; lia).
    assert (Hs19 : 524288 <= inject_Z s).
    { change 524288 with (inject_Z (2 ^ 19)). rewrite <- Zle_Qle.
      subst s. apply Z.pow_le_mono_r; lia. }
    assert (Hx : inject_Z (N * s) + (1 # 2) < q / 2 ^ e).
    { rewrite div_two_power by lia. fold s. rewrite inject_Z_mult.
      set (t := inject_Z s) in *. clearbody t. nra. }
    apply round_half_even_above in Hx.
    rewrite Zle_Qle, inject_Z_plus, inject_Z_mult in Hx.
    change (inject_Z 1) with 1 in Hx.
    set (r := inject_Z (round_half_even (q / 2 ^ e))) in *.
    set (p := 2 ^ e) in *. set (t := inject_Z s) in *.
    clearbody r p t. nra.
  - assert (H34 : 2 ^ 34 <= 2 ^ (52 + e))
      by (apply Qpower_le_compat_l; [lia | done]).
    change (2 ^ 34) with 17179869184 in H34.
    rewrite two_power_split in Hlo, H34.
    change (2 ^ 52) with 4503599627370496 in Hlo, H34.
    assert (Hx : inject_Z 4503599627370496 <= q / 2 ^ e).
    { apply Qle_shift_div_l; [done|].
      change (inject_Z 4503599627370496) with 4503599627370496.
      set (p := 2 ^ e) in *. clearbody p.
      revert Hlo. apply Qabs_case; intros; lra. }
    apply round_half_even_ge in Hx. rewrite Zle_Qle in Hx.
    change (inject_Z 4503599627370496) with 4503599627370496 in Hx.
    set (r := inject_Z (round_half_even (q / 2 ^ e))) in *.
    set (p := 2 ^ e) in *. clearbody r p. nra.
Qed.

Lemma to_double_nonpos (q : Q) : q <= 0 -> to_double q <= 0.
Proof.
  intros Hq.
  destruct (to_double_cases q) as [[H0 ->]|(Hne & e & Hlo & ->)]; [lra|].
  pose proof (two_power_pos e) as Hp.
  assert (Hx : q / 2 ^ e <= inject_Z 0).
  { apply Qle_shift_div_r; [done|]. change (inject_Z 0) with 0.
    set (p := 2 ^ e) in *. clearbody p. lra. }
  apply round_half_even_le in Hx. rewrite Zle_Qle in Hx.
  change (inject_Z 0) with 0 in Hx.
  set (r := inject_Z (round_half_even (q / 2 ^ e))) in *.
  set (p := 2 ^ e) in *. clearbody r p. nra.
Qed.

(** The comparison of [was_alert_sent_recent] for a cooldown below
    [2^34] seconds: exact to the microsecond. *)
Lemma seconds_within (d m : Z) :
  (- 17179869184 < m * 60 < 17179869184)%Z ->
  Qle_bool (total_seconds d) (inject_Z (m * 60)) = true
  <-> (d <= m * 60 * 1000000)%Z.
Proof.
  intros Hm. rewrite Qle_bool_iff. unfold total_seconds.
  assert (E : inject_Z (m * 60 * 1000000)
              == inject_Z (m * 60) * 1000000).
  { rewrite inject_Z_mult. reflexivity. }
  split.
  - intros H.
    destruct (Z.le_gt_cases d (m * 60 * 1000000)) as [|Hgt]; [done|].
    exfalso.
    assert (Hd : inject_Z (m * 60 * 1000000 + 1) <= inject_Z d)
      by (rewrite <- Zle_Qle; lia).
    rewrite inject_Z_plus, E in Hd. change (inject_Z 1) with 1 in Hd.
    assert (Hq : inject_Z (m * 60) + (1 # 1000000)
                 <= inject_Z d / 1000000).
    { apply Qle_shift_div_l; [done|]. lra. }
    pose proof (to_double_gt_int _ _ Hm Hq). lra.
  - intros H. apply to_double_le_int; [done|].
    apply Qle_shift_div_r; [done|].
    rewrite Zle_Qle, E in H. exact H.
Qed.

(** A timestamp that is not before the clock is within every cooldown
    that is not negative. *)
Lemma seconds_not_elapsed (d m : Z) :
  (d <= 0)%Z -> (0 <= m)%Z ->
  Qle_bool (total_seconds d) (inject_Z (m * 60)) = true.
Proof.
  intros Hd Hm. apply Qle_bool_iff. unfold total_seconds.
  assert (H : to_double (inject_Z d / 1000000) <= 0).
  { apply to_double_nonpos. apply Qle_shift_div_r; [done|].
    rewrite Zle_Qle in Hd. change (inject_Z 0) with 0 in Hd. lra. }
  assert (0 <= inject_Z (m * 60)).
  { change 0 with (inject_Z 0). rewrite <- Zle_Qle. lia. }
  lra.
Qed.

(** The run on a store that holds a parsable record for the symbol. *)
Lemma recent_with_record env symbol minutes w m s ts :
  alerts_file w = Some (Doc (JObj m)) ->
  m !! symbol = Some (JStr s) ->
  fromisoformat env s = Some ts ->
  was_alert_sent_recent env symbol minutes w
  = (Ok (Qle_bool (total_seconds (utcnow env (ticks w) - 0 - (wall ts - 0)))
           (inject_Z (minutes * 60))),
     ticked w).
Proof.
  intros Hf Hm Hs. unfold was_alert_sent_recent.
  unfold mbind at 1, M_bind at 1, read_alerts. rewrite Hf. simpl.
  unfold lift, mbind, M_bind. simpl. rewrite Hm. simpl.
  unfold py_fromisoformat. by rewrite Hs.
Qed.

Lemma recent_without_record env symbol minutes w :
  alerts_file w = None \/ alerts_file w = Some Unparsable \/
  (exists m, alerts_file w = Some (Doc (JObj m)) /\ m !! symbol = None) ->
  was_alert_sent_recent env symbol minutes w = (Ok false, w).
Proof.
  intros H. unfold was_alert_sent_recent.
  unfold mbind at 1, M_bind at 1, read_alerts.
  destruct H as [-> | [-> | (m & -> & Hm)]]; try reflexivity.
  simpl. unfold lift, mbind, M_bind. simpl. by rewrite Hm.
Qed.




(** A store that is not there, or that [json.load] rejects, reads as no
    record. *)
Lemma recent_fail_open env symbol minutes w :
  alerts_file w = None \/ alerts_file w = Some Unparsable ->
  was_alert_sent_recent env symbol minutes w = (Ok false, w).
Proof. intros H. apply recent_without_record. tauto. Qed.

(** C6, on the code.  The store parses and its record for the symbol is
    the number 1700000000 instead of an ISO string:
    [was_alert_sent_recent] raises the [TypeError] of
    [datetime.fromisoformat]; it does not return [False].  The same with a
    store that is the JSON [null]: [symbol not in data] raises. *)
Theorem corrupt_store_raises (env : Env) (minutes : Z) :
  was_alert_sent_recent env "NIFTY" minutes
    (world_of [] (Some (Doc (JObj {[ "NIFTY"%string := JNum 1700000000 ]}))))
  = (Raise (Exn TypeError "fromisoformat: argument must be str"),
     world_of [] (Some (Doc (JObj {[ "NIFTY"%string := JNum 1700000000 ]}))))
  /\
  was_alert_sent_recent env "NIFTY" minutes (world_of [] (Some (Doc JNull)))
  = (Raise (Exn TypeError "argument is not iterable"),
     world_of [] (Some (Doc JNull))).
Proof. split; reflexivity. Qed.

(** ** What the steps of the cycle leave alone *)

Lemma preserves_ret {X A} (f : World -> X) (a : A) :
  preserves f (mret a : M A).
Proof. by intros w. Qed.

Lemma preserves_raise {X A} (f : World -> X) e :
  preserves f (raise e : M A).
Proof. by intros w. Qed.

Lemma preserves_lift {X A} (f : World -> X) (r : result A) :
  preserves f (lift r).
Proof. by intros w. Qed.

Lemma preserves_bind {X A B} (f : World -> X) (m : M A) (k : A -> M B) :
  preserves f m -> (forall a, preserves f (k a)) -> preserves f (m ≫= k).
Proof.
  intros Hm Hk w. unfold mbind, M_bind. specialize (Hm w).
  destruct (m w) as [[a|e] w1]; simpl in *; [|done].
  by rewrite (Hk a w1).
Qed.

Lemma preserves_try {X A} (f : World -> X) (m : M A) (h : exn -> M A) :
  preserves f m -> (forall e, preserves f (h e)) ->
  preserves f (try_except m h).
Proof.
  intros Hm Hh w. unfold try_except. specialize (Hm w).
  destruct (m w) as [[a|e] w1]; simpl in *; [done|].
  by rewrite (Hh e w1).
Qed.

Lemma preserves_recent {X} (f : World -> X) env symbol minutes :
  (forall w, f (ticked w) = f w) ->
  preserves f (was_alert_sent_recent env symbol minutes).
Proof.
  intros Htick. unfold was_alert_sent_recent.
  apply preserves_bind; [by intros w|]. intros [file|]; [|by intros w].
  destruct (json_load file) as [data|e]; [|by intros w].
  apply preserves_bind; [apply preserves_lift|]. intros present.
  destruct (negb present); [by intros w|].
  apply preserves_bind; [apply preserves_lift|]. intros v.
  apply preserves_bind; [apply preserves_lift|]. intros last_ts.
  apply preserves_bind.
  { apply preserves_bind; [exact Htick|]. intros n. by intros w. }
  intros now. apply preserves_bind; [apply preserves_lift|]. intros d.
  by intros w.
Qed.

(** ** Recording an alert *)

Lemma persist_alert_ok symbol ts w :
  mapping_store (alerts_file w) = true ->
  let record :=
    Doc (JObj (<[symbol := JStr ts]> (store_mapping (alerts_file w)))) in
  persist_alert symbol ts w
  = (Ok tt, {| heap := heap w; alerts_file := Some record;
               ticks := ticks w; trace := trace w ++ [EvWrite record] |}).
Proof.
  intros Hm record. subst record. unfold persist_alert.
  unfold mbind at 1, M_bind at 1, read_alerts.
  destruct (alerts_file w) as [[|[| | | | |m]]|]; try discriminate;
    reflexivity.
Qed.

Lemma lift_bind_ok {A B} (r : result A) (k : A -> M B) a w :
  r = Ok a -> (lift r ≫= k) w = k a w.
Proof. intros ->. reflexivity. Qed.

(** X26.  In the loop body of [run_check], for a report whose [signal] is
    true and a symbol the cooldown does not suppress: when
    [send_telegram_message] returned [True] the body goes on as
    [persist_alert] with the clock read after the delivery; when it
    returned [False] or raised, the body returns with the alerts file as it
    was and nothing written.  On a store that is absent, unparsable or a
    mapping, the file is written, with the symbol's record set to that
    clock reading, exactly when the delivery returned [True]. *)
Theorem record_iff_delivered (env : Env) (cfg : Config) (symbol : string)
  (sig : gmap string pyval) (w w1 : World) (msg : string) :
  sig !! "signal" = Some (PBool true) ->
  was_alert_sent_recent env symbol (alert_minutes_lockout cfg) w
  = (Ok false, w1) ->
  compose_message env symbol sig = Ok msg ->
  let attempt :=
    send_telegram_message env (telegram_bot_token cfg)
      (telegram_chat_id cfg) msg w1 in
  let sent := returned_true (fst attempt) in
  let ts :=
    isoformat env {| wall := utcnow env (ticks (snd attempt));
                     tzinfo := Some 0%Z |} in
  let record :=
    Doc (JObj (<[symbol := JStr ts]> (store_mapping (alerts_file w)))) in
  (sent = true ->
   alert_if_fresh env cfg symbol sig w
   = persist_alert symbol ts (ticked (snd attempt))) /\
  (sent = false ->
   exists w',
     alert_if_fresh env cfg symbol sig w = (Ok tt, w') /\
     alerts_file w' = alerts_file w /\
     writes (trace w') = writes (trace w)) /\
  (mapping_store (alerts_file w) = true ->
   exists w',
     alert_if_fresh env cfg symbol sig w = (Ok tt, w') /\
     alerts_file w' = (if sent then Some record else alerts_file w) /\
     writes (trace w')
     = writes (trace w) ++ (if sent then [record] else [])).
Proof.
  intros Hsig Hrecent Hmsg attempt sent ts record.
  pose proof (preserves_recent alerts_file env symbol
                (alert_minutes_lockout cfg) ltac:(done) w) as Hfile.
  pose proof (preserves_recent trace env symbol
                (alert_minutes_lockout cfg) ltac:(done) w) as Htrace.
  rewrite Hrecent in Hfile, Htrace. simpl in Hfile, Htrace.
  assert (Hrun : alert_if_fresh env cfg symbol sig w
                 = if sent then persist_alert symbol ts (ticked (snd attempt))
                   else (Ok tt, match fst attempt with
                                | Raise e =>
                                    snd (emit (EvStError
                                                 ("Telegram send error for "
                                                  ++ symbol ++ ": "
                                                  ++ str_exn e))
                                           (snd attempt))
                                | Ok _ => snd attempt
                                end)).
  { unfold alert_if_fresh. rewrite Hsig.
    change (truthy (default (PBool false) (Some (PBool true)))) with true.
    cbv iota. rewrite (bind_ok _ _ _ _ _ Hrecent).
    change (negb false) with true. cbv iota.
    rewrite (lift_bind_ok _ _ _ _ Hmsg).
    unfold mbind at 1, M_bind at 1, try_except.
    subst sent ts. fold attempt.
    destruct attempt as [[[|]|e] w2]; reflexivity. }
  assert (Hsend : alerts_file (snd attempt) = alerts_file w /\
                  writes (trace (snd attempt)) = writes (trace w)).
  { subst attempt.
    destruct (send_cases env (telegram_bot_token cfg) (telegram_chat_id cfg)
                msg w1) as [[_ Hr]|(_ & extra & Hr & Hw & _)]; rewrite Hr.
    - simpl. by rewrite Hfile, Htrace.
    - simpl. rewrite !writes_app, Hw, Hfile, Htrace. simpl.
      by rewrite !app_nil_r. }
  destruct Hsend as [Hf2 Ht2].
  assert (Hquiet : sent = false ->
                   exists w', alert_if_fresh env cfg symbol sig w = (Ok tt, w')
                              /\ alerts_file w' = alerts_file w
                              /\ writes (trace w') = writes (trace w)).
  { intros Hs. rewrite Hrun, Hs. eexists. split; [reflexivity|].
    destruct (fst attempt) as [b|e]; simpl; [done|].
    rewrite writes_app, Hf2, Ht2. simpl. by rewrite app_nil_r. }
  split; [|split].
  - intros Hs. by rewrite Hrun, Hs.
  - exact Hquiet.
  - intros Hstore. destruct sent eqn:Hs.
    + rewrite Hrun. rewrite persist_alert_ok by (simpl; by rewrite Hf2).
      eexists. split; [reflexivity|]. simpl.
      rewrite writes_app, Hf2, Ht2. done.
    + destruct (Hquiet eq_refl) as (w' & Hr & Hf & Ht).
      exists w'. by rewrite app_nil_r.
Qed.

Lemma record_iff_delivered_witness :
  exists w',
    alert_if_fresh (demo_env breakout 200 1700000000000000)
      (demo_cfg ["NIFTY"%string]) "NIFTY" breakout_report (world_of [] None)
    = (Ok tt, w') /\
    alerts_file w'
    = Some (Doc (JObj {[ "NIFTY"%string
                         := JStr "2023-11-14T22:13:20+00:00" ]})) /\
    writes (trace w')
    = [Doc (JObj {[ "NIFTY"%string
                    := JStr "2023-11-14T22:13:20+00:00" ]})].
Proof.
  destruct (record_iff_delivered (demo_env breakout 200 1700000000000000)
              (demo_cfg ["NIFTY"%string]) "NIFTY" breakout_report
              (world_of [] None) (world_of [] None) "NIFTY"
              eq_refl eq_refl eq_refl)
    as (_ & _ & Hstore).
  destruct (Hstore eq_refl) as (w' & Hrun & Hfile & Hwrites).
  exists w'. split; [exact Hrun|]. rewrite Hfile, Hwrites.
  split; reflexivity.
Defined.

(** C4, on the code.  The alerts file holds the JSON list [[]], which
    parses and is not an object.  NIFTY signals, no record suppresses
    it, the message is delivered with status 200, and [persist_alert]
    raises the [TypeError] of [data[symbol] = ts]: the delivery is not
    recorded, the file is as it was and never written, the exception
    leaves [run_check] and BANKNIFTY is not fetched.  The next cycle
    alerts again. *)
Theorem delivered_and_not_recorded :
  let store := Some (Doc (JArr [])) in
  let run :=
    run_check (demo_env breakout 200 1700000000000000)
      (demo_cfg ["NIFTY"; "BANKNIFTY"]%string) (world_of [] store) in
  fst (was_alert_sent_recent (demo_env breakout 200 1700000000000000)
         "NIFTY" 30 (world_of [] store)) = Ok false /\
  delivered (http_post (demo_env breakout 200 1700000000000000) 1%nat
               "https://api.telegram.org/bot123456:token/sendMessage"
               "42" "NIFTY") = true /\
  fst run = Raise (Exn TypeError "object does not support item assignment") /\
  posts (trace (snd run))
  = [("https://api.telegram.org/bot123456:token/sendMessage"%string,
      "42"%string, "NIFTY"%string)] /\
  writes (trace (snd run)) = [] /\
  alerts_file (snd run) = store /\
  fetched (trace (snd run)) = ["NIFTY"%string].
Proof. vm_compute. repeat split; reflexivity. Qed.

(** ** The cycle: claim C7 *)

(** C7, on the code.  Two symbols are watched, the provider hands out the
    breakout frame, and the stored record of the first symbol is a number:
    the [TypeError] that [was_alert_sent_recent] raises leaves
    [run_check]; no list of results is returned and the second symbol is
    not fetched. *)
Theorem corrupt_record_escapes_run_check :
  let run :=
    run_check (demo_env breakout 200 1700000000000000)
      (demo_cfg ["NIFTY"; "BANKNIFTY"]%string) (world_of [] epoch_store) in
  fst run = Raise (Exn TypeError "fromisoformat: argument must be str") /\
  trace (snd run) = [EvFetch "NIFTY"].
Proof. vm_compute. split; reflexivity. Qed.

(** *** The cycle on a clean store

    What [run_check] does when nothing is wrong with the store: the part
    of C7 that holds. *)

Lemma recent_returns env symbol minutes w :
  clean_store env (alerts_file w) ->
  exists b w',
    was_alert_sent_recent env symbol minutes w = (Ok b, w') /\
    alerts_file w' = alerts_file w.
Proof.
  intros Hc. destruct (alerts_file w) as [[|[| | | | |m]]|] eqn:Hf;
    simpl in Hc; try done.
  - exists false, w. split; [|done]. apply recent_without_record. tauto.
  - destruct (m !! symbol) as [v|] eqn:Hm.
    + destruct (Hc _ _ Hm) as (s & ts & -> & Hs).
      eexists _, _. split; [by eapply recent_with_record|]. simpl. done.
    + exists false, w. split; [|done]. apply recent_without_record.
      right. right. by exists m.
  - exists false, w. split; [|done]. apply recent_without_record. tauto.
Qed.

Lemma persist_keeps_clean env symbol d w :
  is_Some (fromisoformat env (isoformat env d)) ->
  clean_store env (alerts_file w) ->
  exists w',
    persist_alert symbol (isoformat env d) w = (Ok tt, w') /\
    clean_store env (alerts_file w').
Proof.
  intros Hiso Hc.
  assert (Hm : mapping_store (alerts_file w) = true).
  { by destruct (alerts_file w) as [[|[| | | | |m]]|]. }
  eexists. split; [by apply persist_alert_ok|]. simpl.
  intros k v. destruct (decide (k = symbol)) as [->|Hne].
  - rewrite lookup_insert_eq. intros [= <-].
    destruct Hiso as [ts Hts]. by exists (isoformat env d), ts.
  - rewrite lookup_insert_ne by done.
    destruct (alerts_file w) as [[|[| | | | |m]]|]; simpl in *; try done.
    apply Hc.
Qed.

Lemma alert_if_fresh_returns env cfg symbol sig w :
  (forall n, is_Some (fromisoformat env
                         (isoformat env {| wall := utcnow env n;
                                           tzinfo := Some 0%Z |}))) ->
  clean_store env (alerts_file w) ->
  (truthy (default (PBool false) (sig !! "signal")) = true ->
   exists msg, compose_message env symbol sig = Ok msg) ->
  exists w',
    alert_if_fresh env cfg symbol sig w = (Ok tt, w') /\
    clean_store env (alerts_file w').
Proof.
  intros Hiso Hc Hmsg. unfold alert_if_fresh.
  destruct (truthy _); [|by exists w].
  destruct (Hmsg eq_refl) as [msg Em].
  destruct (recent_returns env symbol (alert_minutes_lockout cfg) w Hc)
    as (b & w1 & Hr & Hf1).
  rewrite (bind_ok _ _ _ _ _ Hr).
  destruct b; cbn [negb].
  { exists w1. split; [done|]. by rewrite Hf1. }
  rewrite (lift_bind_ok _ _ _ _ Em).
  unfold mbind at 1, M_bind at 1, try_except.
  destruct (send_cases env (telegram_bot_token cfg) (telegram_chat_id cfg)
              msg w1) as [[_ Hs]|(_ & extra & Hs & _ & _)]; rewrite Hs.
  - simpl. eexists. split; [reflexivity|]. simpl. by rewrite Hf1.
  - destruct (delivered _).
    + unfold mbind at 1, M_bind at 1, now_utc.
      unfold mbind at 1, M_bind at 1, tick. cbn [mret M_ret].
      apply persist_keeps_clean; [apply Hiso|]. simpl. by rewrite Hf1.
    + simpl. eexists. split; [reflexivity|]. simpl. by rewrite Hf1.
Qed.

Lemma preserves_getcol {X} (f : World -> X) l key :
  preserves f (getcol l key).
Proof.
  apply preserves_bind; [intros w; unfold deref; by destruct (heap w !! l)|].
  intros df. destruct (columns df !! key);
    [apply preserves_lift | apply preserves_raise].
Qed.

Lemma preserves_setcol {X} (f : World -> X) l key s :
  (forall h w, f (set_heap h w) = f w) -> preserves f (setcol l key s).
Proof.
  intros Hf. apply preserves_bind;
    [intros w; unfold deref; by destruct (heap w !! l)|].
  intros df w. apply Hf.
Qed.

Lemma preserves_detect {X} (f : World -> X) df_ref :
  (forall h w, f (set_heap h w) = f w) ->
  preserves f (detect_momentum_signal df_ref).
Proof.
  intros Hf. destruct df_ref as [l|]; [|apply preserves_ret].
  assert (Hderef : forall l0, preserves f (deref l0)).
  { intros l0 w. unfold deref. by destruct (heap w !! l0). }
  unfold detect_momentum_signal.
  apply preserves_bind.
  { apply preserves_bind; [apply Hderef|]. intros ?. apply preserves_ret. }
  intros n. destruct (n <? 30)%nat; [apply preserves_ret|].
  apply preserves_bind.
  { unfold compute_all, df_copy, atr.
    repeat first
      [ apply preserves_ret
      | apply Hderef
      | apply preserves_getcol
      | by apply preserves_setcol
      | (intros w; apply Hf)
      | apply preserves_bind; [|intros ?] ]. }
  intros l'.
  repeat first
    [ apply preserves_lift
    | apply preserves_bind; [|intros ?]
    | apply Hderef ].
Qed.

Lemma detect_returns w l df :
  heap w !! l = Some df -> candle_frame df = true ->
  exists rep w',
    detect_momentum_signal (Some l) w = (Ok rep, w') /\
    rep !! "error" = None /\
    (rep = ∅ \/
     exists b c r t,
       rep !! "signal" = Some (PBool b) /\
       rep !! "ema_cross" = Some (PBool (fst c)) /\
       rep !! "vol_spike" = Some (PBool (fst (snd c))) /\
       rep !! "atr_spike" = Some (PBool (snd (snd c))) /\
       rep !! "rsi5" = Some (PFloat (fst r)) /\
       rep !! "close" = Some (PFloat (snd r)) /\
       rep !! "time" = Some (PStr t)).
Proof.
  intros Hl Hc.
  destruct (Nat.lt_ge_cases (length (index df)) 30) as [Hn|Hn].
  - exists ∅, w. split; [|split; [done | by left]].
    unfold detect_momentum_signal.
    rewrite (bind_ok _ _ _ _ _ (df_len_ok _ _ _ Hl)).
    destruct (Nat.ltb_spec (length (index df)) 30); [done | lia].
  - destruct (detect_run w l df Hl Hc Hn)
      as (tl & tp & x & y & _ & _ & _ & _ & _ & _ & _ & _ & _ & Hd).
    eexists _, _. split; [exact Hd|]. split; [by simplify_map_eq|]. right.
    exists (signal_of (conditions_from x y)),
      (c_ema_cross (conditions_from x y), (r_vol_spike x, r_atr_spike x)),
      (r_rsi5 x, r_close x), tl.
    simpl. repeat split; by simplify_map_eq.
Qed.

Lemma fetch_candles_run env symbol w :
  let w1 := {| heap := heap w; alerts_file := alerts_file w;
               ticks := S (ticks w);
               trace := trace w ++ [EvFetch symbol] |} in
  fetch_candles env symbol w
  = match provider env (ticks w) symbol with
    | Ok (Some df) =>
        (Ok (Some (fresh (dom (heap w)))),
         set_heap (<[fresh (dom (heap w)) := df]> (heap w)) w1)
    | Ok None => (Ok None, w1)
    | Raise e => (Raise e, w1)
    end.
Proof.
  unfold fetch_candles, mbind, M_bind, tick, emit, alloc. simpl.
  by destruct (provider env (ticks w) symbol) as [[df|]|e].
Qed.

Lemma check_symbol_returns env cfg symbol results w :
  (forall n s df, provider env n s = Ok (Some df) -> candle_frame df = true) ->
  (forall n, is_Some (fromisoformat env
                         (isoformat env {| wall := utcnow env n;
                                           tzinfo := Some 0%Z |}))) ->
  clean_store env (alerts_file w) ->
  exists r w',
    check_symbol env cfg symbol results w = (Ok (results ++ [r]), w') /\
    clean_store env (alerts_file w') /\
    r !! "symbol" = Some (PStr symbol) /\
    match provider env (ticks w) symbol with
    | Raise e => r = error_entry symbol e
    | Ok _ => r !! "error" = None
    end.
Proof.
  intros Hprov Hiso Hc. unfold check_symbol.
  unfold mbind at 1, M_bind at 1, try_except.
  unfold mbind at 1, M_bind at 1. rewrite fetch_candles_run.
  destruct (provider env (ticks w) symbol) as [[df|]|e] eqn:Ep;
    cbn [mret M_ret].
  - (* a frame *)
    set (l := fresh (dom (heap w))).
    set (w2 := set_heap _ _).
    assert (Hl : heap w2 !! l = Some df) by apply lookup_insert_eq.
    destruct (detect_returns w2 l df Hl (Hprov _ _ _ Ep))
      as (rep & w3 & Hd & Herr & Hshape).
    rewrite (bind_ok _ _ _ _ _ Hd).
    pose proof (preserves_detect alerts_file (Some l) ltac:(done) w2) as Hf.
    rewrite Hd in Hf. simpl in Hf.
    destruct (alert_if_fresh_returns env cfg symbol
                (<["symbol" := PStr symbol]> rep) w3 Hiso)
      as (w4 & Ha & Hc4).
    { by rewrite Hf. }
    { destruct Hshape as [->|(b & c & r & t & H1 & H2 & H3 & H4 & H5 & H6 & H7)].
      - by rewrite lookup_insert_ne, lookup_empty.
      - intros _. unfold compose_message, dict_get.
        rewrite !lookup_insert_ne by done.
        rewrite H2, H3, H4, H5, H6, H7. by eexists. }
    rewrite (bind_ok _ _ _ _ _ Ha).
    eexists _, _. split; [reflexivity|]. split; [exact Hc4|].
    split; [apply lookup_insert_eq|]. by rewrite lookup_insert_ne.
  - (* no frame *)
    unfold detect_momentum_signal.
    unfold mbind at 1, M_bind at 1. cbn [mret M_ret].
    unfold alert_if_fresh. rewrite lookup_insert_ne, lookup_empty by done.
    cbn. eexists _, _. split; [reflexivity|]. split; [exact Hc|].
    split; [apply lookup_insert_eq|]. by rewrite lookup_insert_ne.
  - (* the fetch raised *)
    cbn. eexists _, _. split; [reflexivity|]. split; [exact Hc|].
    split; [apply lookup_insert_eq | reflexivity].
Qed.

Lemma run_loop_returns env cfg syms :
  (forall n s df, provider env n s = Ok (Some df) -> candle_frame df = true) ->
  (forall n, is_Some (fromisoformat env
                         (isoformat env {| wall := utcnow env n;
                                           tzinfo := Some 0%Z |}))) ->
  forall results w,
    clean_store env (alerts_file w) ->
    exists entries w',
      run_loop env cfg syms results w = (Ok (results ++ entries), w') /\
      length entries = length syms /\
      forall i s, syms !! i = Some s ->
        exists r n,
          entries !! i = Some r /\
          r !! "symbol" = Some (PStr s) /\
          match provider env n s with
          | Raise e => r = error_entry s e
          | Ok _ => r !! "error" = None
          end.
Proof.
  intros Hprov Hiso. induction syms as [|s syms IH]; intros results w Hc.
  - exists [], w. rewrite app_nil_r. split; [done|]. split; [done|].
    intros i s Hi. by rewrite lookup_nil in Hi.
  - destruct (check_symbol_returns env cfg s results w Hprov Hiso Hc)
      as (r & w1 & Hstep & Hc1 & Hsym & Hout).
    destruct (IH (results ++ [r]) w1 Hc1) as (entries & w' & Hrun & Hlen & Hall).
    exists (r :: entries), w'. simpl.
    rewrite (bind_ok _ _ _ _ _ Hstep), Hrun.
    split; [by rewrite <- app_assoc|]. split; [by rewrite Hlen|].
    intros [|i] s' Hi; simpl in Hi.
    + injection Hi as <-. by exists r, (ticks w).
    + by apply Hall.
Qed.

(** X23.  On a store that is absent, unparsable, or a mapping whose records
    [fromisoformat] reads, with a provider whose frames are candle frames
    and a clock whose renderings [fromisoformat] reads back, [run_check]
    returns one entry per watched symbol, in list order; the entry of a
    symbol whose fetch raised is its error entry, and the symbols after it
    are processed. *)
Lemma run_check_entries env cfg w :
  (forall n s df, provider env n s = Ok (Some df) -> candle_frame df = true) ->
  (forall n, is_Some (fromisoformat env
                         (isoformat env {| wall := utcnow env n;
                                           tzinfo := Some 0%Z |}))) ->
  clean_store env (alerts_file w) ->
  exists results w',
    run_check env cfg w = (Ok results, w') /\
    length results = length (symbols cfg) /\
    forall i s, symbols cfg !! i = Some s ->
      exists r n,
        results !! i = Some r /\
        r !! "symbol" = Some (PStr s) /\
        match provider env n s with
        | Raise e => r = error_entry s e
        | Ok _ => r !! "error" = None
        end.
Proof.
  intros Hprov Hiso Hc. unfold run_check.
  destruct (run_loop_returns env cfg (symbols cfg) Hprov Hiso [] w Hc)
    as (entries & w' & Hrun & Hlen & Hall).
  by exists entries, w'.
Qed.


Lemma run_check_entries_demo :
  exists results w',
    run_check (demo_env breakout 200 1700000000000000)
      (demo_cfg ["NIFTY"; "BANKNIFTY"]%string) (world_of [] None)
    = (Ok results, w') /\
    length results = 2%nat.
Proof.
  pose proof (run_check_entries (demo_env breakout 200 1700000000000000)
              (demo_cfg ["NIFTY"; "BANKNIFTY"]%string) (world_of [] None)) as H.
  assert (H1 : forall n s df, provider (demo_env breakout 200 1700000000000000) n s = Ok (Some df) -> candle_frame df = true).
  { intros n s df E. simpl in E. injection E as <-. vm_compute. reflexivity. }
  assert (H2 : forall n, is_Some (fromisoformat (demo_env breakout 200 1700000000000000)
                         (isoformat (demo_env breakout 200 1700000000000000) {| wall := utcnow (demo_env breakout 200 1700000000000000) n;
                                           tzinfo := Some 0%Z |}))).
  { intros n. vm_compute. by eexists. }
  specialize (H H1 H2 I).
  destruct H as (results & w' & Hrun & Hlen & _).
  exists results, w'. split; [exact Hrun|exact Hlen].
Defined.

(** One cycle on the breakout frame with an empty store: one entry with
    the signal, one post, one record; a second cycle five minutes later
    still reports the signal and posts nothing more. *)
Example run_check_delivers_once :
  let env := demo_env breakout 200 1700000000000000 in
  let later := demo_env breakout 200 1700000300000000 in
  let cfg := demo_cfg ["NIFTY"%string] in
  let record :=
    Some (Doc (JObj {[ "NIFTY"%string
                       := JStr "2023-11-14T22:13:20+00:00" ]})) in
  let post := ("https://api.telegram.org/bot123456:token/sendMessage"%string,
               "42"%string, "NIFTY"%string) in
  let entries (r : result (list (gmap string pyval))) :=
    match r with
    | Ok l => Some (map (fun e => (e !! "symbol", e !! "signal")) l)
    | Raise _ => None
    end in
  let first := run_check env cfg (world_of [] None) in
  let second := run_check later cfg (snd first) in
  entries (fst first) = Some [(Some (PStr "NIFTY"), Some (PBool true))] /\
  posts (trace (snd first)) = [post] /\
  alerts_file (snd first) = record /\
  entries (fst second) = Some [(Some (PStr "NIFTY"), Some (PBool true))] /\
  posts (trace (snd second)) = [post] /\
  alerts_file (snd second) = record.
Proof.
  intros env later cfg record post entries first second.
  repeat split; vm_compute; reflexivity.
Qed.

(** The repository's own [fetch_candles] outside demo mode: every fetch
    raises, every symbol gets its error entry, and the store, corrupt as it
    may be, is not read. *)
Example run_check_placeholder_provider :
  let env :=
    with_provider (shipped_provider false (fun _ => Ok breakout))
      (demo_env breakout 200 1700000000000000) in
  let e :=
    Exn RuntimeError
      "fetch_candles: You must implement the data fetch logic for your provider. Set demo_mode true in config.json to test UI." in
  fst (run_check env (demo_cfg ["NIFTY"; "BANKNIFTY"]%string)
         (world_of [] epoch_store))
  = Ok [error_entry "NIFTY" e; error_entry "BANKNIFTY" e].
Proof. vm_compute. reflexivity. Qed.

(* ===================================================================== *)
(** * Further properties *)
(* ===================================================================== *)

(** ** The exponential mean *)


Lemma ewm_out_seeded st : (1 <= nobs st)%nat -> ewm_out 1 st = weighted st.
Proof.
  intros H. unfold ewm_out. by destruct (Nat.leb_spec 1 (nobs st)); [|lia].
Qed.




Lemma feqb_refl v : is_nan v = false -> feqb v v = true.
Proof.
  destruct v as [|s|z q]; [done| |]; intros _; unfold feqb, fcompare.
  - by rewrite eqb_reflx.
  - assert (E : (q ?= q) = Eq) by (by apply Qeq_alt). by rewrite E.
Qed.

(** A mean fed one value only, from the start or after a first cell that
    is not a number, gives that value back. *)
Lemma ewm_loop_const alpha v ys st :
  is_nan v = false -> is_inf v = false ->
  st = ewm_unseeded \/ (weighted st = v /\ (1 <= nobs st)%nat) ->
  Forall (fun x => x = v) ys ->
  Forall (fun x => x = v) (ewm_loop alpha 1 st ys).
Proof.
  intros Hv Hi HI.
  assert (Hp : prep_value v = v) by (unfold prep_value; by rewrite Hi).
  apply (ewm_loop_forall alpha 1
           (fun st => st = ewm_unseeded \/
                      (weighted st = v /\ (1 <= nobs st)%nat))
           (fun x => x = v) (fun x => x = v)); [|exact HI].
  clear st HI. intros st x HI ->.
  assert (G : weighted (ewm_step alpha st v) = v /\
              (1 <= nobs (ewm_step alpha st v))%nat).
  { destruct HI as [->|(Hw & Hn)].
    - unfold ewm_step, ewm_unseeded. rewrite Hp. cbn [weighted is_nan negb].
      rewrite Hv. cbn. split; [done|lia].
    - unfold ewm_step. rewrite Hp. cbv zeta. rewrite Hw, Hv. cbn [negb].
      unfold fneb. rewrite (feqb_refl v Hv). cbn. split; [done|lia]. }
  split; [right; exact G|]. rewrite ewm_out_seeded; apply G.
Qed.

Lemma Forall_eq_repeat {A} (v : A) (l : list A) :
  Forall (fun x => x = v) l -> l = repeat v (length l).
Proof. induction 1 as [|x l -> _ IH]; simpl; [done|]. by rewrite <- IH. Qed.

Lemma Forall_repeat {A} (v : A) (k : nat) : Forall (fun x => x = v) (repeat v k).
Proof. induction k; simpl; by constructor. Qed.

(** X3.  [ema] of a series that repeats one finite value is that series,
    cell for cell, for any span of one or more. *)
Theorem ema_constant (c : Q) (k : nat) (n : Z) :
  (1 <= n)%Z -> ema (repeat (fl c) k) n = repeat (fl c) k.
Proof.
  intros _. destruct k as [|k]; [done|]. unfold ema.
  cbn [repeat ewm_mean prep_value is_inf is_nan fl].
  f_equal.
  rewrite (Forall_eq_repeat (fl c) (ewm_loop _ _ _ _)).
  - by rewrite length_ewm_loop, repeat_length.
  - apply ewm_loop_const; [done | done | right; simpl; split; [done|lia] |].
    apply Forall_repeat.
Qed.

Lemma ema_constant_witness :
  ema (repeat (fl 100) 4) 21 = repeat (fl 100) 4.
Proof. apply (ema_constant 100 4 21). lia. Defined.

(** ** No look-ahead *)

Lemma ewm_loop_take alpha minp st k xs :
  ewm_loop alpha minp st (take k xs) = take k (ewm_loop alpha minp st xs).
Proof.
  revert st k. induction xs as [|x xs IH]; intros st [|k]; simpl; try done.
  by rewrite IH.
Qed.

Lemma causal_ewm_mean alpha : causal (ewm_mean alpha).
Proof.
  intros [|k] [|x xs]; simpl; try done. by rewrite ewm_loop_take.
Qed.

Lemma zip_with_f_take f k xs ys :
  zip_with_f f (take k xs) (take k ys) = take k (zip_with_f f xs ys).
Proof.
  unfold zip_with_f. by rewrite <- combine_firstn, firstn_map.
Qed.

Lemma shift_alt xs : shift xs = take (length xs) (NaN :: xs).
Proof.
  destruct xs as [|x xs]; [done|]. unfold shift.
  by rewrite removelast_firstn_len.
Qed.

Lemma shift_take k xs : shift (take k xs) = take k (shift xs).
Proof.
  rewrite !shift_alt, take_take, length_take.
  destruct (Nat.min k (length xs)) as [|m] eqn:E; [done|].
  simpl. f_equal. rewrite take_take. f_equal. lia.
Qed.

Lemma causal_diff : causal diff.
Proof.
  intros k xs. unfold diff. by rewrite shift_take, zip_with_f_take.
Qed.

Lemma rolling_loop_take n seen k xs :
  rolling_loop n seen (take k xs) = take k (rolling_loop n seen xs).
Proof.
  revert seen k. induction xs as [|x xs IH]; intros seen [|k]; simpl; try done.
  by rewrite IH.
Qed.

Lemma series_gt_take k xs ys :
  series_gt (take k xs) (take k ys) = take k (series_gt xs ys).
Proof. unfold series_gt. by rewrite <- combine_firstn, firstn_map. Qed.

Lemma row_max3_take k a b c :
  row_max3 (take k a) (take k b) (take k c) = take k (row_max3 a b c).
Proof.
  revert k b c. induction a as [|x a IH]; intros [|k] [|y b] [|z c];
    simpl; try done.
  all: try (by rewrite IH).
  all: try (by destruct (take k a)).
  all: try (by destruct (take k a), (take k b)).
Qed.

Lemma causal_ema n : causal (fun xs => ema xs n).
Proof. intros k xs. apply causal_ewm_mean. Qed.

Lemma causal_rsi n : causal (fun xs => rsi xs n).
Proof.
  intros k xs. unfold rsi, clip_lower, clip_upper, scale.
  rewrite causal_diff, <- !firstn_map, !causal_ewm_mean, zip_with_f_take.
  by rewrite firstn_map.
Qed.

Lemma causal_rolling_mean n : causal (rolling_mean n).
Proof. intros k xs. apply rolling_loop_take. Qed.

Lemma causal_volume_spike n m : causal (fun xs => volume_spike xs n m).
Proof.
  intros k xs. unfold volume_spike, scale.
  by rewrite causal_rolling_mean, <- firstn_map, series_gt_take.
Qed.

(** X4.  The indicators have no look-ahead: [ema], [rsi], the rolling mean
    and [volume_spike] on the first [k] cells of a series are the first [k]
    cells of what they give on the whole series. *)
Theorem indicators_causal (n : Z) (lookback : nat) (multiplier : Q) :
  (1 <= n)%Z -> (1 <= lookback)%nat ->
  causal (fun xs => ema xs n) /\
  causal (fun xs => rsi xs n) /\
  causal (rolling_mean lookback) /\
  causal (fun xs => volume_spike xs lookback multiplier).
Proof.
  intros _ _. split; [apply causal_ema|]. split; [apply causal_rsi|].
  split; [apply causal_rolling_mean | apply causal_volume_spike].
Qed.

Lemma indicators_causal_witness :
  causal (fun xs => ema xs 5) /\
  causal (fun xs => rsi xs 5) /\
  causal (rolling_mean 10) /\
  causal (fun xs => volume_spike xs 10 1.5).
Proof. apply (indicators_causal 5 10 1.5); lia. Defined.

Lemma floats_head_rows k df key :
  floats (head_rows k df) key = take k (floats df key).
Proof.
  unfold floats, head_rows. simpl. rewrite lookup_fmap.
  destruct (columns df !! key) as [[xs|bs]|]; simpl; try done;
    by rewrite take_nil.
Qed.

Lemma candle_head_rows k df :
  candle_frame df = true -> candle_frame (head_rows k df) = true.
Proof.
  unfold candle_frame. rewrite !forallb_forall. intros H key Hk.
  specialize (H key Hk). unfold numeric_column in *. simpl.
  rewrite lookup_fmap.
  destruct (columns df !! key) as [[xs|bs]|]; simpl in *; try done.
  apply Nat.eqb_eq in H. apply Nat.eqb_eq. rewrite !length_take. lia.
Qed.

Lemma atr_series_head_rows k df n :
  atr_series (head_rows k df) n = take k (atr_series df n).
Proof.
  unfold atr_series, series_abs. rewrite !floats_head_rows.
  rewrite shift_take, !zip_with_f_take, <- !firstn_map, row_max3_take.
  apply causal_ewm_mean.
Qed.

Lemma head_rows_with_col k key s df :
  head_rows k (with_col key s df)
  = with_col key (head_series k s) (head_rows k df).
Proof.
  unfold head_rows, with_col. simpl. f_equal. apply fmap_insert.
Qed.

Lemma indicator_frame_head_rows k df :
  indicator_frame (head_rows k df) = head_rows k (indicator_frame df).
Proof.
  unfold indicator_frame. rewrite !head_rows_with_col. simpl head_series.
  rewrite !floats_head_rows, atr_series_head_rows.
  rewrite (causal_ema 9), (causal_ema 21), (causal_rsi 5),
    (causal_volume_spike 10 1.5), !causal_rolling_mean.
  unfold scale. by rewrite <- !firstn_map, series_gt_take.
Qed.

(** X5.  [compute_all] has no look-ahead: on the first [k] rows of a
    candle frame it builds the first [k] rows of the frame it builds on
    the whole frame, so a row's indicators never depend on later rows. *)
Theorem compute_all_causal (w : World) (l l2 : loc) (df : DataFrame)
  (k : nat) :
  heap w !! l = Some df ->
  heap w !! l2 = Some (head_rows k df) ->
  candle_frame df = true ->
  exists l' w1 w2 frame,
    compute_all l w = (Ok l', w1) /\
    compute_all l2 w = (Ok l', w2) /\
    heap w1 !! l' = Some frame /\
    heap w2 !! l' = Some (head_rows k frame).
Proof.
  intros Hl Hl2 Hc.
  eexists _, _, _, _.
  split; [by apply compute_all_frame|].
  split; [apply compute_all_frame; [exact Hl2 | by apply candle_head_rows]|].
  split; [apply lookup_insert_eq|].
  simpl. rewrite lookup_insert_eq. by rewrite indicator_frame_head_rows.
Qed.

Lemma compute_all_causal_witness :
  exists l' w1 w2 frame,
    compute_all 0%nat (world_of [breakout; head_rows 20 breakout] None)
    = (Ok l', w1) /\
    compute_all 1%nat (world_of [breakout; head_rows 20 breakout] None)
    = (Ok l', w2) /\
    heap w1 !! l' = Some frame /\
    heap w2 !! l' = Some (head_rows 20 frame).
Proof.
  apply (compute_all_causal (world_of [breakout; head_rows 20 breakout] None)
           0%nat 1%nat breakout 20).
  - reflexivity.
  - reflexivity.
  - reflexivity.
Defined.

(** ** RSI at its edges *)

Lemma removelast_repeat {A} (v : A) k :
  removelast (repeat v (S k)) = repeat v k.
Proof.
  induction k as [|k IH]; [done|].
  change (repeat v (S (S k))) with (v :: repeat v (S k)).
  change (removelast (v :: repeat v (S k)))
    with (v :: removelast (repeat v (S k))).
  by rewrite IH.
Qed.

Lemma zip_with_f_repeat f (a b : float) k :
  zip_with_f f (repeat a k) (repeat b k) = repeat (f a b) k.
Proof. induction k as [|k IH]; [done|]. unfold zip_with_f in *. simpl. by rewrite IH. Qed.

Lemma map_repeat {A B} (f : A -> B) v k : map f (repeat v k) = repeat (f v) k.
Proof. induction k as [|k IH]; simpl; [done|]. by rewrite IH. Qed.

Lemma diff_repeat v k :
  diff (repeat v (S k)) = fsub v NaN :: repeat (fsub v v) k.
Proof.
  unfold diff, shift. change (repeat v (S k)) with (v :: repeat v k) at 1 2.
  cbv iota. rewrite removelast_repeat.
  change (zip_with_f fsub (v :: repeat v k) (NaN :: repeat v k))
    with (fsub v NaN :: zip_with_f fsub (repeat v k) (repeat v k)).
  by rewrite zip_with_f_repeat.
Qed.

Lemma ewm_mean_unseeded_const alpha v k :
  is_nan v = false -> is_inf v = false ->
  ewm_mean alpha (NaN :: repeat v k) = NaN :: repeat v k.
Proof.
  intros Hv Hi. rewrite ewm_mean_unseeded. f_equal.
  rewrite (Forall_eq_repeat v (ewm_loop _ _ _ _)).
  - by rewrite length_ewm_loop, repeat_length.
  - apply ewm_loop_const; [done | done | by left | apply Forall_repeat].
Qed.

Lemma rsi_first_cell x xs n : rsi (x :: xs) n !! 0%nat = Some NaN.
Proof.
  rewrite rsi_lookup. unfold rsi_ma_up, rsi_ma_down, diff.
  cbn [shift zip_with_f combine map fst snd].
  replace (fsub x NaN) with NaN by (by destruct x).
  reflexivity.
Qed.

Lemma rsi_flat c k n : rsi (repeat (fl c) k) n = repeat NaN k.
Proof.
  destruct k as [|k]; [done|].
  unfold rsi. rewrite diff_repeat.
  replace (fsub (fl c) NaN) with NaN by reflexivity.
  set (d := fsub (fl c) (fl c)).
  assert (Hd : is_nan d = false) by reflexivity.
  assert (Hup : clip_lower (fl 0) (NaN :: repeat d k) = NaN :: repeat d k).
  { unfold clip_lower. cbn [map is_nan orb]. rewrite map_repeat. do 2 f_equal.
    subst d. cbv [fsub fneg fadd fl fge fle fcompare is_nan orb].
    assert (E : (0 ?= c + - c) = Eq) by (apply Qeq_alt; ring).
    by rewrite E. }
  assert (Hdown : clip_upper (fl 0) (NaN :: repeat d k) = NaN :: repeat d k).
  { unfold clip_upper. cbn [map is_nan orb]. rewrite map_repeat. do 2 f_equal.
    subst d. cbv [fsub fneg fadd fl fle fcompare is_nan orb].
    assert (E : (c + - c ?= 0) = Eq) by (apply Qeq_alt; ring).
    by rewrite E. }
  rewrite Hup, Hdown. unfold scale. cbn [map]. rewrite map_repeat.
  replace (fmul (fl (-1)) NaN) with NaN by reflexivity.
  rewrite !ewm_mean_unseeded_const by done.
  change (zip_with_f fdiv (NaN :: repeat d k)
            (NaN :: repeat (fmul (fl (-1)) d) k))
    with (fdiv NaN NaN :: zip_with_f fdiv (repeat d k)
                            (repeat (fmul (fl (-1)) d) k)).
  rewrite zip_with_f_repeat. cbn [map]. rewrite map_repeat.
  change (repeat NaN (S k)) with (NaN :: repeat NaN k).
  f_equal. f_equal.
  assert (E : fdiv d (fmul (fl (-1)) d) = NaN).
  { subst d. cbv [fsub fneg fadd fl fmul fdiv].
    rewrite (Qeq_bool_true (-1 * (c + - c)) 0) by ring.
    by rewrite (Qeq_bool_true (c + - c) 0) by ring. }
  by rewrite E.
Qed.

(** X6.  Where [rsi] is not a number: its first cell, for any series, and
    every cell of a series that repeats one finite value (no move up and
    no move down: zero divided by zero).  [rsi_burst] is false there. *)
Theorem rsi_undefined_cells (n : Z) :
  (1 <= n)%Z ->
  (forall x xs, rsi (x :: xs) n !! 0%nat = Some NaN) /\
  (forall c k, rsi (repeat (fl c) k) n = repeat NaN k).
Proof.
  intros _. split; [intros; apply rsi_first_cell | intros; apply rsi_flat].
Qed.

Lemma rsi_undefined_cells_witness :
  (forall x xs, rsi (x :: xs) 5 !! 0%nat = Some NaN) /\
  (forall c k, rsi (repeat (fl c) k) 5 = repeat NaN k).
Proof. apply (rsi_undefined_cells 5). lia. Defined.

Lemma falling_tail q0 q1 rest :
  falling (q0 :: q1 :: rest) -> falling (q1 :: rest).
Proof. intros H i a b Ha Hb. exact (H (S i) a b Ha Hb). Qed.

Lemma falling_deltas q0 rest :
  falling (q0 :: rest) ->
  Forall neg_fin
    (zip_with_f fsub (map fl rest) (removelast (map fl (q0 :: rest)))).
Proof.
  revert q0. induction rest as [|q1 rest IH]; intros q0 Hr.
  - constructor.
  - change (removelast (map fl (q0 :: q1 :: rest)))
      with (fl q0 :: removelast (map fl (q1 :: rest))).
    change (zip_with_f fsub (map fl (q1 :: rest))
              (fl q0 :: removelast (map fl (q1 :: rest))))
      with (fsub (fl q1) (fl q0)
            :: zip_with_f fsub (map fl rest)
                 (removelast (map fl (q1 :: rest)))).
    constructor.
    + simpl. pose proof (Hr 0%nat q0 q1 eq_refl eq_refl). lra.
    + apply IH. by eapply falling_tail.
Qed.

Lemma clip_lower_neg xs :
  Forall neg_fin xs ->
  Forall (fun x => x = fl 0) (clip_lower (fl 0) xs).
Proof.
  intros H. unfold clip_lower. apply Forall_fmap.
  eapply Forall_impl; [exact H|]. intros x Hx. unfold compose.
  destruct x as [| |z q]; try done. simpl in Hx.
  cbv [fge fle fcompare fl is_nan orb].
  assert (E : (0 ?= q) = Gt) by (by apply Qgt_alt). by rewrite E.
Qed.

Lemma down_moves_neg xs :
  Forall neg_fin xs ->
  Forall pos_fin (scale (fl (-1)) (clip_upper (fl 0) xs)).
Proof.
  intros H. unfold scale, clip_upper. rewrite map_map.
  apply Forall_fmap. eapply Forall_impl; [exact H|].
  intros x Hx. unfold compose. destruct x as [| |z q]; try done.
  simpl in Hx. cbv [fle fcompare fl is_nan orb].
  assert (E : (q ?= 0) = Lt) by (by apply Qlt_alt). rewrite E.
  simpl. lra.
Qed.

(** No move up and a move down: the quotient is zero and the cell is 0. *)
Lemma rsi_cell_floor z b :
  0 < b ->
  has_value
    (fsub (fl 100) (fdiv (fl 100) (fadd (fl 1) (fdiv (fl 0) (Fin z b))))) 0.
Proof.
  intros Hb. cbv [fdiv fl]. rewrite (Qeq_bool_false b 0) by lra.
  cbv [fadd].
  assert (H0 : 0 / b == 0) by (unfold Qdiv; ring).
  assert (H1 : ~ 1 + 0 / b == 0) by (rewrite H0; lra).
  rewrite (Qeq_bool_false _ _ H1). cbv [fsub fneg fadd has_value].
  rewrite H0. reflexivity.
Qed.

Lemma rsi_falling qs n i :
  (1 <= n)%Z -> falling qs -> (1 <= i < length qs)%nat ->
  exists r, rsi (map fl qs) n !! i = Some r /\ has_value r 0.
Proof.
  intros Hn Hr [Hi1 Hi2]. destruct (alpha_bounds n Hn) as [Ha0 Ha1].
  destruct qs as [|q0 rest]; [simpl in Hi2; lia|].
  destruct i as [|j]; [lia|]. simpl in Hi2.
  pose proof (falling_deltas q0 rest Hr) as Hd.
  set (ds := zip_with_f fsub (map fl rest) (removelast (map fl (q0 :: rest))))
    in *.
  assert (Hlen : length ds = length rest).
  { subst ds. rewrite length_zip_with_f.
    change (map fl (q0 :: rest)) with (fl q0 :: map fl rest).
    rewrite removelast_firstn_len, length_firstn. simpl.
    rewrite !length_map. lia. }
  assert (Hdiff : diff (map fl (q0 :: rest)) = NaN :: ds) by reflexivity.
  rewrite rsi_lookup. unfold rsi_ma_up, rsi_ma_down. rewrite Hdiff.
  change (clip_lower (fl 0) (NaN :: ds)) with (NaN :: clip_lower (fl 0) ds).
  change (scale (fl (-1)) (clip_upper (fl 0) (NaN :: ds)))
    with (NaN :: scale (fl (-1)) (clip_upper (fl 0) ds)).
  rewrite !ewm_mean_unseeded. simpl.
  pose proof (ewm_loop_const (1 / inject_Z n) (fl 0) _ ewm_unseeded
                eq_refl eq_refl (or_introl eq_refl) (clip_lower_neg _ Hd))
    as Hup.
  pose proof (ewm_loop_pos _ _ Ha0 Ha1 (down_moves_neg _ Hd)) as Hdown.
  destruct (lookup_lt_is_Some_2
              (ewm_loop (1 / inject_Z n) 1 ewm_unseeded
                 (clip_lower (fl 0) ds)) j) as [u Hu].
  { unfold clip_lower. rewrite length_ewm_loop, length_map. lia. }
  destruct (lookup_lt_is_Some_2
              (ewm_loop (1 / inject_Z n) 1 ewm_unseeded
                 (scale (fl (-1)) (clip_upper (fl 0) ds))) j)
    as [d Hdd].
  { unfold scale, clip_upper. rewrite length_ewm_loop, !length_map. lia. }
  rewrite Hu, Hdd. eexists. split; [reflexivity|].
  rewrite (proj1 (Forall_lookup _ _) Hup j u Hu).
  pose proof (proj1 (Forall_lookup _ _) Hdown j d Hdd) as P.
  destruct d as [| |z b]; try done. by apply rsi_cell_floor.
Qed.

(** X7.  On closes that fall from each bar to the next, every cell of
    [rsi] after the first is 0: the mirror of the rising series. *)
Theorem rsi_falling_is_zero (qs : list Q) (n : Z) (i : nat) :
  (1 <= n)%Z -> falling qs -> (1 <= i < length qs)%nat ->
  exists r, rsi (map fl qs) n !! i = Some r /\ has_value r 0.
Proof. apply rsi_falling. Qed.

Lemma rsi_falling_is_zero_witness :
  exists r, rsi (map fl [4; 3; 2; 1]) 5 !! 2%nat = Some r /\ has_value r 0.
Proof.
  apply (rsi_falling_is_zero [4; 3; 2; 1] 5 2).
  - lia.
  - intros i a b Ha Hb.
    destruct i as [|[|[|[|i]]]]; simpl in Ha, Hb;
      try discriminate; injection Ha as <-; injection Hb as <-;
      reflexivity.
  - simpl. lia.
Defined.

(** ** The rolling mean and the spikes *)

Lemma rolling_loop_lookup n xs :
  forall seen i,
    (i < length xs)%nat ->
    rolling_loop n seen xs !! i
    = Some (window_mean n (drop (length seen + S i - n)
                             (seen ++ take (S i) xs))).
Proof.
  induction xs as [|x0 xs IH]; intros seen i Hi; simpl in Hi; [lia|].
  destruct i as [|j]; simpl.
  - rewrite take_0, length_app. reflexivity.
  - rewrite IH by lia. rewrite length_app, <- app_assoc. simpl.
    do 3 f_equal. lia.
Qed.

Lemma rolling_mean_lookup n xs i :
  (i < length xs)%nat ->
  rolling_mean n xs !! i
  = Some (window_mean n (drop (S i - n) (take (S i) xs))).
Proof.
  intros Hi. unfold rolling_mean. by rewrite rolling_loop_lookup.
Qed.

Lemma window_length n (xs : list float) i :
  (i < length xs)%nat ->
  length (drop (S i - n) (take (S i) xs)) = Nat.min (S i) n.
Proof. intros Hi. rewrite length_drop, length_take. lia. Qed.

Lemma window_mean_number n win :
  is_nan (window_mean n win) = false ->
  (n <= length win)%nat /\
  forall x, x ∈ win -> is_nan x || is_inf x = false.
Proof.
  unfold window_mean.
  destruct (Nat.ltb_spec (length win) n) as [|Hlen]; [done|].
  destruct (existsb (fun x => is_nan x || is_inf x) win) eqn:E; [done|].
  intros _. split; [exact Hlen|]. intros x Hx.
  destruct (is_nan x || is_inf x) eqn:Ex; [|done].
  assert (existsb (fun x => is_nan x || is_inf x) win = true); [|congruence].
  apply existsb_exists. exists x. split; [by apply list_elem_of_In | done].
Qed.

(** X8.  The rolling mean is a trailing window: at row [i] it looks at the
    last [n] of the first [i + 1] cells.  It has one cell per row; the
    cell is not a number until [n] rows are there, and whenever the
    window holds a cell that is not a number or is infinite. *)
Theorem rolling_mean_window (n : nat) (xs : list float) :
  (1 <= n)%nat ->
  length (rolling_mean n xs) = length xs /\
  (forall i, (i < length xs)%nat -> (S i < n)%nat ->
             rolling_mean n xs !! i = Some NaN) /\
  (forall i x, (i < length xs)%nat ->
               x ∈ drop (S i - n) (take (S i) xs) ->
               is_nan x || is_inf x = true ->
               rolling_mean n xs !! i = Some NaN) /\
  (forall i r, rolling_mean n xs !! i = Some r -> is_nan r = false ->
               (n <= S i)%nat /\
               forall x, x ∈ drop (S i - n) (take (S i) xs) ->
                         is_nan x || is_inf x = false).
Proof.
  intros Hn. split; [apply length_rolling_mean|]. split; [|split].
  - intros i Hi Hs. rewrite (rolling_mean_lookup n xs i Hi).
    unfold window_mean. rewrite (window_length n xs i Hi).
    by destruct (Nat.ltb_spec (Nat.min (S i) n) n); [|lia].
  - intros i x Hi Hx Hbad. rewrite (rolling_mean_lookup n xs i Hi).
    unfold window_mean.
    destruct (length (drop (S i - n) (take (S i) xs)) <? n)%nat; [done|].
    assert (E : existsb (fun x => is_nan x || is_inf x)
                  (drop (S i - n) (take (S i) xs)) = true).
    { apply existsb_exists. exists x. split; [|done]. by apply list_elem_of_In. }
    by rewrite E.
  - intros i r Hr Hnum.
    assert (Hi : (i < length xs)%nat).
    { apply lookup_lt_Some in Hr. by rewrite length_rolling_mean in Hr. }
    rewrite (rolling_mean_lookup n xs i Hi) in Hr. injection Hr as <-.
    apply window_mean_number in Hnum as [Hlen Hall].
    rewrite (window_length n xs i Hi) in Hlen. split; [lia | exact Hall].
Qed.

Lemma rolling_mean_window_witness :
  let xs := [fl 10; NaN; fl 30; fl 40; fl 50; fl 60] in
  length (rolling_mean 3 xs) = 6%nat /\
  rolling_mean 3 xs !! 1%nat = Some NaN /\
  rolling_mean 3 xs !! 3%nat = Some NaN /\
  (forall r, rolling_mean 3 xs !! 5%nat = Some r -> is_nan r = false ->
             (3 <= 6)%nat /\
             forall x, x ∈ [fl 40; fl 50; fl 60] ->
                       is_nan x || is_inf x = false).
Proof.
  intros xs.
  destruct (rolling_mean_window 3 xs ltac:(lia)) as (Hlen & Hwarm & Hbad & Hnum).
  split; [exact Hlen|]. split; [|split].
  - apply Hwarm; simpl; lia.
  - apply (Hbad 3%nat NaN); [simpl; lia | | reflexivity].
    apply list_elem_of_In. simpl. tauto.
  - apply (Hnum 5%nat).
Defined.

Lemma series_gt_lookup_eq xs ys i :
  series_gt xs ys !! i
  = match xs !! i, ys !! i with
    | Some x, Some y => Some (fgt x y)
    | _, _ => None
    end.
Proof.
  unfold series_gt. rewrite list_lookup_fmap.
  change (combine xs ys) with (zip xs ys).
  destruct (zip xs ys !! i) as [[x y]|] eqn:E.
  - apply lookup_zip_with_Some in E as (x' & y' & [= -> ->] & -> & ->).
    done.
  - apply lookup_zip_with_None in E as [E|E]; rewrite E; [done|].
    by destruct (xs !! i).
Qed.

Lemma rolling_mean_warm_up n (xs : list float) i :
  (i < length xs)%nat -> (S i < n)%nat -> rolling_mean n xs !! i = Some NaN.
Proof.
  intros Hi Hs. rewrite (rolling_mean_lookup n xs i Hi).
  unfold window_mean. rewrite (window_length n xs i Hi).
  by destruct (Nat.ltb_spec (Nat.min (S i) n) n); [|lia].
Qed.

(** A flag of [series_gt] against a scaled baseline, at a row where the
    baseline is still not a number. *)
Lemma spike_warm_up xs c n i :
  (i < length xs)%nat -> (S i < n)%nat ->
  series_gt xs (scale c (rolling_mean n xs)) !! i = Some false.
Proof.
  intros Hi Hs. rewrite series_gt_lookup_eq.
  destruct (lookup_lt_is_Some_2 xs i Hi) as [v Hv]. rewrite Hv.
  unfold scale. rewrite list_lookup_fmap, (rolling_mean_warm_up n xs i Hi Hs).
  simpl. by rewrite fmul_nan_r, fgt_nan_r.
Qed.

(** A flag of [series_gt] against a scaled baseline that is true: the
    window of the baseline is full and holds finite cells only. *)
Lemma spike_true_window xs c n i :
  series_gt xs (scale c (rolling_mean n xs)) !! i = Some true ->
  (n <= S i)%nat /\
  forall x, x ∈ drop (S i - n) (take (S i) xs) ->
            is_nan x || is_inf x = false.
Proof.
  intros H. apply series_gt_lookup in H as (v & y & Hv & Hy & Hgt).
  unfold scale in Hy. rewrite list_lookup_fmap in Hy.
  destruct (rolling_mean n xs !! i) as [b|] eqn:Eb; [|done].
  simpl in Hy. injection Hy as <-.
  assert (Hi : (i < length xs)%nat) by (by eapply lookup_lt_Some).
  assert (Hb : is_nan b = false).
  { destruct b; try done. by rewrite fmul_nan_r, fgt_nan_r in Hgt. }
  rewrite (rolling_mean_lookup n xs i Hi) in Eb. injection Eb as <-.
  apply window_mean_number in Hb as [Hlen Hall].
  rewrite (window_length n xs i Hi) in Hlen. split; [lia | exact Hall].
Qed.

(** X9.  [volume_spike] has one flag per row and never flags a row of
    the warm-up: the first [lookback - 1] flags are false.  A flag that
    is true stands at a row with a full window of finite volumes, the
    volume of the row among them. *)
Theorem volume_spike_needs_window (xs : list float) (lookback : nat)
  (multiplier : Q) :
  (1 <= lookback)%nat ->
  length (volume_spike xs lookback multiplier) = length xs /\
  (forall i, (i < length xs)%nat -> (S i < lookback)%nat ->
             volume_spike xs lookback multiplier !! i = Some false) /\
  (forall i, volume_spike xs lookback multiplier !! i = Some true ->
     (lookback <= S i)%nat /\
     (forall x, x ∈ drop (S i - lookback) (take (S i) xs) ->
                is_nan x || is_inf x = false) /\
     exists v, xs !! i = Some v /\ is_nan v || is_inf v = false).
Proof.
  intros Hn. split; [apply length_volume_spike|]. split.
  - intros i. apply spike_warm_up.
  - intros i H. unfold volume_spike in H.
    destruct (spike_true_window _ _ _ _ H) as [Hlen Hall].
    split; [exact Hlen|]. split; [exact Hall|].
    apply series_gt_lookup in H as (v & y & Hv & _ & _).
    exists v. split; [exact Hv|]. apply Hall.
    apply list_elem_of_lookup. exists (i - (S i - lookback))%nat.
    rewrite lookup_drop, lookup_take_lt by lia.
    replace (S i - lookback + (i - (S i - lookback)))%nat with i by lia.
    exact Hv.
Qed.

Lemma volume_spike_needs_window_witness :
  let xs := map fl [100; 100; 100; 400] in
  length (volume_spike xs 4 1.5) = 4%nat /\
  volume_spike xs 4 1.5 !! 2%nat = Some false /\
  volume_spike xs 4 1.5 !! 3%nat = Some true /\
  (4 <= 4)%nat /\
  (forall x, x ∈ xs -> is_nan x || is_inf x = false) /\
  exists v, xs !! 3%nat = Some v /\ is_nan v || is_inf v = false.
Proof.
  intros xs.
  destruct (volume_spike_needs_window xs 4 1.5 ltac:(lia))
    as (Hlen & Hwarm & Htrue).
  split; [exact Hlen|]. split; [apply Hwarm; simpl; lia|].
  assert (Hflag : volume_spike xs 4 1.5 !! 3%nat = Some true)
    by (vm_compute; reflexivity).
  split; [exact Hflag|]. exact (Htrue 3%nat Hflag).
Defined.

Lemma atr_run l df n w :
  heap w !! l = Some df ->
  candle_frame df = true ->
  atr l n w = (Ok (atr_series df n), w).
Proof.
  intros Hl Hc. unfold atr.
  destruct (candle_column df "high" Hc ltac:(in_list)) as [Hh _].
  destruct (candle_column df "low" Hc ltac:(in_list)) as [Hlo _].
  destruct (candle_column df "close" Hc ltac:(in_list)) as [Hcl _].
  repeat first
    [ rewrite (bind_ok _ _ _ _ _ (getcol_ok _ _ _ _ _ Hl Hh))
    | rewrite (bind_ok _ _ _ _ _ (getcol_ok _ _ _ _ _ Hl Hlo))
    | rewrite (bind_ok _ _ _ _ _ (getcol_ok _ _ _ _ _ Hl Hcl)) ].
  reflexivity.
Qed.

Lemma nanmax_nonneg x y :
  nonneg_or_nan x -> nonneg_or_nan y -> nonneg_or_nan (nanmax x y).
Proof.
  intros Hx Hy. unfold nanmax.
  destruct (is_nan x); [done|]. destruct (is_nan y); [done|].
  by destruct (fgt y x).
Qed.

Lemma fabs_nonneg x : nonneg_or_nan (fabs x).
Proof. destruct x as [|s|z q]; simpl; try done. apply Qabs_nonneg. Qed.

Lemma row_max3_nonneg a b c :
  Forall nonneg_or_nan a -> Forall nonneg_or_nan b ->
  Forall nonneg_or_nan c -> Forall nonneg_or_nan (row_max3 a b c).
Proof.
  intros Ha. revert b c.
  induction Ha as [|x a Hx Ha IH]; intros b c Hb Hc; [by destruct b, c|].
  destruct Hb as [|y b Hy Hb]; [done|].
  destruct Hc as [|z c Hz Hc]; [done|].
  simpl. constructor; [|by apply IH].
  by apply nanmax_nonneg; [apply nanmax_nonneg|].
Qed.

Lemma fsub_not_below h lo :
  flt h lo = false -> nonneg_or_nan (fsub h lo).
Proof.
  destruct h as [|s|z a], lo as [|t|z' b]; try done.
  - by destruct s, t.
  - by destruct s.
  - by destruct t.
  - unfold flt, fcompare, fsub, fneg, fadd, nonneg_or_nan. intros H.
    destruct (a ?= b) eqn:E; try done.
    + apply Qeq_alt in E. lra.
    + apply Qgt_alt in E. lra.
Qed.

Lemma ordered_range df :
  ordered_bars df = true ->
  Forall nonneg_or_nan
    (zip_with_f fsub (floats df "high") (floats df "low")).
Proof.
  unfold ordered_bars, zip_with_f. rewrite forallb_forall. intros H.
  apply Forall_forall. intros x Hx. apply list_elem_of_In, in_map_iff in Hx.
  destruct Hx as ([h lo] & <- & Hin). specialize (H _ Hin). simpl in *.
  apply fsub_not_below. by destruct (flt h lo).
Qed.

(** X10.  On a candle frame [atr] returns, without touching the world, a
    Series as long as the frame.  When no bar has its high below its low,
    and the span is at least one, no cell of it is negative: each is a
    number at or above zero, or not a number. *)
Theorem atr_not_negative (l : loc) (df : DataFrame) (n : Z) (w : World) :
  (1 <= n)%Z ->
  heap w !! l = Some df ->
  candle_frame df = true ->
  ordered_bars df = true ->
  exists xs,
    atr l n w = (Ok xs, w) /\
    length xs = length (index df) /\
    Forall nonneg_or_nan xs.
Proof.
  intros Hn Hl Hc Ho. exists (atr_series df n).
  split; [by apply atr_run|]. split; [by apply length_atr_series|].
  unfold atr_series. destruct (alpha_bounds n Hn) as [Ha0 Ha1].
  apply ewm_mean_nonneg; [done|done|].
  apply row_max3_nonneg.
  - by apply ordered_range.
  - apply Forall_forall. intros x Hx.
    apply list_elem_of_In, in_map_iff in Hx as (y & <- & _). apply fabs_nonneg.
  - apply Forall_forall. intros x Hx.
    apply list_elem_of_In, in_map_iff in Hx as (y & <- & _). apply fabs_nonneg.
Qed.

Lemma atr_not_negative_witness :
  exists xs,
    atr 0%nat 14 (world_of [breakout] None)
    = (Ok xs, world_of [breakout] None) /\
    length xs = length (index breakout) /\
    Forall nonneg_or_nan xs.
Proof.
  apply (atr_not_negative 0%nat breakout 14 (world_of [breakout] None)).
  - lia.
  - reflexivity.
  - vm_compute. reflexivity.
  - vm_compute. reflexivity.
Defined.

(** ** The frame [compute_all] returns *)

Lemma length_length_series_gt (xs ys : list float) :
  length xs = length ys -> length (series_gt xs ys) = length xs.
Proof.
  intros H. unfold series_gt. rewrite length_map, length_combine. lia.
Qed.

Lemma indicator_frame_columns df key :
  candle_frame df = true ->
  (key ∉ indicator_columns ->
   columns (indicator_frame df) !! key = columns df !! key) /\
  (key ∈ indicator_columns ->
   exists s, columns (indicator_frame df) !! key = Some s /\
             column_length s = length (index df)).
Proof.
  intros Hc.
  destruct (candle_column df "close" Hc ltac:(in_list)) as [_ Lc].
  destruct (candle_column df "volume" Hc ltac:(in_list)) as [_ Lv].
  pose proof (length_atr_series df 14 Hc) as La.
  unfold indicator_frame. rewrite !columns_with_col. split.
  - intros Hk. rewrite !lookup_insert_ne; [done|..];
      intros <-; apply Hk; in_list.
  - intros Hk. apply list_elem_of_In in Hk. simpl in Hk.
    destruct Hk as [<-|[<-|[<-|[<-|[<-|[<-|[<-|[]]]]]]]];
      rewrite ?lookup_insert_ne by done; rewrite lookup_insert_eq;
      eexists; (split; [reflexivity|]); simpl.
    + by rewrite length_ema.
    + by rewrite length_ema.
    + by rewrite length_rsi.
    + done.
    + by rewrite length_rolling_mean.
    + rewrite length_length_series_gt; [done|].
      unfold scale. by rewrite length_map, length_rolling_mean.
    + by rewrite length_volume_spike.
Qed.

(** X11.  On a candle frame [compute_all] returns a reference that was not
    in use, to a frame with the caller's index, the caller's columns
    under every name but the seven it writes, and under each of the
    seven a column with one cell per row.  Nothing else of the world
    changes: the other objects, the alert store, the trace and the
    clock are as before. *)
Theorem compute_all_shape (l : loc) (df : DataFrame) (w : World) :
  heap w !! l = Some df ->
  candle_frame df = true ->
  exists l' w' frame,
    compute_all l w = (Ok l', w') /\
    heap w !! l' = None /\
    heap w' = <[l' := frame]> (heap w) /\
    alerts_file w' = alerts_file w /\ trace w' = trace w /\
    ticks w' = ticks w /\
    index frame = index df /\
    (forall key, key ∉ indicator_columns ->
                 columns frame !! key = columns df !! key) /\
    (forall key, key ∈ indicator_columns ->
                 exists s, columns frame !! key = Some s /\
                           column_length s = length (index df)).
Proof.
  intros Hl Hc. eexists _, _, (indicator_frame df).
  split; [by apply compute_all_frame|].
  split; [apply alloc_fresh|].
  repeat (split; [reflexivity|]).
  split; intros key; by apply indicator_frame_columns.
Qed.

Lemma compute_all_shape_witness :
  exists l' w' frame,
    compute_all 0%nat (world_of [breakout] None) = (Ok l', w') /\
    heap (world_of [breakout] None) !! l' = None /\
    heap w' = <[l' := frame]> (heap (world_of [breakout] None)) /\
    alerts_file w' = alerts_file (world_of [breakout] None) /\
    trace w' = trace (world_of [breakout] None) /\
    ticks w' = ticks (world_of [breakout] None) /\
    index frame = index breakout /\
    (forall key, key ∉ indicator_columns ->
                 columns frame !! key = columns breakout !! key) /\
    (forall key, key ∈ indicator_columns ->
                 exists s, columns frame !! key = Some s /\
                           column_length s = length (index breakout)).
Proof.
  apply (compute_all_shape 0%nat breakout (world_of [breakout] None)).
  - reflexivity.
  - vm_compute. reflexivity.
Defined.

(** ** A frame without one of the columns *)

Lemma getcol_missing l key df w :
  heap w !! l = Some df ->
  columns df !! key = None ->
  getcol l key w = (Raise (Exn KeyError key), w).
Proof.
  intros Hl Hk. unfold getcol.
  rewrite (bind_ok _ _ _ _ _ (deref_ok _ _ _ Hl)). by rewrite Hk.
Qed.

Ltac top_frame := rewrite set_heap_heap; apply lookup_insert_eq.

Ltac present_column :=
  rewrite ?columns_with_col;
  first [ apply lookup_insert_eq
        | rewrite ?lookup_insert_ne by done;
          first [ apply lookup_insert_eq | eassumption ] ].

Ltac read_present :=
  erewrite bind_ok; [| eapply getcol_ok; [ top_frame | present_column ] ].

Ltac read_missing Hm :=
  apply bind_raise; eapply getcol_missing;
  [ top_frame
  | rewrite ?columns_with_col, ?lookup_insert_ne by done; exact Hm ].

Lemma preserves_compute_all {X} (f : World -> X) l :
  (forall h w, f (set_heap h w) = f w) -> preserves f (compute_all l).
Proof.
  intros Hf. unfold compute_all.
  assert (Hderef : forall l0, preserves f (deref l0)).
  { intros l0 w. unfold deref. by destruct (heap w !! l0). }
  apply preserves_bind.
  { apply preserves_bind; [apply Hderef|]. intros d w. apply Hf. }
  intros l'.
  repeat first
    [ apply preserves_ret
    | apply preserves_bind;
      [ first [ apply preserves_getcol
              | by apply preserves_setcol
              | unfold atr;
                repeat (apply preserves_bind;
                        [apply preserves_getcol|]; intros ?);
                apply preserves_ret ]
      | intros ? ] ].
Qed.

Lemma compute_all_raises_missing l df w key :
  heap w !! l = Some df ->
  key ∈ ["close"; "high"; "low"; "volume"]%string ->
  columns df !! key = None ->
  (forall k, k ∈ ["close"; "high"; "low"; "volume"]%string -> k <> key ->
             exists xs, columns df !! k = Some (Floats xs)) ->
  fst (compute_all l w) = Raise (Exn KeyError key).
Proof.
  intros Hl Hk Hm Hothers.
  assert (Hp : forall k, k ∈ ["close"; "high"; "low"; "volume"]%string ->
             k = key \/ exists xs, columns df !! k = Some (Floats xs)).
  { intros k Hin. destruct (decide (k = key)) as [|Hne]; [by left|].
    right. by apply Hothers. }
  pose proof (Hp "close"%string ltac:(in_list)) as Pc.
  pose proof (Hp "high"%string ltac:(in_list)) as Ph.
  pose proof (Hp "low"%string ltac:(in_list)) as Pl.
  clear Hp Hothers.
  unfold compute_all.
  rewrite (bind_ok _ _ _ _ _ (df_copy_ok _ _ _ Hl)).
  set (l' := fresh (dom (heap w))).
  apply list_elem_of_In in Hk. simpl in Hk.
  destruct Hk as [<-|[<-|[<-|[<-|[]]]]].
  - erewrite bind_raise; [reflexivity|].
    eapply getcol_missing; [top_frame | exact Hm].
  - destruct Pc as [|[c Hcl]]; [done|].
    read_present. write_column. read_present. write_column.
    read_present. write_column.
    erewrite bind_raise; [reflexivity|]. unfold atr. read_missing Hm.
  - destruct Pc as [|[c Hcl]]; [done|]. destruct Ph as [|[h Hh]]; [done|].
    read_present. write_column. read_present. write_column.
    read_present. write_column.
    erewrite bind_raise; [reflexivity|]. unfold atr.
    read_present. read_missing Hm.
  - destruct Pc as [|[c Hcl]]; [done|]. destruct Ph as [|[h Hh]]; [done|].
    destruct Pl as [|[lo Hlo]]; [done|].
    read_present. write_column. read_present. write_column.
    read_present. write_column.
    erewrite bind_ok;
      [| unfold atr; do 6 read_present; reflexivity ].
    write_column. read_present. write_column.
    read_present. read_present. write_column.
    erewrite bind_raise; [reflexivity|].
    eapply getcol_missing; [top_frame|].
    rewrite ?columns_with_col, ?lookup_insert_ne by done. exact Hm.
Qed.

(** X12.  A frame that lacks one of the columns close, high, low, volume
    (and holds the others as numeric columns): [compute_all] raises
    KeyError with the name of that column, and so does
    [detect_momentum_signal] once the frame has 30 rows; with fewer rows
    it returns the empty report and the column is not missed.  In each
    case the caller's frame, the alert store and the trace are as
    before. *)
Theorem missing_column_is_key_error (l : loc) (df : DataFrame) (w : World)
  (key : string) :
  heap w !! l = Some df ->
  key ∈ ["close"; "high"; "low"; "volume"]%string ->
  columns df !! key = None ->
  (forall k, k ∈ ["close"; "high"; "low"; "volume"]%string -> k <> key ->
             exists xs, columns df !! k = Some (Floats xs)) ->
  (exists w', compute_all l w = (Raise (Exn KeyError key), w') /\
              heap w' !! l = Some df /\
              alerts_file w' = alerts_file w /\ trace w' = trace w) /\
  (exists w', detect_momentum_signal (Some l) w
              = (if (length (index df) <? 30)%nat then Ok ∅
                 else Raise (Exn KeyError key), w') /\
              heap w' !! l = Some df /\
              alerts_file w' = alerts_file w /\ trace w' = trace w).
Proof.
  intros Hl Hk Hm Hothers.
  pose proof (compute_all_raises_missing l df w key Hl Hk Hm Hothers) as E.
  assert (Hdom : l ∈ dom (heap w)) by (apply elem_of_dom; by eexists).
  assert (C : exists w', compute_all l w = (Raise (Exn KeyError key), w') /\
              heap w' !! l = Some df /\
              alerts_file w' = alerts_file w /\ trace w' = trace w).
  { exists (snd (compute_all l w)). split; [|split; [|split]].
    - destruct (compute_all l w) as [r w1]. simpl in *. by subst.
    - by rewrite compute_all_keeps.
    - by apply (preserves_compute_all alerts_file).
    - by apply (preserves_compute_all trace). }
  split; [exact C|].
  unfold detect_momentum_signal.
  rewrite (bind_ok _ _ _ _ _ (df_len_ok _ _ _ Hl)).
  destruct (length (index df) <? 30)%nat.
  - by exists w.
  - destruct C as (w' & Ec & Hrest). exists w'. split; [|done].
    by apply bind_raise.
Qed.

Lemma missing_column_is_key_error_witness :
  let df := {| index := index breakout;
               columns := delete "low"%string (columns breakout) |} in
  let w := world_of [df] None in
  (exists w', compute_all 0%nat w = (Raise (Exn KeyError "low"), w') /\
              heap w' !! 0%nat = Some df /\
              alerts_file w' = alerts_file w /\ trace w' = trace w) /\
  (exists w', detect_momentum_signal (Some 0%nat) w
              = (if (length (index df) <? 30)%nat then Ok ∅
                 else Raise (Exn KeyError "low"), w') /\
              heap w' !! 0%nat = Some df /\
              alerts_file w' = alerts_file w /\ trace w' = trace w).
Proof.
  apply (missing_column_is_key_error 0%nat
           {| index := index breakout;
              columns := delete "low"%string (columns breakout) |}
           (world_of [{| index := index breakout;
                         columns := delete "low"%string (columns breakout) |}]
              None) "low"%string).
  - reflexivity.
  - in_list.
  - vm_compute. reflexivity.
  - intros k Hk Hne. apply list_elem_of_In in Hk. simpl in Hk.
    destruct Hk as [<-|[<-|[<-|[<-|[]]]]]; try done;
      eexists; vm_compute; reflexivity.
Defined.

(** ** The alert store *)


(** The answer of [was_alert_sent_recent] is a function of the symbol's
    record and of the clock. *)
Lemma recent_same_record env symbol minutes w1 w2 m1 m2 :
  alerts_file w1 = Some (Doc (JObj m1)) ->
  alerts_file w2 = Some (Doc (JObj m2)) ->
  m1 !! symbol = m2 !! symbol ->
  ticks w1 = ticks w2 ->
  fst (was_alert_sent_recent env symbol minutes w1)
  = fst (was_alert_sent_recent env symbol minutes w2).
Proof.
  intros H1 H2 H3 H4.
  unfold was_alert_sent_recent, read_alerts, now_utc, tick, lift,
    mbind, M_bind, mret, M_ret.
  rewrite H1, H2. simpl. rewrite H3.
  destruct (m2 !! symbol) as [v|]; simpl; [|done].
  destruct (py_fromisoformat env v) as [t|e]; simpl; [|done].
  rewrite H4. unfold dt_sub, replace_utc. reflexivity.
Qed.


Lemma persist_alert_raises symbol ts w :
  mapping_store (alerts_file w) = false ->
  exists e, persist_alert symbol ts w = (Raise e, w) /\
            exn_cls e = TypeError.
Proof.
  intros Hm. unfold persist_alert.
  unfold mbind at 1, M_bind at 1, read_alerts.
  destruct (alerts_file w) as [[|[| | | | |m]]|]; try discriminate;
    by eexists.
Qed.

(** X13.  [persist_alert] on a store that is absent, unparsable or a
    mapping returns after one write: the new store is a mapping with the
    symbol's record set to the timestamp and every other record as it
    was, and the frames and the clock are untouched.  On a store that
    parses to anything else it raises a [TypeError] and writes nothing.
    Once it has returned, every later [persist_alert] returns too, and
    a record for another symbol leaves this one in place. *)
Theorem persist_alert_store (symbol ts : string) (w : World) :
  (mapping_store (alerts_file w) = true ->
   exists m',
     persist_alert symbol ts w
     = (Ok tt, {| heap := heap w; alerts_file := Some (Doc (JObj m'));
                  ticks := ticks w;
                  trace := trace w ++ [EvWrite (Doc (JObj m'))] |}) /\
     m' !! symbol = Some (JStr ts) /\
     forall k, k <> symbol -> m' !! k = store_mapping (alerts_file w) !! k) /\
  (mapping_store (alerts_file w) = false ->
   exists e, persist_alert symbol ts w = (Raise e, w) /\
             exn_cls e = TypeError) /\
  (forall w1 symbol2 ts2,
     persist_alert symbol ts w = (Ok tt, w1) ->
     exists w2 m2,
       persist_alert symbol2 ts2 w1 = (Ok tt, w2) /\
       alerts_file w2 = Some (Doc (JObj m2)) /\
       m2 !! symbol2 = Some (JStr ts2) /\
       (symbol <> symbol2 -> m2 !! symbol = Some (JStr ts))).
Proof.
  split; [|split].
  - intros Hm. eexists. split; [by apply persist_alert_ok|].
    split; [apply lookup_insert_eq|].
    intros k Hk. by rewrite lookup_insert_ne.
  - apply persist_alert_raises.
  - intros w1 symbol2 ts2 H1.
    assert (Hm : mapping_store (alerts_file w) = true).
    { destruct (mapping_store (alerts_file w)) eqn:E; [done|].
      destruct (persist_alert_raises symbol ts w E) as (e & He & _).
      by rewrite He in H1. }
    rewrite (persist_alert_ok symbol ts w Hm) in H1.
    injection H1 as <-.
    eexists _, _. split; [by apply persist_alert_ok|]. simpl.
    split; [reflexivity|]. split; [apply lookup_insert_eq|].
    intros Hne. rewrite lookup_insert_ne by done. apply lookup_insert_eq.
Qed.

(** X14.  A record written by [persist_alert] is read back by
    [was_alert_sent_recent]: when [fromisoformat] reads the timestamp
    [isoformat] wrote, and the cooldown is below [2^34] seconds, the
    symbol is recent exactly when the next clock reading is at most
    [minutes] minutes after the timestamp.  The answer for any other
    symbol is what it was before the write. *)
Theorem persist_then_recent (env : Env) (symbol : string) (minutes : Z)
  (now d : datetime) (w : World) :
  mapping_store (alerts_file w) = true ->
  fromisoformat env (isoformat env now) = Some d ->
  (- 17179869184 < minutes * 60 < 17179869184)%Z ->
  exists w',
    persist_alert symbol (isoformat env now) w = (Ok tt, w') /\
    (exists b,
       was_alert_sent_recent env symbol minutes w' = (Ok b, ticked w') /\
       (b = true <->
        (utcnow env (ticks w) - wall d <= minutes * 60 * 1000000)%Z)) /\
    (forall other, other <> symbol ->
       fst (was_alert_sent_recent env other minutes w')
       = fst (was_alert_sent_recent env other minutes w)).
Proof.
  intros Hm Hd Hrange. eexists. split; [by apply persist_alert_ok|].
  set (m' := <[symbol := JStr (isoformat env now)]>
               (store_mapping (alerts_file w))).
  split.
  - eexists. split.
    + eapply recent_with_record; [reflexivity | apply lookup_insert_eq |
                                   exact Hd].
    + cbn [ticks]. rewrite (seconds_within _ _ Hrange). lia.
  - intros other Hne.
    destruct (store_mapping (alerts_file w) !! other) as [v|] eqn:Ev.
    + destruct (alerts_file w) as [[|[| | | | |m]]|] eqn:Ef;
        try discriminate; simpl in Ev; try by rewrite lookup_empty in Ev.
      apply (recent_same_record env other minutes _ _ m' m);
        [reflexivity | exact Ef | | reflexivity].
      subst m'. simpl. by rewrite lookup_insert_ne.
    + rewrite recent_without_record.
      2:{ right. right. exists m'. split; [done|].
          subst m'. by rewrite lookup_insert_ne. }
      rewrite recent_without_record; [done|].
      destruct (alerts_file w) as [[|[| | | | |m]]|] eqn:Ef;
        try discriminate; [tauto| |tauto].
      right. right. by exists m.
Qed.

Lemma persist_then_recent_witness :
  let env := demo_env quiet 200 1700000000000000 in
  let now := {| wall := 1700000000000000; tzinfo := Some 0%Z |} in
  let w := world_of [] None in
  exists w',
    persist_alert "NIFTY" (isoformat env now) w = (Ok tt, w') /\
    (exists b,
       was_alert_sent_recent env "NIFTY" 30 w' = (Ok b, ticked w') /\
       (b = true <->
        (utcnow env (ticks w) - wall now <= 30 * 60 * 1000000)%Z)) /\
    (forall other, other <> "NIFTY"%string ->
       fst (was_alert_sent_recent env other 30 w')
       = fst (was_alert_sent_recent env other 30 w)).
Proof.
  apply (persist_then_recent (demo_env quiet 200 1700000000000000)
           "NIFTY" 30 {| wall := 1700000000000000; tzinfo := Some 0%Z |}
           {| wall := 1700000000000000; tzinfo := Some 0%Z |}
           (world_of [] None)).
  - reflexivity.
  - vm_compute. reflexivity.
  - lia.
Defined.

(** X15.  The offset stored with a record takes no part in the
    cooldown: [replace(tzinfo=timezone.utc)] overwrites it, so for a
    record that [fromisoformat] reads the answer is a function of its
    wall-clock reading and the clock alone, whatever its offset and
    whether it has one.  The call returns after one clock reading; for
    a cooldown below [2^34] seconds it is true exactly when the clock
    is at most [minutes] minutes past that reading; and a record dated
    at or after the clock counts as recent for every cooldown that is
    not negative. *)
Theorem recent_ignores_offset (env : Env) (symbol : string) (minutes : Z)
  (w : World) (m : gmap string json) (s : string) (ts : datetime) :
  alerts_file w = Some (Doc (JObj m)) ->
  m !! symbol = Some (JStr s) ->
  fromisoformat env s = Some ts ->
  exists b,
    was_alert_sent_recent env symbol minutes w = (Ok b, ticked w) /\
    b = Qle_bool (total_seconds (utcnow env (ticks w) - wall ts))
          (inject_Z (minutes * 60)) /\
    ((- 17179869184 < minutes * 60 < 17179869184)%Z ->
     (b = true <->
      (utcnow env (ticks w) - wall ts <= minutes * 60 * 1000000)%Z)) /\
    ((0 <= minutes)%Z -> (utcnow env (ticks w) <= wall ts)%Z -> b = true).
Proof.
  intros Hf Hm Hs. eexists. split; [by eapply recent_with_record|].
  replace (utcnow env (ticks w) - 0 - (wall ts - 0))%Z
    with (utcnow env (ticks w) - wall ts)%Z by lia.
  split; [reflexivity|]. split.
  - intros Hrange. apply (seconds_within _ _ Hrange).
  - intros H0 Hle. apply seconds_not_elapsed; lia.
Qed.

Lemma recent_ignores_offset_witness :
  let env :=
    {| provider := fun _ _ => Ok None;
       http_post := fun _ _ _ _ => Response 200;
       utcnow := fun _ => 1700000000000000%Z;
       isoformat := fun _ => "2023-11-15T03:43:20+05:30"%string;
       fromisoformat := fun _ =>
         Some {| wall := 1700019800000000; tzinfo := Some 19800000000%Z |};
       alert_text := fun symbol _ => symbol |} in
  let w :=
    world_of [] (Some (Doc (JObj {[ "NIFTY"%string
                                    := JStr "2023-11-15T03:43:20+05:30" ]}))) in
  exists b,
    was_alert_sent_recent env "NIFTY" 30 w = (Ok b, ticked w) /\
    b = Qle_bool (total_seconds (1700000000000000 - 1700019800000000))
          (inject_Z (30 * 60)) /\
    ((- 17179869184 < 30 * 60 < 17179869184)%Z ->
     (b = true <->
      (1700000000000000 - 1700019800000000 <= 30 * 60 * 1000000)%Z)) /\
    ((0 <= 30)%Z -> (1700000000000000 <= 1700019800000000)%Z -> b = true).
Proof.
  apply (recent_ignores_offset
           {| provider := fun _ _ => Ok None;
              http_post := fun _ _ _ _ => Response 200;
              utcnow := fun _ => 1700000000000000%Z;
              isoformat := fun _ => "2023-11-15T03:43:20+05:30"%string;
              fromisoformat := fun _ =>
                Some {| wall := 1700019800000000;
                        tzinfo := Some 19800000000%Z |};
              alert_text := fun symbol _ => symbol |}
           "NIFTY" 30
           (world_of [] (Some (Doc (JObj {[ "NIFTY"%string
                              := JStr "2023-11-15T03:43:20+05:30" ]}))))
           {[ "NIFTY"%string := JStr "2023-11-15T03:43:20+05:30" ]}
           "2023-11-15T03:43:20+05:30"
           {| wall := 1700019800000000; tzinfo := Some 19800000000%Z |}).
  - reflexivity.
  - vm_compute. reflexivity.
  - reflexivity.
Defined.

(** X16.  [was_alert_sent_recent] only reads: whatever the store holds,
    and whether the call returns or raises, the frames, the alerts file
    and the trace are as before, and the clock was read at most once. *)
Theorem recent_reads_only (env : Env) (symbol : string) (minutes : Z)
  (w : World) :
  let w' := snd (was_alert_sent_recent env symbol minutes w) in
  heap w' = heap w /\ alerts_file w' = alerts_file w /\
  trace w' = trace w /\
  (ticks w' = ticks w \/ ticks w' = S (ticks w)).
Proof.
  intros w'. subst w'.
  split; [by apply (preserves_recent heap)|].
  split; [by apply (preserves_recent alerts_file)|].
  split; [by apply (preserves_recent trace)|].
  unfold was_alert_sent_recent, read_alerts, now_utc, tick, lift,
    mbind, M_bind, mret, M_ret.
  destruct (alerts_file w) as [f|]; [|by left].
  destruct (json_load f) as [data|e]; [|by left].
  destruct (json_contains data symbol) as [[|]|e]; simpl; try by left.
  destruct (json_getitem data symbol) as [v|e]; simpl; [|by left].
  destruct (py_fromisoformat env v) as [t|e]; simpl; [|by left].
  by right.
Qed.

(** ** The trace of a cycle *)

Lemma fetched_app tr tr' : fetched (tr ++ tr') = fetched tr ++ fetched tr'.
Proof. apply omap_app. Qed.

(** Every run of [send_telegram_message], with what it adds to the
    trace. *)
Lemma send_events env bot_token chat_id text w :
  (falsy bot_token || falsy chat_id = true /\
   send_telegram_message env bot_token chat_id text w
   = (Raise (Exn ValueError "Provide bot_token and chat_id in config."), w))
  \/
  (falsy bot_token || falsy chat_id = false /\
   exists extra,
     send_telegram_message env bot_token chat_id text w
     = (Ok (delivered (http_post env (ticks w) (send_url bot_token)
                         (default ""%string chat_id) text)),
        {| heap := heap w; alerts_file := alerts_file w;
           ticks := S (ticks w);
           trace := (trace w ++ [EvPost (send_url bot_token)
                                   (default ""%string chat_id) text])
                    ++ extra |}) /\
     writes extra = [] /\ posts extra = [] /\ fetched extra = []).
Proof.
  unfold send_telegram_message.
  destruct (falsy bot_token || falsy chat_id) eqn:E; [by left|].
  right. split; [done|]. fold (send_url bot_token).
  unfold try_except, mbind, M_bind, tick, emit, raise, delivered. simpl.
  destruct (http_post env (ticks w) (send_url bot_token)
              (default ""%string chat_id) text) as [code|e]; simpl.
  - destruct (code =? 200)%Z; simpl.
    + exists []. by rewrite app_nil_r.
    + by exists [EvSleep].
  - by exists [EvPrint ("Telegram send error: " ++ str_exn e)].
Qed.

(** Every run of the part of the loop body after the report. *)
Lemma alert_if_fresh_trace env cfg symbol sig w :
  exists extra,
    trace (snd (alert_if_fresh env cfg symbol sig w)) = trace w ++ extra /\
    alert_events env cfg symbol sig extra /\
    (posts extra <> [] ->
     truthy (default (PBool false) (sig !! "signal")) = true /\
     fst (was_alert_sent_recent env symbol (alert_minutes_lockout cfg) w)
     = Ok false /\
     falsy (telegram_bot_token cfg) || falsy (telegram_chat_id cfg) = false).
Proof.
  set (Due := truthy (default (PBool false) (sig !! "signal")) = true /\
              fst (was_alert_sent_recent env symbol
                     (alert_minutes_lockout cfg) w) = Ok false /\
              falsy (telegram_bot_token cfg)
              || falsy (telegram_chat_id cfg) = false).
  assert (Hquiet : forall w' extra,
            trace w' = trace w ++ extra ->
            fetched extra = [] -> posts extra = [] -> writes extra = [] ->
            exists extra, trace w' = trace w ++ extra /\
              alert_events env cfg symbol sig extra /\
              (posts extra <> [] -> Due)).
  { intros w' extra H Hf Hp Hw. exists extra. split; [exact H|].
    split; [split; [exact Hf | by left]|]. by rewrite Hp. }
  assert (Hnil : forall w', trace w' = trace w ->
            exists extra, trace w' = trace w ++ extra /\
              alert_events env cfg symbol sig extra /\
              (posts extra <> [] -> Due)).
  { intros w' H. apply (Hquiet w' []); [by rewrite app_nil_r|done..]. }
  assert (Hpost : forall w' msg tail,
            Due -> compose_message env symbol sig = Ok msg ->
            trace w'
            = trace w ++ EvPost (send_url (telegram_bot_token cfg))
                           (default ""%string (telegram_chat_id cfg)) msg
                         :: tail ->
            fetched tail = [] -> posts tail = [] ->
            (length (writes tail) <= 1)%nat ->
            exists extra, trace w' = trace w ++ extra /\
              alert_events env cfg symbol sig extra /\
              (posts extra <> [] -> Due)).
  { intros w' msg tail HD Em H Hft Hpt Hwt. eexists.
    split; [exact H|]. split; [|done].
    split; [exact Hft|]. right. by exists msg, tail. }
  assert (HD : truthy (default (PBool false) (sig !! "signal")) = true ->
               fst (was_alert_sent_recent env symbol
                      (alert_minutes_lockout cfg) w) = Ok false ->
               falsy (telegram_bot_token cfg)
               || falsy (telegram_chat_id cfg) = false -> Due)
    by (intros; by repeat split).
  clearbody Due.
  unfold alert_if_fresh.
  destruct (truthy _) eqn:Et; [|by apply Hnil].
  pose proof (preserves_recent trace env symbol (alert_minutes_lockout cfg)
                ltac:(done) w) as Htr.
  destruct (was_alert_sent_recent env symbol (alert_minutes_lockout cfg) w)
    as [[b|e] w1] eqn:Hr; simpl in Htr.
  2:{ rewrite (bind_raise _ _ _ _ _ Hr). by apply Hnil. }
  rewrite (bind_ok _ _ _ _ _ Hr).
  destruct b; cbn [negb]; [by apply Hnil|].
  destruct (compose_message env symbol sig) as [msg|e] eqn:Em.
  2:{ unfold mbind at 1, M_bind at 1, lift. by apply Hnil. }
  rewrite (lift_bind_ok (Ok msg) _ msg _ eq_refl).
  unfold mbind at 1, M_bind at 1, try_except.
  destruct (send_events env (telegram_bot_token cfg) (telegram_chat_id cfg)
              msg w1) as [[Hf Hs]|(Hf & extra & Hs & Hw & Hp & Hfe)];
    rewrite Hs.
  - eapply Hquiet; [simpl; rewrite Htr; reflexivity | done..].
  - assert (HDue : Due) by (by apply HD).
    clear HD. rename HDue into HD.
    destruct (delivered _).
    + unfold mbind at 1, M_bind at 1, now_utc.
      unfold mbind at 1, M_bind at 1, tick. cbn [mret M_ret].
      set (w2 := ticked _). set (ts := isoformat env _).
      assert (Ht2 : trace w2
                    = trace w ++ EvPost (send_url (telegram_bot_token cfg))
                                   (default ""%string (telegram_chat_id cfg))
                                   msg :: extra).
      { subst w2. simpl. by rewrite Htr, <- app_assoc. }
      clearbody w2 ts.
      destruct (mapping_store (alerts_file w2)) eqn:Hm.
      * rewrite (persist_alert_ok symbol ts w2 Hm).
        eapply (Hpost _ msg _ HD eq_refl).
        -- cbn [snd trace]. rewrite Ht2, <- app_assoc. reflexivity.
        -- by rewrite fetched_app, Hfe.
        -- by rewrite posts_app, Hp.
        -- rewrite writes_app, Hw. simpl. lia.
      * destruct (persist_alert_raises symbol ts w2 Hm) as (e & He & _).
        rewrite He.
        apply (Hpost _ msg extra HD eq_refl);
          [exact Ht2 | exact Hfe | exact Hp |].
        rewrite Hw. simpl. lia.
    + apply (Hpost _ msg extra HD eq_refl);
        [simpl; by rewrite Htr, <- app_assoc | exact Hfe | exact Hp |].
      rewrite Hw. simpl. lia.
Qed.

(** X17.  What the part of the loop body after the report adds to the
    trace: nothing that posts or writes, or one delivery attempt, of
    the message composed for the symbol, followed by no other attempt
    and by at most one write of the store, so that a write never comes
    before the delivery attempt.  It attempts a delivery only when the
    report's signal is truthy, [was_alert_sent_recent] returned [False],
    and the bot token and the chat id are both there. *)
Theorem alert_posts_only_when_due (env : Env) (cfg : Config)
  (symbol : string) (sig : gmap string pyval) (w : World) :
  exists extra,
    trace (snd (alert_if_fresh env cfg symbol sig w)) = trace w ++ extra /\
    fetched extra = [] /\
    ((posts extra = [] /\ writes extra = []) \/
     exists msg tail,
       compose_message env symbol sig = Ok msg /\
       extra = EvPost (send_url (telegram_bot_token cfg))
                 (default ""%string (telegram_chat_id cfg)) msg :: tail /\
       posts tail = [] /\ (length (writes tail) <= 1)%nat) /\
    (posts extra <> [] ->
     truthy (default (PBool false) (sig !! "signal")) = true /\
     fst (was_alert_sent_recent env symbol (alert_minutes_lockout cfg) w)
     = Ok false /\
     falsy (telegram_bot_token cfg) || falsy (telegram_chat_id cfg) = false).
Proof.
  destruct (alert_if_fresh_trace env cfg symbol sig w)
    as (extra & Ht & [Hf Hshape] & Hdue).
  exists extra. split; [exact Ht|]. split; [exact Hf|].
  split; [exact Hshape | exact Hdue].
Qed.

Lemma check_symbol_trace env cfg symbol results w :
  exists extra,
    trace (snd (check_symbol env cfg symbol results w)) = trace w ++ extra /\
    turn_events env cfg symbol extra.
Proof.
  unfold check_symbol.
  unfold mbind at 1, M_bind at 1, try_except.
  unfold mbind at 1, M_bind at 1. rewrite fetch_candles_run.
  assert (Hone : forall w', trace w' = trace w ++ [EvFetch symbol] ->
            exists extra, trace w' = trace w ++ extra /\
                          turn_events env cfg symbol extra).
  { intros w' H. exists [EvFetch symbol]. split; [exact H|].
    exists ∅, []. split; [done|]. split; [done|]. by left. }
  assert (Hdetect : forall df_ref w2,
            trace w2 = trace w ++ [EvFetch symbol] ->
            exists extra,
              trace (snd ((sig ← detect_momentum_signal df_ref;
                           alert_if_fresh env cfg symbol
                             (<["symbol" := PStr symbol]> sig);;
                           mret (results ++ [<["symbol" := PStr symbol]> sig]))
                            w2))
              = trace w ++ extra /\
              turn_events env cfg symbol extra).
  { intros df_ref w2 H2.
    pose proof (preserves_detect trace df_ref ltac:(done) w2) as Hd.
    destruct (detect_momentum_signal df_ref w2) as [[rep|e] w3] eqn:Ed;
      simpl in Hd.
    2:{ rewrite (bind_raise _ _ _ _ _ Ed). apply Hone. simpl. congruence. }
    rewrite (bind_ok _ _ _ _ _ Ed).
    destruct (alert_if_fresh_trace env cfg symbol
                (<["symbol" := PStr symbol]> rep) w3)
      as (extra & Ht & Hshape & _).
    exists (EvFetch symbol :: extra). split.
    - unfold mbind, M_bind.
      destruct (alert_if_fresh env cfg symbol _ w3) as [[[]|e] w4];
        simpl in *; rewrite Ht, Hd, H2; by rewrite <- app_assoc.
    - by exists (<["symbol" := PStr symbol]> rep), extra. }
  destruct (provider env (ticks w) symbol) as [[df|]|e]; cbn [mret M_ret].
  - apply Hdetect. reflexivity.
  - apply Hdetect. reflexivity.
  - apply Hone. reflexivity.
Qed.

Lemma run_loop_trace env cfg syms :
  forall results w,
    exists turns,
      trace (snd (run_loop env cfg syms results w))
      = trace w ++ concat turns /\
      (length turns <= length syms)%nat /\
      Forall2 (turn_events env cfg) (take (length turns) syms) turns /\
      match fst (run_loop env cfg syms results w) with
      | Ok _ => length turns = length syms
      | Raise _ => True
      end.
Proof.
  induction syms as [|s syms IH]; intros results w.
  - exists []. simpl. rewrite app_nil_r. repeat split; try done.
  - simpl.
    destruct (check_symbol_trace env cfg s results w) as (e1 & Ht1 & Hturn).
    unfold mbind, M_bind.
    destruct (check_symbol env cfg s results w) as [[res|e] w1]; simpl in *.
    + destruct (IH res w1) as (turns & Ht2 & Hlen & Hall & Hok).
      exists (e1 :: turns). simpl.
      rewrite Ht2, Ht1, <- app_assoc.
      split; [done|]. split; [lia|]. split; [by constructor|].
      destruct (fst (run_loop env cfg syms res w1)); [lia|done].
    + exists [e1]. simpl. rewrite app_nil_r.
      split; [done|]. split; [lia|]. split; [|done].
      rewrite take_0. constructor; [exact Hturn | constructor].
Qed.

(** X18.  What one cycle of [run_check] adds to the trace, whatever the
    provider, the store and the endpoint do and whether the cycle
    returns or raises: the turns of the watched symbols, one after the
    other in list order, up to the symbol where the cycle stopped.  Each
    turn is the fetch of its symbol, followed by nothing that posts or
    writes, or by one delivery attempt, of a message composed for that
    symbol, and after the attempt at most one write of the store.  When
    the cycle returns, every symbol had its turn. *)
Theorem run_check_trace (env : Env) (cfg : Config) (w : World) :
  exists extra,
    trace (snd (run_check env cfg w)) = trace w ++ extra /\
    cycle_events env cfg (symbols cfg) extra /\
    (forall results, fst (run_check env cfg w) = Ok results ->
       exists turns,
         extra = concat turns /\
         Forall2 (turn_events env cfg) (symbols cfg) turns).
Proof.
  unfold run_check.
  destruct (run_loop_trace env cfg (symbols cfg) [] w)
    as (turns & Ht & Hlen & Hall & Hok).
  exists (concat turns). split; [exact Ht|]. split.
  - by exists turns.
  - intros results Hres. rewrite Hres in Hok.
    exists turns. split; [done|].
    rewrite Hok, take_ge in Hall by lia. exact Hall.
Qed.

(** ** A provider that is down *)

Lemma check_symbol_fetch_raises env cfg symbol results w e :
  provider env (ticks w) symbol = Raise e ->
  check_symbol env cfg symbol results w
  = (Ok (results ++ [error_entry symbol e]),
     {| heap := heap w; alerts_file := alerts_file w;
        ticks := S (ticks w); trace := trace w ++ [EvFetch symbol] |}).
Proof.
  intros Hp. unfold check_symbol.
  unfold mbind at 1, M_bind at 1, try_except.
  unfold mbind at 1, M_bind at 1. rewrite fetch_candles_run, Hp.
  reflexivity.
Qed.

Lemma run_loop_provider_down env cfg (err : nat -> string -> exn) syms :
  (forall n s, provider env n s = Raise (err n s)) ->
  forall results w,
    run_loop env cfg syms results w
    = (Ok (results
           ++ imap (fun i s => error_entry s (err (ticks w + i)%nat s)) syms),
       {| heap := heap w; alerts_file := alerts_file w;
          ticks := (ticks w + length syms)%nat;
          trace := trace w ++ map EvFetch syms |}).
Proof.
  intros Hp. induction syms as [|s syms IH]; intros results w.
  - simpl. rewrite !app_nil_r, Nat.add_0_r. by destruct w.
  - simpl.
    rewrite (bind_ok _ _ _ _ _
               (check_symbol_fetch_raises env cfg s results w _ (Hp _ _))).
    rewrite IH. simpl. rewrite <- !app_assoc. simpl.
    rewrite Nat.add_0_r. do 2 f_equal.
    + do 2 f_equal. apply imap_ext. intros i x _. simpl.
      do 2 f_equal. lia.
    + f_equal. lia.
Qed.

(** X19.  When every fetch raises, one cycle of [run_check] returns the
    error entry of each symbol, in list order, with the message of the
    exception that fetch raised.  It fetched each symbol once and did
    nothing else: the store, readable or not, was not read or written,
    nothing was posted, and no frame was made. *)
Theorem run_check_provider_down (env : Env) (cfg : Config) (w : World)
  (err : nat -> string -> exn) :
  (forall n s, provider env n s = Raise (err n s)) ->
  run_check env cfg w
  = (Ok (imap (fun i s => error_entry s (err (ticks w + i)%nat s))
           (symbols cfg)),
     {| heap := heap w; alerts_file := alerts_file w;
        ticks := (ticks w + length (symbols cfg))%nat;
        trace := trace w ++ map EvFetch (symbols cfg) |}).
Proof.
  intros Hp. unfold run_check.
  by rewrite (run_loop_provider_down env cfg err (symbols cfg) Hp [] w).
Qed.

Lemma run_check_provider_down_witness :
  let e :=
    Exn RuntimeError
      "fetch_candles: You must implement the data fetch logic for your provider. Set demo_mode true in config.json to test UI." in
  let env :=
    with_provider (shipped_provider false (fun _ => Ok breakout))
      (demo_env breakout 200 1700000000000000) in
  let cfg := demo_cfg ["NIFTY"; "BANKNIFTY"]%string in
  let w := world_of [] epoch_store in
  run_check env cfg w
  = (Ok (imap (fun i s => error_entry s e) (symbols cfg)),
     {| heap := heap w; alerts_file := alerts_file w;
        ticks := (ticks w + length (symbols cfg))%nat;
        trace := trace w ++ map EvFetch (symbols cfg) |}).
Proof.
  exact (run_check_provider_down
           (with_provider (shipped_provider false (fun _ => Ok breakout))
              (demo_env breakout 200 1700000000000000))
           (demo_cfg ["NIFTY"; "BANKNIFTY"]%string)
           (world_of [] epoch_store)
           (fun _ _ =>
              Exn RuntimeError
                "fetch_candles: You must implement the data fetch logic for your provider. Set demo_mode true in config.json to test UI.")
           (fun n s => eq_refl)).
Defined.

(** ** What a signal says about the frame *)

(** X20.  On a candle frame of 30 rows or more [detect_momentum_signal]
    returns a report, and when its [signal] is true the reported [rsi5]
    is a finite number above 55 and at most 100, both spike flags of
    the report are true, the last ten volumes are all finite numbers,
    and the reported time is the label of the last row. *)
Theorem signal_implies (w : World) (l : loc) (df : DataFrame) :
  heap w !! l = Some df ->
  candle_frame df = true ->
  (30 <= length (index df))%nat ->
  let n := length (index df) in
  exists rep w',
    detect_momentum_signal (Some l) w = (Ok rep, w') /\
    (rep !! "signal" = Some (PBool true) ->
     (exists z q, rep !! "rsi5" = Some (PFloat (Fin z q)) /\
                  55 < q /\ q <= 100) /\
     rep !! "vol_spike" = Some (PBool true) /\
     rep !! "atr_spike" = Some (PBool true) /\
     (forall v, v ∈ drop (n - 10) (floats df "volume") ->
                is_nan v || is_inf v = false) /\
     (exists t, index df !! (n - 1)%nat = Some t /\
                rep !! "time" = Some (PStr t))).
Proof.
  intros Hl Hc Hn n.
  destruct (detect_run w l df Hl Hc Hn)
    as (tl & tp & x & y & Htl & _ & Hx & _ & _ & _ & _ & _ & _ & Hd).
  eexists _, _. split; [exact Hd|].
  rewrite lookup_insert_eq. intros [= Hs].
  unfold signal_of, conditions_from in Hs. simpl in Hs.
  rewrite !andb_true_iff in Hs. destruct Hs as [[[_ Hr] Hv] Ha].
  destruct Hx as (_ & _ & Hrsi & _ & Hvol & _).
  fold n in Hrsi, Hvol, Htl.
  split; [|split; [|split; [|split]]].
  - assert (Hnan : is_nan (r_rsi5 x) = false).
    { destruct (r_rsi5 x); try done. }
    pose proof (rsi_within _ 5 _ _ ltac:(lia) Hrsi Hnan) as Hw.
    destruct (r_rsi5 x) as [|s|z q] eqn:E; try done.
    exists z, q. split; [by rewrite lookup_insert_ne, lookup_insert_ne,
                            lookup_insert_eq|].
    destruct Hw as [_ Hhi]. split; [|done].
    unfold fgt, flt, fcompare, fl in Hr.
    by destruct (55 ?= q) eqn:Ec.
  - rewrite !lookup_insert_ne by done. rewrite lookup_insert_eq.
    by rewrite Hv.
  - rewrite !lookup_insert_ne by done. rewrite lookup_insert_eq.
    by rewrite Ha.
  - rewrite Hv in Hvol. unfold volume_spike in Hvol.
    destruct (spike_true_window _ _ _ _ Hvol) as [_ Hall].
    destruct (candle_column df "volume" Hc ltac:(in_list)) as [_ Lv].
    fold n in Lv.
    replace (S (n - 1)) with n in Hall by lia.
    rewrite take_ge in Hall by lia. exact Hall.
  - exists tl. split; [done|].
    rewrite !lookup_insert_ne by done. apply lookup_insert_eq.
Qed.

Lemma signal_implies_witness :
  exists rep w',
    detect_momentum_signal (Some 0%nat) (world_of [breakout] None)
    = (Ok rep, w') /\
    (rep !! "signal" = Some (PBool true) ->
     (exists z q, rep !! "rsi5" = Some (PFloat (Fin z q)) /\
                  55 < q /\ q <= 100) /\
     rep !! "vol_spike" = Some (PBool true) /\
     rep !! "atr_spike" = Some (PBool true) /\
     (forall v, v ∈ drop (length (index breakout) - 10)
                       (floats breakout "volume") ->
                is_nan v || is_inf v = false) /\
     (exists t, index breakout !! (length (index breakout) - 1)%nat = Some t /\
                rep !! "time" = Some (PStr t))).
Proof.
  apply (signal_implies (world_of [breakout] None) 0%nat breakout).
  - reflexivity.
  - vm_compute. reflexivity.
  - vm_compute. lia.
Defined.

(** ** The synthetic candles of demo mode *)

Lemma length_cumsum_from acc xs : length (cumsum_from acc xs) = length xs.
Proof.
  revert acc. induction xs as [|x xs IH]; intros acc; simpl; [done|].
  by rewrite IH.
Qed.

Lemma length_draw f limit : length (draw f limit) = limit.
Proof. unfold draw. by rewrite length_map, length_seq. Qed.

Lemma draw_lookup f limit i :
  (i < limit)%nat -> draw f limit !! i = Some (f i).
Proof.
  intros Hi. unfold draw. rewrite list_lookup_fmap, lookup_seq_lt by done.
  reflexivity.
Qed.

Lemma length_demo_price d limit : length (demo_price d limit) = limit.
Proof.
  unfold demo_price, cumsum.
  by rewrite length_map, length_cumsum_from, length_map, length_cumsum_from,
    length_draw.
Qed.

Lemma astype_int_range u :
  0 <= u -> u < 1 ->
  (10 <= astype_int (u * 50 + 10) <= 59)%Z.
Proof.
  intros H0 H1. set (q := u * 50 + 10).
  assert (Hq0 : 10 <= q) by (subst q; lra).
  assert (Hq1 : q < 60) by (subst q; lra).
  assert (E : astype_int q = Qfloor q).
  { unfold astype_int. destruct q as [a b]. simpl.
    apply Z.quot_div_nonneg; [|done].
    unfold Qle in Hq0. simpl in Hq0. lia. }
  rewrite E.
  pose proof (Qfloor_le q) as Hlo. pose proof (Qlt_floor q) as Hhi.
  split.
  - assert (H : inject_Z 10 < inject_Z (Qfloor q + 1)).
    { eapply Qle_lt_trans; [|exact Hhi]. exact Hq0. }
    rewrite <- Zlt_Qlt in H. lia.
  - assert (H : inject_Z (Qfloor q) < inject_Z 60).
    { eapply Qle_lt_trans; [exact Hlo|]. exact Hq1. }
    rewrite <- Zlt_Qlt in H. lia.
Qed.

(** The columns of the synthetic frame, read as [floats] does. *)
Lemma demo_columns d stamp limit :
  let price := demo_price d limit in
  let df := demo_candles d stamp limit in
  floats df "open" = map fl price /\
  floats df "high"
  = map fl (zip_with Qplus price
              (map (fun u => u * 1.5) (draw (rand_high d) limit))) /\
  floats df "low"
  = map fl (zip_with Qminus price
              (map (fun u => u * 1.5) (draw (rand_low d) limit))) /\
  floats df "close"
  = map fl (zip_with Qplus price
              (map (fun u => u - 0.5) (draw (rand_close d) limit))) /\
  floats df "volume"
  = map fl (map (fun u => inject_Z (astype_int (u * 50 + 10)))
              (draw (rand_volume d) limit)).
Proof.
  intros price df. subst df. unfold floats, demo_candles. cbn [columns].
  repeat split;
    rewrite ?lookup_insert_ne by done; by rewrite lookup_insert_eq.
Qed.

Lemma demo_candle_frame d stamp limit :
  candle_frame (demo_candles d stamp limit) = true.
Proof.
  unfold candle_frame. apply forallb_forall. intros key Hk. simpl in Hk.
  unfold numeric_column, demo_candles. cbn [columns index].
  destruct Hk as [<-|[<-|[<-|[<-|[]]]]];
    rewrite ?lookup_insert_ne by done; rewrite lookup_insert_eq;
    rewrite ?length_map, ?length_zip_with, ?length_map, ?length_draw,
      ?length_demo_price, ?length_seq, ?Nat.min_id;
    apply Nat.eqb_refl.
Qed.

Lemma demo_row d stamp limit i :
  unit_draws d -> (i < limit)%nat ->
  exists o h lo c (v : Z),
    floats (demo_candles d stamp limit) "open" !! i = Some (fl o) /\
    floats (demo_candles d stamp limit) "high" !! i = Some (fl h) /\
    floats (demo_candles d stamp limit) "low" !! i = Some (fl lo) /\
    floats (demo_candles d stamp limit) "close" !! i = Some (fl c) /\
    floats (demo_candles d stamp limit) "volume" !! i
    = Some (fl (inject_Z v)) /\
    lo <= o /\ o <= h /\ (10 <= v <= 59)%Z.
Proof.
  intros Hu Hi.
  destruct (demo_columns d stamp limit) as (Eo & Eh & El & Ec & Ev).
  destruct (lookup_lt_is_Some_2 (demo_price d limit) i) as [p Hp];
    [by rewrite length_demo_price|].
  destruct (Hu i) as ((Hh0 & Hh1) & (Hl0 & Hl1) & (Hc0 & Hc1) & (Hv0 & Hv1)).
  exists p, (p + rand_high d i * 1.5), (p - rand_low d i * 1.5),
    (p + (rand_close d i - 0.5)), (astype_int (rand_volume d i * 50 + 10)).
  rewrite Eo, Eh, El, Ec, Ev. rewrite !list_lookup_fmap.
  rewrite !lookup_zip_with, !list_lookup_fmap, Hp, !draw_lookup by done.
  simpl. repeat (split; [reflexivity|]).
  repeat split; try lra; by apply astype_int_range.
Qed.

Lemma demo_ordered_bars d stamp limit :
  unit_draws d -> ordered_bars (demo_candles d stamp limit) = true.
Proof.
  intros Hu. unfold ordered_bars. apply forallb_forall. intros [h lo] Hin.
  change (combine ?a ?b) with (zip a b) in Hin.
  apply list_elem_of_In, list_elem_of_lookup in Hin as [i Hi].
  apply lookup_zip_with_Some in Hi as (h' & lo' & [= <- <-] & Hh & Hlo).
  assert (Hlt : (i < limit)%nat).
  { pose proof (lookup_lt_Some _ _ _ Hh) as Hlen.
    destruct (candle_column _ "high" (demo_candle_frame d stamp limit)
                ltac:(in_list)) as [_ L].
    rewrite L in Hlen. unfold demo_candles in Hlen. cbn [index] in Hlen.
    by rewrite length_map, length_seq in Hlen. }
  destruct (demo_row d stamp limit i Hu Hlt)
    as (o & h0 & l0 & c & v & _ & Eh & El & _ & _ & Hlo0 & Hoh & _).
  rewrite Eh in Hh. rewrite El in Hlo. injection Hh as <-.
  injection Hlo as <-. simpl.
  unfold flt, fcompare, fl.
  destruct (h0 ?= l0) eqn:E; try done.
  apply Qlt_alt in E. lra.
Qed.

(** X21.  The frame [fetch_candles] builds in demo mode, for any draws of
    [np.random.rand] in the unit interval and any labels: a candle
    frame of [limit] rows, the columns open, high, low, close and volume
    with one number per row, in which every bar has low <= open <= high
    and an integer volume from 10 to 59. *)
Theorem demo_candles_bars (d : Draws) (stamp : nat -> string)
  (limit : nat) :
  unit_draws d ->
  let df := demo_candles d stamp limit in
  candle_frame df = true /\
  length (index df) = limit /\
  ordered_bars df = true /\
  forall i, (i < limit)%nat ->
    exists o h lo c (v : Z),
      floats df "open" !! i = Some (fl o) /\
      floats df "high" !! i = Some (fl h) /\
      floats df "low" !! i = Some (fl lo) /\
      floats df "close" !! i = Some (fl c) /\
      floats df "volume" !! i = Some (fl (inject_Z v)) /\
      lo <= o /\ o <= h /\ (10 <= v <= 59)%Z.
Proof.
  intros Hu df. subst df.
  split; [apply demo_candle_frame|].
  split; [unfold demo_candles; cbn [index];
          by rewrite length_map, length_seq|].
  split; [by apply demo_ordered_bars|].
  intros i Hi. by apply demo_row.
Qed.

Lemma half_draws_unit : unit_draws half_draws.
Proof.
  intros i. simpl. destruct (Nat.even i); repeat split; lra.
Qed.

Lemma demo_candles_bars_witness :
  let df := demo_candles half_draws (fun i => pretty i) 200 in
  candle_frame df = true /\
  length (index df) = 200%nat /\
  ordered_bars df = true /\
  forall i, (i < 200)%nat ->
    exists o h lo c (v : Z),
      floats df "open" !! i = Some (fl o) /\
      floats df "high" !! i = Some (fl h) /\
      floats df "low" !! i = Some (fl lo) /\
      floats df "close" !! i = Some (fl c) /\
      floats df "volume" !! i = Some (fl (inject_Z v)) /\
      lo <= o /\ o <= h /\ (10 <= v <= 59)%Z.
Proof.
  exact (demo_candles_bars half_draws (fun i => pretty i) 200
           half_draws_unit).
Defined.

(** X22.  One turn of the cycle in demo mode.  When [pd.date_range]
    reads the frequency alias, [fetch_candles] returns a new frame of
    200 synthetic bars and [detect_momentum_signal] returns on it a
    report that is not empty: a boolean [signal], the label of the last
    bar as its time and the last close of the frame, a finite number,
    as its close.  When [pd.date_range] raises,
    [fetch_candles] raises that exception before any candle is drawn,
    and the turn appends the error entry of the symbol. *)
Theorem demo_mode_reports (env : Env) (cfg : Config) (draws : nat -> Draws)
  (symbol : string) (results : list (gmap string pyval)) (w : World) :
  (forall n s, provider env n s
               = shipped_provider true
                   (fun k => demo_fetch (draws k) 200) n s) ->
  (forall n, unit_draws (draws n)) ->
  (forall stamp,
     date_range (draws (ticks w)) = Ok stamp ->
     let df := demo_candles (draws (ticks w)) stamp 200 in
     exists l w1 rep w2,
       fetch_candles env symbol w = (Ok (Some l), w1) /\
       heap w !! l = None /\ heap w1 !! l = Some df /\
       detect_momentum_signal (Some l) w1 = (Ok rep, w2) /\
       (exists b, rep !! "signal" = Some (PBool b)) /\
       rep !! "time" = Some (PStr (stamp 199%nat)) /\
       (exists c, floats df "close" !! 199%nat = Some (fl c) /\
                  rep !! "close" = Some (PFloat (fl c)))) /\
  (forall e,
     date_range (draws (ticks w)) = Raise e ->
     exists w1,
       fetch_candles env symbol w = (Raise e, w1) /\
       heap w1 = heap w /\
       check_symbol env cfg symbol results w
       = (Ok (results ++ [error_entry symbol e]), w1)).
Proof.
  intros Hp Hu. split.
  - intros stamp Hstamp df.
    pose proof (fetch_candles_run env symbol w) as Hf. cbv zeta in Hf.
    rewrite Hp in Hf. unfold shipped_provider, demo_fetch in Hf.
    rewrite Hstamp in Hf. cbn [mbind result_bind] in Hf. fold df in Hf.
    set (l := fresh (dom (heap w))) in *.
    set (w1 := set_heap _ _) in Hf.
    assert (Hl : heap w1 !! l = Some df) by apply lookup_insert_eq.
    assert (Hc : candle_frame df = true) by apply demo_candle_frame.
    assert (Hlen : length (index df) = 200%nat).
    { subst df. unfold demo_candles. cbn [index].
      by rewrite length_map, length_seq. }
    destruct (detect_run w1 l df Hl Hc ltac:(lia))
      as (tl & tp & x & y & Htl & _ & Hx & _ & _ & _ & _ & _ & _ & Hd).
    rewrite Hlen in Htl, Hx.
    exists l, w1. eexists _, _.
    split; [exact Hf|]. split; [apply alloc_fresh|]. split; [exact Hl|].
    split; [exact Hd|]. split; [eexists; apply lookup_insert_eq|].
    split.
    + rewrite !lookup_insert_ne by done. rewrite lookup_insert_eq.
      subst df. unfold demo_candles in Htl. cbn [index] in Htl.
      rewrite list_lookup_fmap, lookup_seq_lt in Htl by lia.
      cbn [fmap option_fmap option_map Nat.add] in Htl.
      by injection Htl as <-.
    + destruct (demo_row (draws (ticks w)) stamp 200 199 (Hu _) ltac:(lia))
        as (o & h & lo & c & v & _ & _ & _ & Ec & _).
      destruct Hx as (_ & _ & _ & Hclose & _).
      change (200 - 1)%nat with 199%nat in Hclose.
      fold df in Ec. rewrite Ec in Hclose. injection Hclose as Hclose.
      exists c. split; [exact Ec|]. rewrite <- Hclose.
      rewrite !lookup_insert_ne by done. by rewrite lookup_insert_eq.
  - intros e He.
    assert (Hraise : provider env (ticks w) symbol = Raise e).
    { rewrite Hp. unfold shipped_provider, demo_fetch. by rewrite He. }
    eexists. split; [|split].
    + rewrite fetch_candles_run, Hraise. reflexivity.
    + reflexivity.
    + by apply check_symbol_fetch_raises.
Qed.

Lemma demo_mode_reports_witness :
  let env (d : Draws) :=
    with_provider (shipped_provider true (fun _ => demo_fetch d 200))
      (demo_env quiet 200 1700000000000000) in
  let cfg := demo_cfg ["NIFTY"%string] in
  let w := world_of [] None in
  let df := demo_candles half_draws (fun i => pretty i) 200 in
  (exists l w1 rep w2,
     fetch_candles (env half_draws) "NIFTY" w = (Ok (Some l), w1) /\
     heap w !! l = None /\ heap w1 !! l = Some df /\
     detect_momentum_signal (Some l) w1 = (Ok rep, w2) /\
     (exists b, rep !! "signal" = Some (PBool b)) /\
     rep !! "time" = Some (PStr (pretty 199%nat)) /\
     (exists c, floats df "close" !! 199%nat = Some (fl c) /\
                rep !! "close" = Some (PFloat (fl c)))) /\
  (exists w1,
     fetch_candles (env rejected_draws) "NIFTY" w
     = (Raise invalid_frequency, w1) /\
     heap w1 = heap w /\
     check_symbol (env rejected_draws) cfg "NIFTY" [] w
     = (Ok ([] ++ [error_entry "NIFTY" invalid_frequency]), w1)).
Proof.
  intros env cfg w df. split.
  - apply (proj1 (demo_mode_reports (env half_draws) cfg
                    (fun _ => half_draws) "NIFTY" [] w
                    (fun n s => eq_refl) (fun n => half_draws_unit))
             (fun i => pretty i) eq_refl).
  - apply (proj2 (demo_mode_reports (env rejected_draws) cfg
                    (fun _ => rejected_draws) "NIFTY" [] w
                    (fun n s => eq_refl) (fun n => half_draws_unit))
             invalid_frequency eq_refl).
Defined.

(** ** A symbol without enough candles *)

(** X24.  A symbol for which the provider has no frame, or a frame of
    fewer than 30 rows, whatever its columns: the turn of the loop
    appends the entry that holds the symbol and nothing else, and does
    nothing but the fetch.  The store is not read or written and
    nothing is posted; the short frame stays in the heap as fetched. *)
Theorem check_symbol_no_data (env : Env) (cfg : Config) (symbol : string)
  (results : list (gmap string pyval)) (w : World) :
  (provider env (ticks w) symbol = Ok None \/
   exists df, provider env (ticks w) symbol = Ok (Some df) /\
              (length (index df) < 30)%nat) ->
  exists w',
    check_symbol env cfg symbol results w
    = (Ok (results ++ [{[ "symbol"%string := PStr symbol ]}]), w') /\
    trace w' = trace w ++ [EvFetch symbol] /\
    alerts_file w' = alerts_file w /\
    ticks w' = S (ticks w) /\
    (forall l, l ∈ dom (heap w) -> heap w' !! l = heap w !! l).
Proof.
  intros Hp. unfold check_symbol.
  unfold mbind at 1, M_bind at 1, try_except.
  unfold mbind at 1, M_bind at 1. rewrite fetch_candles_run.
  assert (Hquiet : forall w1,
            alert_if_fresh env cfg symbol
              (<["symbol" := PStr symbol]> ∅) w1 = (Ok tt, w1)).
  { intros w1. unfold alert_if_fresh.
    by rewrite lookup_insert_ne, lookup_empty. }
  destruct Hp as [->|(df & -> & Hlen)]; cbn [mret M_ret].
  - unfold detect_momentum_signal.
    unfold mbind at 1, M_bind at 1. cbn [mret M_ret].
    rewrite (bind_ok _ _ _ _ _ (Hquiet _)).
    eexists. split; [reflexivity|]. by repeat split.
  - set (l := fresh (dom (heap w))). set (w2 := set_heap _ _).
    assert (Hl : heap w2 !! l = Some df) by apply lookup_insert_eq.
    assert (Hd : detect_momentum_signal (Some l) w2 = (Ok ∅, w2)).
    { unfold detect_momentum_signal.
      rewrite (bind_ok _ _ _ _ _ (df_len_ok _ _ _ Hl)).
      by destruct (Nat.ltb_spec (length (index df)) 30); [|lia]. }
    rewrite (bind_ok _ _ _ _ _ Hd), (bind_ok _ _ _ _ _ (Hquiet _)).
    eexists. split; [reflexivity|]. repeat split.
    intros l0 Hl0. subst w2. simpl. apply lookup_insert_ne.
    intros <-. by apply (is_fresh (dom (heap w))).
Qed.

Lemma check_symbol_no_data_witness :
  let env := demo_env three_bars 200 1700000000000000 in
  let cfg := demo_cfg ["NIFTY"%string] in
  let w := world_of [] epoch_store in
  exists w',
    check_symbol env cfg "NIFTY" [] w
    = (Ok ([] ++ [{[ "symbol"%string := PStr "NIFTY" ]}]), w') /\
    trace w' = trace w ++ [EvFetch "NIFTY"] /\
    alerts_file w' = alerts_file w /\
    ticks w' = S (ticks w) /\
    (forall l, l ∈ dom (heap w) -> heap w' !! l = heap w !! l).
Proof.
  apply (check_symbol_no_data (demo_env three_bars 200 1700000000000000)
           (demo_cfg ["NIFTY"%string]) "NIFTY" [] (world_of [] epoch_store)).
  right. exists three_bars. split; [reflexivity|]. vm_compute. lia.
Defined.

(** ** The signal pipeline has no effect outside the heap *)

Lemma preserves_deref {X} (f : World -> X) l : preserves f (deref l).
Proof. intros w. unfold deref. by destruct (heap w !! l). Qed.

Lemma preserves_atr {X} (f : World -> X) l n : preserves f (atr l n).
Proof.
  unfold atr.
  repeat (apply preserves_bind; [apply preserves_getcol|]; intros ?).
  apply preserves_ret.
Qed.

(** X25.  [atr] only reads: the world after it is the world before.
    [compute_all] and [detect_momentum_signal] change nothing but the
    heap: whatever frame they are given, and whether they return or
    raise, the alerts file, the trace of fetches, posts and writes, and
    the clock are as before. *)
Theorem signal_pipeline_is_silent (df_ref : option loc) (l : loc) (n : Z)
  (w : World) :
  snd (atr l n w) = w /\
  (alerts_file (snd (compute_all l w)) = alerts_file w /\
   trace (snd (compute_all l w)) = trace w /\
   ticks (snd (compute_all l w)) = ticks w) /\
  (alerts_file (snd (detect_momentum_signal df_ref w)) = alerts_file w /\
   trace (snd (detect_momentum_signal df_ref w)) = trace w /\
   ticks (snd (detect_momentum_signal df_ref w)) = ticks w).
Proof.
  split; [|split].
  - apply (preserves_atr (fun w0 => w0)).
  - split; [|split].
    + by apply (preserves_compute_all alerts_file).
    + by apply (preserves_compute_all trace).
    + by apply (preserves_compute_all ticks).
  - split; [|split].
    + by apply (preserves_detect alerts_file).
    + by apply (preserves_detect trace).
    + by apply (preserves_detect ticks).
Qed.
